(** * Banner creator: the canvas editor and the generative-service adapter

    A shallow embedding of [components/CanvasEditor.tsx] (scene model,
    history, pointer gestures, layer order, paint order) and of
    [services/geminiService.ts] (plan and image requests), with the
    properties of the specification stated and settled against it.

    Conventions of the embedding.
    - A JavaScript [number] is a rational ([Q]); floating-point rounding is
      outside the model.  Equality of records is Leibniz equality, which is
      finer than numeric equality.
    - An object used through spreads and [Object.keys] (an element's
      [style], a patch passed to [updateSelected], the object a spread
      builds from an element) is a finite map from property names to
      values.  A property holding [undefined]
      reads exactly like a missing one everywhere in this program (all
      reads go through [||], [??] or a truthiness test, and
      [JSON.stringify] drops it), so the model identifies the two: writing
      [undefined] removes the key.
    - [JSON.parse(JSON.stringify(v))] on such values is a deep copy; values
      are immutable here, so the copy is the value itself.
    - React state is passed explicitly: a handler reads the state of the
      render it was created in and returns the next state.
    - [JSON.parse] belongs to the platform: the adapter is given it as part
      of its surroundings. *)

From Stdlib Require Import QArith Qround Qabs ZArith List String Ascii Lia Lqa Sorted.
From stdpp Require Import base gmap strings list.

Local Open Scope string_scope.
Local Open Scope list_scope.

(** ** JavaScript values *)

Local Unset Elimination Schemes.

(** Numbers, strings, booleans, and objects as finite maps from property
    names to values; a property holding [undefined] is identified with a
    missing property. *)
Inductive JsVal :=
  | VNum (n : Q)
  | VStr (s : string)
  | VBool (b : bool)
  | VObj (o : gmap string JsVal).

Local Set Elimination Schemes.

(** [x || d] on a number: [0] is falsy. *)
Definition num_or (v : Q) (d : Q) : Q := if Qeq_bool v 0 then d else v.

(** [o || d] where [o] may be [undefined]. *)
Definition opt_num_or (o : option Q) (d : Q) : Q :=
  match o with Some v => num_or v d | None => d end.

(** [o ?? d]. *)
Definition nullish (o : option Q) (d : Q) : Q :=
  match o with Some v => v | None => d end.

(** Truthiness of an optional boolean property ([el.locked]). *)
Definition truthy (o : option bool) : bool :=
  match o with Some b => b | None => false end.

(** ** Types of [CanvasEditor.tsx] *)

Inductive ElType := TText | TImage | TCta | TLogo | TShape.

Definition ElType_of_string (s : string) : option ElType :=
  if String.eqb s "text" then Some TText
  else if String.eqb s "image" then Some TImage
  else if String.eqb s "cta" then Some TCta
  else if String.eqb s "logo" then Some TLogo
  else if String.eqb s "shape" then Some TShape
  else None.

Definition ElType_to_string (t : ElType) : string :=
  match t with
  | TText => "text" | TImage => "image" | TCta => "cta"
  | TLogo => "logo" | TShape => "shape"
  end.

(** [CanvasElement]: the top-level fields carry their declared types; the
    [style] object is a finite map, because [updateSelected] spreads whole
    patches into it. *)
Record CanvasElement := mkEl {
  el_id : string;
  el_type : ElType;
  el_content : string;
  el_x : Q;
  el_y : Q;
  el_width : Q;
  el_height : Q;
  el_rotation : Q;
  el_scaleX : option Q;
  el_scaleY : option Q;
  el_groupId : option string;
  el_locked : option bool;
  el_style : gmap string JsVal
}.

(** [el.style.zIndex], a number when present. *)
Definition zIndex (el : CanvasElement) : option Q :=
  match el_style el !! "zIndex" with
  | Some (VNum z) => Some z
  | _ => None
  end.

Definition fontSize (el : CanvasElement) : option Q :=
  match el_style el !! "fontSize" with
  | Some (VNum z) => Some z
  | _ => None
  end.

Definition set_style (el : CanvasElement) (s : gmap string JsVal) : CanvasElement :=
  mkEl (el_id el) (el_type el) (el_content el) (el_x el) (el_y el)
       (el_width el) (el_height el) (el_rotation el) (el_scaleX el)
       (el_scaleY el) (el_groupId el) (el_locked el) s.

Definition set_xy (el : CanvasElement) (nx ny : Q) : CanvasElement :=
  mkEl (el_id el) (el_type el) (el_content el) nx ny
       (el_width el) (el_height el) (el_rotation el) (el_scaleX el)
       (el_scaleY el) (el_groupId el) (el_locked el) (el_style el).

Definition set_size (el : CanvasElement) (w h : Q) : CanvasElement :=
  mkEl (el_id el) (el_type el) (el_content el) (el_x el) (el_y el)
       w h (el_rotation el) (el_scaleX el)
       (el_scaleY el) (el_groupId el) (el_locked el) (el_style el).

Definition set_rotation (el : CanvasElement) (r : Q) : CanvasElement :=
  mkEl (el_id el) (el_type el) (el_content el) (el_x el) (el_y el)
       (el_width el) (el_height el) r (el_scaleX el)
       (el_scaleY el) (el_groupId el) (el_locked el) (el_style el).

Definition set_id (el : CanvasElement) (i : string) : CanvasElement :=
  mkEl i (el_type el) (el_content el) (el_x el) (el_y el)
       (el_width el) (el_height el) (el_rotation el) (el_scaleX el)
       (el_scaleY el) (el_groupId el) (el_locked el) (el_style el).

Definition set_locked (el : CanvasElement) (b : option bool) : CanvasElement :=
  mkEl (el_id el) (el_type el) (el_content el) (el_x el) (el_y el)
       (el_width el) (el_height el) (el_rotation el) (el_scaleX el)
       (el_scaleY el) (el_groupId el) b (el_style el).

Definition set_scale (el : CanvasElement) (sx sy : option Q) : CanvasElement :=
  mkEl (el_id el) (el_type el) (el_content el) (el_x el) (el_y el)
       (el_width el) (el_height el) (el_rotation el) sx sy
       (el_groupId el) (el_locked el) (el_style el).

Inductive AspectRatio := R1_1 | R16_9 | R9_16 | R3_4 | R4_5.

Inductive BgType := BgImage | BgColor | BgGradient.

(** The six background state atoms [bgType], [bgValue], [bgOpacity],
    [bgScale], [bgX], [bgY]. *)
Record Background := mkBg {
  bgType : BgType;
  bgValue : string;
  bgOpacity : Q;
  bgScale : Q;
  bgX : Q;
  bgY : Q
}.

(** An entry of the [history] array.  The array is typed [any[]] and [undo]
    reads the numeric fields through [??], so they are optional here. *)
Record HistoryEntry := mkEntry {
  h_elements : list CanvasElement;
  h_bgValue : string;
  h_bgType : BgType;
  h_bgOpacity : option Q;
  h_bgScale : option Q;
  h_bgX : option Q;
  h_bgY : option Q
}.

(** The refs and flags that track the gesture in progress. *)
Record Gesture := mkGesture {
  isDragging : bool;
  isResizing : bool;
  isRotating : bool;
  isEditingText : bool;
  potentialDrag : bool;
  isDraggingBg : bool;
  isResizingBg : bool;
  dragStart : Q * Q;
  elementsStart : gmap string CanvasElement;
  bgDragStart_xy : Q * Q;
  bgDragStart_initialXY : Q * Q;
  bgDragStart_initialScale : Q
}.

(** The component state. *)
Record Editor := mkEditor {
  aspectRatio : AspectRatio;
  elements : list CanvasElement;
  selectedIds : list string;
  bg : Background;
  history : list HistoryEntry;
  historyIndex : nat;
  zoomLevel : Q;
  gesture : Gesture
}.

Definition set_elements (st : Editor) (els : list CanvasElement) : Editor :=
  mkEditor (aspectRatio st) els (selectedIds st) (bg st) (history st)
           (historyIndex st) (zoomLevel st) (gesture st).

Definition set_selectedIds (st : Editor) (ids : list string) : Editor :=
  mkEditor (aspectRatio st) (elements st) ids (bg st) (history st)
           (historyIndex st) (zoomLevel st) (gesture st).

Definition set_bg (st : Editor) (b : Background) : Editor :=
  mkEditor (aspectRatio st) (elements st) (selectedIds st) b (history st)
           (historyIndex st) (zoomLevel st) (gesture st).

Definition set_history (st : Editor) (h : list HistoryEntry) (i : nat) : Editor :=
  mkEditor (aspectRatio st) (elements st) (selectedIds st) (bg st) h i
           (zoomLevel st) (gesture st).

Definition set_gesture (st : Editor) (g : Gesture) : Editor :=
  mkEditor (aspectRatio st) (elements st) (selectedIds st) (bg st) (history st)
           (historyIndex st) (zoomLevel st) g.

(** [selectedIds.includes(el.id)] *)
Definition includes (ids : list string) (i : string) : bool :=
  existsb (String.eqb i) ids.

(** ** History management *)

(** The object literal pushed by [saveToHistory]. *)
Definition snapshot (els : list CanvasElement) (b : Background) : HistoryEntry :=
  mkEntry els (bgValue b) (bgType b)
          (Some (bgOpacity b)) (Some (bgScale b)) (Some (bgX b)) (Some (bgY b)).

(** [saveToHistory(newElements, newBg, ...)]: the new [history] and
    [historyIndex], computed from the [history] and [historyIndex] of the
    current render. *)
Definition saveToHistory (st : Editor) (newElements : list CanvasElement)
    (newBg : Background) : Editor :=
  let newHistory := take (S (historyIndex st)) (history st) ++ [snapshot newElements newBg] in
  let newHistory := if (20 <? length newHistory)%nat then tail newHistory else newHistory in
  set_history st newHistory (length newHistory - 1).

(** What [undo] and [redo] write back from an entry. *)
Definition restore (st : Editor) (e : HistoryEntry) : Editor :=
  set_bg (set_elements st (h_elements e))
         (mkBg (h_bgType e) (h_bgValue e)
               (nullish (h_bgOpacity e) 1) (nullish (h_bgScale e) 1)
               (nullish (h_bgX e) 0) (nullish (h_bgY e) 0)).

Definition undo (st : Editor) : Editor :=
  if (0 <? historyIndex st)%nat then
    match history st !! (historyIndex st - 1)%nat with
    | Some prev => set_history (restore st prev) (history st) (historyIndex st - 1)
    | None => st
    end
  else st.

Definition redo (st : Editor) : Editor :=
  if (historyIndex st <? length (history st) - 1)%nat then
    match history st !! (historyIndex st + 1)%nat with
    | Some next => set_history (restore st next) (history st) (historyIndex st + 1)
    | None => st
    end
  else st.

(** The initial state built by the [useState] initialisers. *)
Definition defaultGesture : Gesture :=
  mkGesture false false false false false false false (0, 0)%Q ∅ (0, 0)%Q (0, 0)%Q 1%Q.

Definition initEditor (ar : AspectRatio) (initialElements : list CanvasElement)
    (b : Background) : Editor :=
  mkEditor ar
    (map (fun el => set_scale el (Some (nullish (el_scaleX el) 1))
                                 (Some (nullish (el_scaleY el) 1)))
         initialElements)
    [] b
    [snapshot initialElements b] 0 (6 # 10)%Q defaultGesture.

(** A committed edit: every mutating action ends with [setElements] (or the
    background setters) on the new scene followed by [saveToHistory] of the
    same scene. *)
Definition commit (st : Editor) (s : list CanvasElement * Background) : Editor :=
  saveToHistory (set_bg (set_elements st (fst s)) (snd s)) (fst s) (snd s).

Definition scene (st : Editor) : list CanvasElement * Background :=
  (elements st, bg st).

Definition scene_of_entry (e : HistoryEntry) : list CanvasElement * Background :=
  (h_elements e,
   mkBg (h_bgType e) (h_bgValue e)
        (nullish (h_bgOpacity e) 1) (nullish (h_bgScale e) 1)
        (nullish (h_bgX e) 0) (nullish (h_bgY e) 0)).

Definition commits (st : Editor) (edits : list (list CanvasElement * Background)) : Editor :=
  fold_left commit edits st.

Definition undos (n : nat) (st : Editor) : Editor := Nat.iter n undo st.

(** ** Actions on the selection *)

Definition styleKeys : list string :=
  ["fontSize"; "fontFamily"; "fontWeight"; "fontStyle"; "textDecoration";
   "lineHeight"; "letterSpacing"; "color"; "gradient"; "backgroundColor";
   "textAlign"; "borderRadius"; "padding"; "opacity"; "zIndex";
   "borderWidth"; "borderColor"].

(** The top-level keys of [CanvasElement] other than [style]. *)
Definition topKeys : list string :=
  ["id"; "type"; "content"; "x"; "y"; "width"; "height"; "rotation";
   "scaleX"; "scaleY"; "groupId"; "locked"].

(** [Object.keys(updates)]: a patch maps each of its keys to the value it
    carries, [None] standing for an explicit [undefined]
    (as in [updateSelected({ color: c, gradient: undefined })]). *)
Definition keys (updates : gmap string (option JsVal)) : list string :=
  map fst (map_to_list updates).

(** [Object.keys(updates).some(k => styleKeys.includes(k))] *)
Definition isStyleUpdate (updates : gmap string (option JsVal)) : bool :=
  existsb (fun k => includes styleKeys k) (keys updates).

(** [{ ...o, ...updates }] *)
Definition spread (updates : gmap string (option JsVal)) (o : gmap string JsVal)
    : gmap string JsVal :=
  merge (fun u v => match u with Some w => w | None => v end) updates o.

(** The element as the object it is: its declared properties, the
    optional ones only when set. *)
Definition opt_insert (k : string) (v : option JsVal) (o : gmap string JsVal)
    : gmap string JsVal :=
  match v with Some x => <[k := x]> o | None => o end.

Definition toObj (el : CanvasElement) : gmap string JsVal :=
  <["id" := VStr (el_id el)]>
  (<["type" := VStr (ElType_to_string (el_type el))]>
  (<["content" := VStr (el_content el)]>
  (<["x" := VNum (el_x el)]>
  (<["y" := VNum (el_y el)]>
  (<["width" := VNum (el_width el)]>
  (<["height" := VNum (el_height el)]>
  (<["rotation" := VNum (el_rotation el)]>
  (opt_insert "scaleX" (VNum <$> el_scaleX el)
  (opt_insert "scaleY" (VNum <$> el_scaleY el)
  (opt_insert "groupId" (VStr <$> el_groupId el)
  (opt_insert "locked" (VBool <$> el_locked el)
  (<["style" := VObj (el_style el)]> ∅)))))))))))).

(** The object the callback of [elements.map] in [updateSelected] returns
    for the element [el], whatever the patch holds. *)
Definition updateOneObj (sel : list string) (updates : gmap string (option JsVal))
    (el : CanvasElement) : gmap string JsVal :=
  if negb (includes sel (el_id el)) then toObj el
  else if truthy (el_locked el) then toObj el
  else if isStyleUpdate updates then
    <["style" := VObj (spread updates (el_style el))]> (toObj el)
  else spread updates (toObj el).

(** An object read at the type [CanvasElement].  Each declared property is
    read from the object when it holds a value of the declared type, an
    optional property being unset when the object has none.  A property
    whose value the declared type excludes (a required one that is missing,
    a value of another type) cannot be held by the record, which keeps the
    field of [base] there; undeclared properties, which no code of the
    editor reads, are not carried. *)
Definition asElement (base : CanvasElement) (o : gmap string JsVal) : CanvasElement :=
  mkEl (match o !! "id" with Some (VStr s) => s | _ => el_id base end)
       (match o !! "type" with
        | Some (VStr s) =>
            match ElType_of_string s with Some t => t | None => el_type base end
        | _ => el_type base
        end)
       (match o !! "content" with Some (VStr s) => s | _ => el_content base end)
       (match o !! "x" with Some (VNum n) => n | _ => el_x base end)
       (match o !! "y" with Some (VNum n) => n | _ => el_y base end)
       (match o !! "width" with Some (VNum n) => n | _ => el_width base end)
       (match o !! "height" with Some (VNum n) => n | _ => el_height base end)
       (match o !! "rotation" with Some (VNum n) => n | _ => el_rotation base end)
       (match o !! "scaleX" with
        | Some (VNum n) => Some n | None => None | Some _ => el_scaleX base
        end)
       (match o !! "scaleY" with
        | Some (VNum n) => Some n | None => None | Some _ => el_scaleY base
        end)
       (match o !! "groupId" with
        | Some (VStr s) => Some s | None => None | Some _ => el_groupId base
        end)
       (match o !! "locked" with
        | Some (VBool b) => Some b | None => None | Some _ => el_locked base
        end)
       (match o !! "style" with Some (VObj s) => s | _ => el_style base end).

(** [{ ...el, ...updates }], read at the type [CanvasElement]. *)
Definition assignTop (updates : gmap string (option JsVal)) (el : CanvasElement)
    : CanvasElement :=
  asElement el (spread updates (toObj el)).

(** The callback of [elements.map] in [updateSelected]: the element the
    state holds afterwards. *)
Definition updateOne (sel : list string) (updates : gmap string (option JsVal))
    (el : CanvasElement) : CanvasElement :=
  asElement el (updateOneObj sel updates el).

Definition updateSelected (st : Editor) (updates : gmap string (option JsVal)) : Editor :=
  let updated := map (updateOne (selectedIds st) updates) (elements st) in
  saveToHistory (set_elements st updated) updated (bg st).

Definition deleteSelected (st : Editor) : Editor :=
  let updated := List.filter (fun el => negb (includes (selectedIds st) (el_id el))) (elements st) in
  saveToHistory (set_selectedIds (set_elements st updated) []) updated (bg st).

(** The environment of [duplicateSelected]: the [k]-th clone reads
    [Date.now()] and [Math.random()] once; [env k] is the pair of their
    decimal renderings. *)
Definition newId (env : nat -> string * string) (k : nat) (el : CanvasElement) : string :=
  (ElType_to_string (el_type el) ++ "-" ++ fst (env k) ++ "-" ++ snd (env k))%string.

(** The object literal [clone]: a copy of [el] with a new [id], [x] and [y]. *)
Definition cloneOf (env : nat -> string * string) (k : nat) (el : CanvasElement)
    : CanvasElement :=
  set_xy (set_id el (newId env k el)) (el_x el + 20)%Q (el_y el + 20)%Q.

(** The clones pushed by the [forEach] of [duplicateSelected], in order;
    [k] counts the clones made so far. *)
Fixpoint clones (env : nat -> string * string) (k : nat) (sel : list string)
    (els : list CanvasElement) : list CanvasElement :=
  match els with
  | [] => []
  | el :: rest =>
      if includes sel (el_id el) then cloneOf env k el :: clones env (S k) sel rest
      else clones env k sel rest
  end.

Definition duplicateSelected (env : nat -> string * string) (st : Editor) : Editor :=
  let cl := clones env 0 (selectedIds st) (elements st) in
  let newElements := elements st ++ cl in
  saveToHistory (set_selectedIds (set_elements st newElements) (map el_id cl))
                newElements (bg st).

Definition toggleLock (st : Editor) : Editor :=
  let updated :=
    map (fun el => if includes (selectedIds st) (el_id el)
                   then set_locked el (Some (negb (truthy (el_locked el))))
                   else el)
        (elements st) in
  saveToHistory (set_elements st updated) updated (bg st).

(** ** Layer management *)

(** [Array.prototype.sort] with a comparator: a stable sort.  [cmp a b]
    is the number the comparator returns. *)
Fixpoint sort_insert {A} (cmp : A -> A -> Q) (a : A) (l : list A) : list A :=
  match l with
  | [] => [a]
  | b :: l' => if Qle_bool (cmp a b) 0 then a :: b :: l' else b :: sort_insert cmp a l'
  end.

Definition sort {A} (cmp : A -> A -> Q) (l : list A) : list A :=
  fold_right (sort_insert cmp) [] l.

Inductive ZMove := Front | Back | Forward | Backward.

(** [(a.style.zIndex || 0) - (b.style.zIndex || 0)] *)
Definition zcmp (a b : CanvasElement) : Q :=
  (opt_num_or (zIndex a) 0 - opt_num_or (zIndex b) 0)%Q.

(** [(i + 1) * 10] *)
Definition slotZ (i : nat) : Q := ((inject_Z (Z.of_nat i) + 1) * 10)%Q.

(** [sorted.forEach((el, i) => { idToZ[el.id] = (i + 1) * 10 })], from index [i]. *)
Fixpoint normalize (i : nat) (sorted : list CanvasElement) (idToZ : gmap string Q)
    : gmap string Q :=
  match sorted with
  | [] => idToZ
  | el :: rest => normalize (S i) rest (<[el_id el := slotZ i]> idToZ)
  end.

(** [sorted.findIndex(e => e.id === id)], [-1] when absent. *)
Fixpoint findIndex (id : string) (l : list CanvasElement) : Z :=
  match l with
  | [] => -1
  | e :: l' =>
      if String.eqb (el_id e) id then 0
      else let r := findIndex id l' in if (r <? 0)%Z then -1 else (r + 1)%Z
  end.

(** [idToZ[k] = v] where [v] may be [undefined]. *)
Definition assign (k : string) (v : option Q) (m : gmap string Q) : gmap string Q :=
  match v with Some q => <[k := q]> m | None => delete k m end.

(** The table [idToZ] after the requested move. *)
Definition idToZ_after (type : ZMove) (id : string) (sorted : list CanvasElement)
    : gmap string Q :=
  let idToZ := normalize 0 sorted ∅ in
  let currentZ := idToZ !! id in
  let currentIndex := findIndex id sorted in
  let len := Z.of_nat (length sorted) in
  match type with
  | Front => <[id := slotZ (length sorted)]> idToZ
  | Back => <[id := 0%Q]> idToZ
  | Forward =>
      if (currentIndex <? len - 1)%Z then
        match sorted !! Z.to_nat (currentIndex + 1) with
        | Some nextEl =>
            assign (el_id nextEl) currentZ (assign id (idToZ !! el_id nextEl) idToZ)
        | None => idToZ
        end
      else idToZ
  | Backward =>
      if (0 <? currentIndex)%Z then
        match sorted !! Z.to_nat (currentIndex - 1) with
        | Some prevEl =>
            assign (el_id prevEl) currentZ (assign id (idToZ !! el_id prevEl) idToZ)
        | None => idToZ
        end
      else idToZ
  end.

(** The callback of the final [elements.map] of [changeZIndex]. *)
Definition applyZ (idToZ : gmap string Q) (el : CanvasElement) : CanvasElement :=
  match idToZ !! el_id el with
  | Some z => set_style el (<["zIndex" := VNum z]> (el_style el))
  | None => el
  end.

Definition changeZIndex (st : Editor) (type : ZMove) : Editor :=
  match selectedIds st with
  | [] => st
  | id :: _ =>
      let sorted := sort zcmp (elements st) in
      let idToZ := idToZ_after type id sorted in
      let updated := map (applyZ idToZ) (elements st) in
      saveToHistory (set_elements st updated) updated (bg st)
  end.

(** ** Paint order *)

(** [a.style.zIndex - b.style.zIndex]; a missing operand gives [NaN], which
    [sort] takes as [+0]. *)
Definition paint_cmp (a b : CanvasElement) : Q :=
  match zIndex a, zIndex b with
  | Some za, Some zb => (za - zb)%Q
  | _, _ => 0%Q
  end.

(** [sortedElements] of [generateCanvasData]: the order in which the
    elements are drawn on the export canvas, every element once. *)
Definition sortedElements (els : list CanvasElement) : list CanvasElement :=
  sort paint_cmp els.

(** ** Pointer gestures *)

Local Open Scope Q_scope.

Definition SNAP_THRESHOLD : Q := 10.

Definition getCanvasDimensions (ar : AspectRatio) : Q * Q :=
  let baseHeight : Q := 800 in
  match ar with
  | R16_9 => (baseHeight * (16 / 9), baseHeight)
  | R9_16 => (baseHeight * (9 / 16), baseHeight)
  | R3_4 => (baseHeight * (3 / 4), baseHeight)
  | R4_5 => (baseHeight * (4 / 5), baseHeight)
  | R1_1 => (baseHeight, baseHeight)
  end%Q.

Record MouseEvent := mkMouse {
  clientX : Q;
  clientY : Q;
  shiftKey : bool
}.

Inductive Action := Drag | Resize | Rotate.

Definition is_drag (a : Action) : bool :=
  match a with Drag => true | _ => false end.

(** [Math.round]: the nearest integer, halves towards plus infinity. *)
Definition Math_round (q : Q) : Q := inject_Z (Qfloor (q + 1 / 2)).

(** The integer part of a number, towards zero. *)
Definition Qtrunc (q : Q) : Z := Z.quot (Qnum q) (Zpos (Qden q)).

(** JavaScript's [%] on numbers: the remainder has the sign of the dividend. *)
Definition js_rem (a m : Q) : Q := (a - m * inject_Z (Qtrunc (a / m)))%Q.

Definition Qltb (a b : Q) : bool := negb (Qle_bool b a).

Definition Qmax (a b : Q) : Q := if Qle_bool a b then b else a.
Definition Qmin (a b : Q) : Q := if Qle_bool a b then a else b.

(** The two lines of [handleMouseMove] that snap the rotation: [angle] is
    [Math.atan2(dy, dx) * (180 / Math.PI)]. *)
Definition snapRotation (angle : Q) : Q :=
  let snapAngle := (angle + 90)%Q in
  if Qltb (Qabs (js_rem snapAngle 45)) 5
  then (Math_round (snapAngle / 45) * 45)%Q
  else snapAngle.

Definition findEl (id : string) (els : list CanvasElement) : option CanvasElement :=
  List.find (fun item => String.eqb (el_id item) id) els.

Definition set_flags (g : Gesture) (dragging resizing rotating editing potential : bool)
    : Gesture :=
  mkGesture dragging resizing rotating editing potential
            (isDraggingBg g) (isResizingBg g) (dragStart g) (elementsStart g)
            (bgDragStart_xy g) (bgDragStart_initialXY g) (bgDragStart_initialScale g).

Definition set_starts (g : Gesture) (p : Q * Q) (starts : gmap string CanvasElement)
    : Gesture :=
  mkGesture (isDragging g) (isResizing g) (isRotating g) (isEditingText g)
            (potentialDrag g) (isDraggingBg g) (isResizingBg g) p starts
            (bgDragStart_xy g) (bgDragStart_initialXY g) (bgDragStart_initialScale g).

(** [handleMouseDown(e, id, action)] *)
Definition handleMouseDown (st : Editor) (e : MouseEvent) (id : string)
    (action : Action) : Editor :=
  let g := gesture st in
  let sel := selectedIds st in
  if match findEl id (elements st) with
     | Some el => truthy (el_locked el)
     | None => false
     end
  then st
  else if isEditingText g && includes sel id && is_drag action then st
  else
    let newSelectedIds :=
      if shiftKey e then
        if includes sel id
        then List.filter (fun sid => negb (String.eqb sid id)) sel
        else sel ++ [id]
      else if negb (includes sel id) then [id] else sel in
    let startStates :=
      fold_left (fun m sid => match findEl sid (elements st) with
                              | Some item => <[sid := item]> m
                              | None => m
                              end)
                newSelectedIds (∅ : gmap string CanvasElement) in
    let g1 :=
      set_flags g (isDragging g)
                (match action with Resize => true | _ => isResizing g end)
                (match action with Rotate => true | _ => isRotating g end)
                (isEditingText g)
                (match action with Drag => true | _ => potentialDrag g end) in
    set_gesture (set_selectedIds st newSelectedIds)
                (set_starts g1 (clientX e, clientY e) startStates).

(** The callback of [elements.map] in the dragging branch. *)
Definition dragOne (st : Editor) (deltaX deltaY : Q) (el : CanvasElement) : CanvasElement :=
  if negb (includes (selectedIds st) (el_id el)) then el
  else match elementsStart (gesture st) !! el_id el with
  | None => el
  | Some start =>
      let newX := (num_or (el_x start) 0 + deltaX)%Q in
      let newY := (num_or (el_y start) 0 + deltaY)%Q in
      let centerX := (fst (getCanvasDimensions (aspectRatio st)) / 2)%Q in
      let centerY := (snd (getCanvasDimensions (aspectRatio st)) / 2)%Q in
      let single := (length (selectedIds st) =? 1)%nat in
      let newX :=
        if single && Qltb (Qabs ((newX + el_width el / 2) - centerX)) SNAP_THRESHOLD
        then (centerX - el_width el / 2)%Q else newX in
      let newY :=
        if single && Qltb (Qabs ((newY + el_height el / 2) - centerY)) SNAP_THRESHOLD
        then (centerY - el_height el / 2)%Q else newY in
      set_xy el newX newY
  end.

Definition is_text (t : ElType) : bool :=
  match t with TText | TCta => true | _ => false end.

(** [{ ...item.style, fontSize: v }] where [v] may be [undefined]. *)
Definition with_fontSize (v : option Q) (s : gmap string JsVal) : gmap string JsVal :=
  match v with
  | Some n => <["fontSize" := VNum n]> s
  | None => delete "fontSize" s
  end.

(** The resizing branch, as a function of the elements set so far. *)
Definition resizeStep (st : Editor) (deltaX deltaY : Q) (prev : list CanvasElement)
    : list CanvasElement :=
  match selectedIds st with
  | [id] =>
      match findEl id (elements st), elementsStart (gesture st) !! id with
      | Some el, Some start =>
          let newW := Qmax 20 (num_or (el_width start) 0 + deltaX) in
          let newH := Qmax 20 (num_or (el_height start) 0 + deltaY) in
          let newFontSize :=
            if is_text (el_type el) then
              let scaleRatio := (newW / num_or (el_width start) 1)%Q in
              Some (Math_round (opt_num_or (fontSize start) 16 * scaleRatio))
            else fontSize start in
          map (fun item =>
                 if String.eqb (el_id item) id
                 then set_style (set_size item newW newH)
                                (with_fontSize newFontSize (el_style item))
                 else item)
              prev
      | _, _ => prev
      end
  | _ => prev
  end.

(** The rotating branch.  [rect] is the bounding rectangle of the canvas
    (left, top) when the ref is attached; [atan2deg dy dx] stands for
    [Math.atan2(dy, dx) * (180 / Math.PI)]. *)
Definition rotateStep (atan2deg : Q -> Q -> Q) (st : Editor) (e : MouseEvent)
    (rect : option (Q * Q)) (prev : list CanvasElement) : list CanvasElement :=
  match selectedIds st with
  | [id] =>
      match findEl id (elements st), rect with
      | Some el, Some (rleft, rtop) =>
          let z := zoomLevel st in
          let centerX := (rleft + el_x el * z + (el_width el * z) / 2)%Q in
          let centerY := (rtop + el_y el * z + (el_height el * z) / 2)%Q in
          let angle := atan2deg (clientY e - centerY)%Q (clientX e - centerX)%Q in
          let snapAngle := snapRotation angle in
          map (fun item =>
                 if String.eqb (el_id item) id then set_rotation item snapAngle else item)
              prev
      | _, _ => prev
      end
  | _ => prev
  end.

Definition set_bg_pan (b : Background) (nx ny : Q) : Background :=
  mkBg (bgType b) (bgValue b) (bgOpacity b) (bgScale b) nx ny.

Definition set_bg_scale (b : Background) (s : Q) : Background :=
  mkBg (bgType b) (bgValue b) (bgOpacity b) s (bgX b) (bgY b).

(** [handleMouseMove(e)] *)
Definition handleMouseMove (atan2deg : Q -> Q -> Q) (st : Editor) (e : MouseEvent)
    (rect : option (Q * Q)) : Editor :=
  let g := gesture st in
  if isDraggingBg g then
    let deltaX := ((clientX e - fst (bgDragStart_xy g)) / zoomLevel st)%Q in
    let deltaY := ((clientY e - snd (bgDragStart_xy g)) / zoomLevel st)%Q in
    set_bg st (set_bg_pan (bg st) (fst (bgDragStart_initialXY g) + deltaX)%Q
                                  (snd (bgDragStart_initialXY g) + deltaY)%Q)
  else if isResizingBg g then
    let deltaY := ((snd (bgDragStart_xy g) - clientY e) * (1 / 100))%Q in
    set_bg st (set_bg_scale (bg st)
                 (Qmax (1 / 2) (Qmin 5 (bgDragStart_initialScale g + deltaY))))
  else match selectedIds st with
  | [] => st
  | _ :: _ =>
      let deltaX := ((clientX e - fst (dragStart g)) / zoomLevel st)%Q in
      let deltaY := ((clientY e - snd (dragStart g)) / zoomLevel st)%Q in
      let started :=
        potentialDrag g && (Qltb 2 (Qabs deltaX) || Qltb 2 (Qabs deltaY)) in
      let g1 :=
        if started
        then set_flags g true (isResizing g) (isRotating g) (isEditingText g) false
        else g in
      let els1 :=
        if isDragging g then map (dragOne st deltaX deltaY) (elements st)
        else elements st in
      let els2 := if isResizing g then resizeStep st deltaX deltaY els1 else els1 in
      let els3 := if isRotating g then rotateStep atan2deg st e rect els2 else els2 in
      set_gesture (set_elements st els3) g1
  end.

(** [handleMouseUp()] *)
Definition handleMouseUp (st : Editor) : Editor :=
  let g := gesture st in
  let single := match selectedIds st with [_] => true | _ => false end in
  let editable :=
    match selectedIds st with
    | id :: _ =>
        match findEl id (elements st) with
        | Some el => is_text (el_type el) && negb (truthy (el_locked el))
        | None => false
        end
    | [] => false
    end in
  let editing :=
    if potentialDrag g && single then (if editable then true else isEditingText g)
    else isEditingText g in
  let saved :=
    (negb (potentialDrag g && single) && (isDragging g || isResizing g || isRotating g))
    || (isDraggingBg g || isResizingBg g) in
  let st1 := if saved then saveToHistory st (elements st) (bg st) else st in
  set_gesture st1
    (mkGesture false false false editing false false false
               (dragStart g) (elementsStart g)
               (bgDragStart_xy g) (bgDragStart_initialXY g) (bgDragStart_initialScale g)).

Local Close Scope Q_scope.

(** ** Predicates used in the statements *)

(** Every targeted element is locked. *)
Definition all_targets_locked (st : Editor) : Prop :=
  forall el, In el (elements st) ->
    includes (selectedIds st) (el_id el) = true -> truthy (el_locked el) = true.


(** The elements an action on the selection applies to, in scene order. *)
Definition targets (st : Editor) : list CanvasElement :=
  List.filter (fun el => includes (selectedIds st) (el_id el)) (elements st).

(** The identifiers composed from the clock and the random generator for
    the clones of the current selection. *)
Definition drawnIds (env : nat -> string * string) (st : Editor) : list string :=
  imap (fun k src => newId env k src) (targets st).

(** No ["-"] occurs in the string. *)
Fixpoint dashfree (s : string) : bool :=
  match s with
  | EmptyString => true
  | String c r => negb (Ascii.eqb c "-") && dashfree r
  end.

(** The pairs (clock, random number) read for the clones of the current
    selection, in order. *)
Definition draws (env : nat -> string * string) (st : Editor) : list (string * string) :=
  map env (seq 0 (length (targets st))).

(** The paint order of a scene, as the identifiers of its elements from the
    first painted (bottom) to the last painted (top). *)
Definition paintOrder (els : list CanvasElement) : list string :=
  map el_id (sortedElements els).

(** The z-index an element is painted by. *)
Definition paintKey (el : CanvasElement) : Q :=
  match zIndex el with Some z => z | None => 0%Q end.

(** Every element carries a numeric [zIndex], as the type requires. *)
Definition all_zIndexed (els : list CanvasElement) : Prop :=
  forall el, In el els -> is_Some (zIndex el).

(** The z-index [changeZIndex] sorts by: [el.style.zIndex || 0]. *)
Definition zKey (el : CanvasElement) : Q := opt_num_or (zIndex el) 0.

(** The elements whose z-index equals [k], in list order. *)
Definition tied (k : Q) (els : list CanvasElement) : list CanvasElement :=
  List.filter (fun el => Qeq_bool (zKey el) k) els.

(** ** Sample scenes *)

Definition sampleStyle (z : Q) : gmap string JsVal :=
  <["zIndex" := VNum z]> (<["color" := VStr "#ffffff"]> ∅).

(** A text element at the given position. *)
Definition sampleText (id : string) (px py : Q) (z : Q) (lock : option bool)
    : CanvasElement :=
  mkEl id TText "Add a heading" px py 400 80 0 (Some 1%Q) (Some 1%Q) None lock
       (sampleStyle z).

Definition whiteBg : Background := mkBg BgColor "#ffffff" 1 1 0 0.

(** One locked element, selected. *)
Definition lockedSelected : Editor :=
  set_selectedIds (initEditor R1_1 [sampleText "a" 10 10 10 (Some true)] whiteBg) ["a"].

(** One unlocked element, selected. *)
Definition unlockedSelected : Editor :=
  set_selectedIds (initEditor R1_1 [sampleText "a" 10 10 10 None] whiteBg) ["a"].

(** A patch that mixes a geometry key and a style key:
    [{ x: 5, color: '#000000' }]. *)
Definition mixedPatch : gmap string (option JsVal) :=
  <["x" := Some (VNum 5)]> (<["color" := Some (VStr "#000000")]> ∅).

(** [{ x: 5 }] *)
Definition movePatch : gmap string (option JsVal) :=
  <["x" := Some (VNum 5)]> ∅.

(** A locked element [a] and an unlocked element [b]; [a] is the current
    selection (a click on its row of the layers list selects it). *)
Definition lockedAndFree : Editor :=
  set_selectedIds
    (initEditor R1_1 [sampleText "a" 10 10 10 (Some true);
                      sampleText "b" 10 300 20 None] whiteBg)
    ["a"].

(** Shift-press on [b], then two pointer moves to the right, then release.
    No rotation is involved, so the arctangent is never consulted. *)
Definition dragBoth : Editor :=
  let noAtan : Q -> Q -> Q := fun _ _ => 0%Q in
  let st1 := handleMouseDown lockedAndFree (mkMouse 100 400 true) "b" Drag in
  let st2 := handleMouseMove noAtan st1 (mkMouse 160 400 true) (Some (0, 0)%Q) in
  let st3 := handleMouseMove noAtan st2 (mkMouse 220 400 true) (Some (0, 0)%Q) in
  handleMouseUp st3.

(** Two unlocked elements, both selected. *)
Definition twoSelected : Editor :=
  set_selectedIds
    (initEditor R1_1 [sampleText "a" 10 10 10 None;
                      sampleText "b" 10 300 20 None] whiteBg)
    ["a"; "b"].

(** A clock that stands still and a random generator that gives a new
    number at each call. *)
Definition sampleEnv (k : nat) : string * string :=
  ("1700000000000", match k with 0%nat => "0.25" | _ => "0.75" end).

(** Three layers: [a] on top, [b] and [c] tied below it. *)
Definition threeLayers (sel : list string) : Editor :=
  set_selectedIds
    (initEditor R1_1 [sampleText "a" 10 10 30 None;
                      sampleText "b" 10 100 10 None;
                      sampleText "c" 10 200 10 None] whiteBg)
    sel.

(** The element [a] of [unlockedSelected] is being resized from the corner
    pressed at (400, 400). *)
Definition resizing : Editor :=
  handleMouseDown unlockedSelected (mkMouse 400 400 false) "a" Resize.

(** The element [a] of [unlockedSelected] is being dragged from the point
    pressed at (100, 100). *)
Definition draggingA : Editor :=
  handleMouseMove (fun _ _ => 0%Q)
    (handleMouseDown unlockedSelected (mkMouse 100 100 false) "a" Drag)
    (mkMouse 130 100 false) None.

(** [unlockedSelected] after one duplication: the clone is the selection. *)
Definition duplicatedOnce : Editor := duplicateSelected sampleEnv unlockedSelected.

(** * The generative-service adapter ([services/geminiService.ts]) *)

(** ** Strings *)

Definition nl : ascii := "010"%char.
Definition dquote : ascii := "034"%char.
Definition backslash : ascii := "092"%char.

(** [s ? ... : ...] on a string: the empty string is falsy. *)
Definition nonempty (s : string) : bool :=
  match s with EmptyString => false | String _ _ => true end.

Definition is_upper (c : ascii) : bool :=
  ((65 <=? nat_of_ascii c) && (nat_of_ascii c <=? 90))%nat.

(** [toLowerCase] on the ASCII range. *)
Fixpoint toLowerCase (s : string) : string :=
  match s with
  | EmptyString => EmptyString
  | String c r =>
      String (if is_upper c then ascii_of_nat (nat_of_ascii c + 32) else c)
             (toLowerCase r)
  end.

(** [s.includes(needle)] *)
Fixpoint str_includes (needle s : string) : bool :=
  String.prefix needle s
  || match s with
     | EmptyString => false
     | String _ r => str_includes needle r
     end.

Definition is_space (c : ascii) : bool :=
  let n := nat_of_ascii c in
  ((n =? 32) || ((9 <=? n) && (n <=? 13)))%nat.

Fixpoint trimStart (s : string) : string :=
  match s with
  | String c r => if is_space c then trimStart r else s
  | EmptyString => EmptyString
  end.

Fixpoint trimEnd (s : string) : string :=
  match s with
  | EmptyString => EmptyString
  | String c r =>
      match trimEnd r with
      | EmptyString => if is_space c then EmptyString else String c EmptyString
      | r' => String c r'
      end
  end.

(** [s.slice(n)] *)
Fixpoint str_drop (n : nat) (s : string) : string :=
  match n, s with
  | O, _ => s
  | S k, String _ r => str_drop k r
  | S _, EmptyString => EmptyString
  end.

(** [s.trim()] *)
Definition trim (s : string) : string := trimEnd (trimStart s).

(** The length of the match of [/```json\n?|\n?```/] at the start of [s],
    when there is one: the alternatives are tried in order and each [\n?]
    is greedy. *)
Definition fenceMatch (s : string) : option nat :=
  if String.prefix "```json" s then
    match String.get 7 s with
    | Some c => if Ascii.eqb c nl then Some 8%nat else Some 7%nat
    | None => Some 7%nat
    end
  else if String.prefix (String nl "```") s then Some 4%nat
  else if String.prefix "```" s then Some 3%nat
  else None.

(** [s.replace(/```json\n?|\n?```/g, "")]: [skip] characters of the current
    match remain to be dropped. *)
Fixpoint stripFences (skip : nat) (s : string) : string :=
  match s with
  | EmptyString => EmptyString
  | String c r =>
      match skip with
      | S k => stripFences k r
      | O =>
          match fenceMatch s with
          | Some len => stripFences (len - 1) r
          | None => String c (stripFences 0 r)
          end
      end
  end.

(** ** JSON values *)

Local Unset Elimination Schemes.

Inductive Json :=
  | JNull
  | JBool (b : bool)
  | JNum (n : Q)
  | JStr (s : string)
  | JArr (l : list Json)
  | JObj (members : list (string * Json)).

Local Set Elimination Schemes.

Definition is_json_ws (c : ascii) : bool :=
  let n := nat_of_ascii c in
  ((n =? 32) || (n =? 9) || (n =? 10) || (n =? 13))%nat.

Fixpoint skip_ws (s : string) : string :=
  match s with
  | String c r => if is_json_ws c then skip_ws r else s
  | EmptyString => EmptyString
  end.

Definition is_digit (c : ascii) : bool :=
  ((48 <=? nat_of_ascii c) && (nat_of_ascii c <=? 57))%nat.

(** The characters of a string literal after its opening quote, up to the
    closing quote; the simple escapes are decoded. *)
Fixpoint parse_chars (s : string) : option (string * string) :=
  match s with
  | EmptyString => None
  | String c r =>
      if Ascii.eqb c dquote then Some (EmptyString, r)
      else if Ascii.eqb c backslash then
        match r with
        | String e r' =>
            let decoded :=
              if Ascii.eqb e dquote then Some dquote
              else if Ascii.eqb e backslash then Some backslash
              else if Ascii.eqb e "/" then Some "/"%char
              else if Ascii.eqb e "n" then Some nl
              else if Ascii.eqb e "t" then Some "009"%char
              else if Ascii.eqb e "r" then Some "013"%char
              else if Ascii.eqb e "b" then Some "008"%char
              else if Ascii.eqb e "f" then Some "012"%char
              else None in
            match decoded, parse_chars r' with
            | Some d, Some (str, rest) => Some (String d str, rest)
            | _, _ => None
            end
        | EmptyString => None
        end
      else if (nat_of_ascii c <? 32)%nat then None
      else match parse_chars r with
           | Some (str, rest) => Some (String c str, rest)
           | None => None
           end
  end.

(** The digits at the start of [s], as a number, and what follows them. *)
Fixpoint parse_digits (acc : Z) (s : string) : Z * string :=
  match s with
  | String c r =>
      if is_digit c
      then parse_digits (acc * 10 + Z.of_nat (nat_of_ascii c - 48)) r
      else (acc, s)
  | EmptyString => (acc, s)
  end.

(** An integer literal: no leading zero, no fraction, no exponent. *)
Definition parse_int (s : string) : option (Z * string) :=
  match s with
  | String c r =>
      if Ascii.eqb c "0" then Some (0%Z, r)
      else if is_digit c then Some (parse_digits 0 s)
      else None
  | EmptyString => None
  end.

Definition ends_number (s : string) : bool :=
  match s with
  | String c _ =>
      negb (is_digit c || Ascii.eqb c "." || Ascii.eqb c "e" || Ascii.eqb c "E")
  | EmptyString => true
  end.

(** The name of a member that [Object.keys] lists before the others: a
    run of digits. *)
Fixpoint all_digits (s : string) : bool :=
  match s with
  | EmptyString => true
  | String c r => is_digit c && all_digits r
  end.

(** A recursive-descent reader for a fragment of JSON, used for the sample
    replies; [n] bounds the nesting of calls.  It reads objects, arrays,
    strings with the two-character escapes, the three literals and integers
    up to 2^53 in size, and gives up ([None]) on everything else, also on
    what [JSON.parse] would read as another value than the text shows: a
    repeated member name, a member name made of digits, [-0]. *)
Fixpoint parse_value (n : nat) (s : string) {struct n} : option (Json * string) :=
  match n with
  | O => None
  | S n' =>
      match skip_ws s with
      | EmptyString => None
      | String c r =>
          if Ascii.eqb c "{" then
            match skip_ws r with
            | String "}" r' => Some (JObj [], r')
            | _ => parse_members n' r []
            end
          else if Ascii.eqb c "[" then
            match skip_ws r with
            | String "]" r' => Some (JArr [], r')
            | _ => parse_elements n' r []
            end
          else if Ascii.eqb c dquote then
            match parse_chars r with
            | Some (str, rest) => Some (JStr str, rest)
            | None => None
            end
          else if String.prefix "true" (String c r) then
            Some (JBool true, str_drop 4 (String c r))
          else if String.prefix "false" (String c r) then
            Some (JBool false, str_drop 5 (String c r))
          else if String.prefix "null" (String c r) then
            Some (JNull, str_drop 4 (String c r))
          else
            let signed :=
              if Ascii.eqb c "-"
              then match parse_int r with
                   | Some (z, rest) => Some ((- z)%Z, rest)
                   | None => None
                   end
              else parse_int (String c r) in
            match signed with
            | Some (z, rest) =>
                if ends_number rest && (Z.abs z <=? 9007199254740992)%Z
                   && negb (Ascii.eqb c "-" && (z =? 0)%Z)
                then Some (JNum (inject_Z z), rest) else None
            | None => None
            end
      end
  end
with parse_elements (n : nat) (s : string) (acc : list Json) {struct n}
    : option (Json * string) :=
  match n with
  | O => None
  | S n' =>
      match parse_value n' s with
      | Some (v, r) =>
          match skip_ws r with
          | String "," r' => parse_elements n' r' (v :: acc)
          | String "]" r' => Some (JArr (rev (v :: acc)), r')
          | _ => None
          end
      | None => None
      end
  end
with parse_members (n : nat) (s : string) (acc : list (string * Json)) {struct n}
    : option (Json * string) :=
  match n with
  | O => None
  | S n' =>
      match skip_ws s with
      | String c r =>
          if Ascii.eqb c dquote then
            match parse_chars r with
            | Some (k, r1) =>
                if existsb (fun kv => String.eqb (fst kv) k) acc
                   || (nonempty k && all_digits k) then None else
                match skip_ws r1 with
                | String ":" r2 =>
                    match parse_value n' r2 with
                    | Some (v, r3) =>
                        match skip_ws r3 with
                        | String "," r4 => parse_members n' r4 ((k, v) :: acc)
                        | String "}" r4 => Some (JObj (rev ((k, v) :: acc)), r4)
                        | _ => None
                        end
                    | None => None
                    end
                | _ => None
                end
            | None => None
            end
          else None
      | EmptyString => None
      end
  end.

(** One value, then only white space. *)
Definition readJson (text : string) : option Json :=
  match parse_value (2 * String.length text + 2) text with
  | Some (v, rest) =>
      match skip_ws rest with
      | EmptyString => Some v
      | _ => None
      end
  | None => None
  end.

(** [j[k]] on an object: the last member with that name. *)
Definition member (k : string) (j : Json) : option Json :=
  match j with
  | JObj ms =>
      match List.find (fun kv => String.eqb (fst kv) k) (rev ms) with
      | Some kv => Some (snd kv)
      | None => None
      end
  | _ => None
  end.

Definition has_string (k : string) (j : Json) : bool :=
  match member k j with Some (JStr _) => true | _ => false end.

Definition has_strings (k : string) (j : Json) : bool :=
  match member k j with
  | Some (JArr l) => forallb (fun v => match v with JStr _ => true | _ => false end) l
  | _ => false
  end.

(** The shape declared by the interface [BannerPlan]. *)
Definition isBannerPlan (j : Json) : bool :=
  match member "main_banner" j, member "additional_banners" j, member "seo" j with
  | Some mb, Some (JArr slides), Some seo =>
      forallb (fun k => has_string k mb)
              ["headline"; "subheadline"; "image_prompt"; "description"; "cta"]
      && forallb (fun slide =>
                    forallb (fun k => has_string k slide)
                            ["title"; "subtitle"; "image_prompt"; "description"; "cta"])
                 slides
      && has_string "caption" seo && has_strings "hashtags" seo
      && has_strings "keywords" seo
  | _, _, _ => false
  end.

(** ** Requests, replies and the service monad *)

Inductive Outcome (A : Type) :=
  | Returned (a : A)
  | Thrown (message : string).

Arguments Returned {A} a.
Arguments Thrown {A} message.

Record InlineData := mkInline {
  mimeType : option string;
  data : option string
}.

Record Part := mkPart {
  inlineData : option InlineData;
  part_text : option string
}.

(** What the adapter reads from a response: [response.text] and
    [response.candidates?.[0]?.content?.parts]. *)
Record Response := mkResponse {
  response_text : option string;
  response_parts : option (list Part)
}.

(** The promise returned by [generateContent] rejects or resolves. *)
Inductive Reply :=
  | Rejected (message : string)
  | Replied (r : Response).

(** An outbound [generateContent] call. *)
Record Request := mkRequest {
  req_model : string;
  req_prompt : string;
  req_aspectRatio : option string
}.

(** The surroundings of the adapter: the key found by [resolveApiKey], the
    service, which answers the [n]-th request issued with [net n], and the
    [JSON.parse] of the platform, [Some v] when it returns the value [v]
    and [None] when it throws. *)
Record Env := mkEnv {
  apiKey : option string;
  net : nat -> Reply;
  JSON_parse : string -> option Json
}.

(** The module state ([ai], the cached client) and the requests issued so
    far. *)
Record World := mkWorld {
  ai : bool;
  sent : list Request
}.

Definition Service (A : Type) : Type := World -> Outcome A * World.

Definition ret {A} (a : A) : Service A := fun w => (Returned a, w).

Definition throw {A} (message : string) : Service A := fun w => (Thrown message, w).

Definition bind {A B} (c : Service A) (k : A -> Service B) : Service B :=
  fun w =>
    match c w with
    | (Returned a, w') => k a w'
    | (Thrown message, w') => (Thrown message, w')
    end.

(** [try { return await c } catch (e) { handler }] *)
Definition try_catch {A} (c : Service A) (handler : string -> Service A) : Service A :=
  fun w =>
    match c w with
    | (Returned a, w') => (Returned a, w')
    | (Thrown message, w') => handler message w'
    end.

Notation "x <- c ;; k" := (bind c (fun x => k))
  (at level 100, c at next level, right associativity).

Definition getClient (env : Env) : Service unit :=
  fun w =>
    if ai w then (Returned tt, w)
    else match apiKey env with
         | Some key =>
             if nonempty key then (Returned tt, mkWorld true (sent w))
             else (Thrown "Missing Gemini API key. Set VITE_GEMINI_API_KEY or GEMINI_API_KEY in your environment.", w)
         | None =>
             (Thrown "Missing Gemini API key. Set VITE_GEMINI_API_KEY or GEMINI_API_KEY in your environment.", w)
         end.

(** [await client.models.generateContent(request)] *)
Definition generateContent (env : Env) (request : Request) : Service Response :=
  fun w =>
    let w' := mkWorld (ai w) (sent w ++ [request]) in
    match net env (length (sent w)) with
    | Rejected message => (Thrown message, w')
    | Replied r => (Returned r, w')
    end.

Definition AspectRatio_to_string (ar : AspectRatio) : string :=
  match ar with
  | R1_1 => "1:1" | R16_9 => "16:9" | R9_16 => "9:16"
  | R3_4 => "3:4" | R4_5 => "4:5"
  end.

(** ** [generateImage] *)

(** [part.inlineData && part.inlineData.data], and the data URL built from it. *)
Definition imageOf (p : Part) : option string :=
  match inlineData p with
  | Some i =>
      match data i with
      | Some d =>
          if nonempty d then
            Some ("data:"
                  ++ match mimeType i with
                     | Some m => if nonempty m then m else "image/png"
                     | None => "image/png"
                     end
                  ++ ";base64," ++ d)%string
          else None
      | None => None
      end
  | None => None
  end.

(** The first truthy value of [f] along the parts. *)
Fixpoint firstOf {A} (f : Part -> option A) (parts : list Part) : option A :=
  match parts with
  | [] => None
  | p :: rest => match f p with Some a => Some a | None => firstOf f rest end
  end.

Definition truthyText (p : Part) : option string :=
  match part_text p with
  | Some t => if nonempty t then Some t else None
  | None => None
  end.

(** The internal helper [executeGen] of [generateImage]. *)
Definition executeGen (env : Env) (aspectRatio : AspectRatio) (promptText : string)
    : Service string :=
  _ <- getClient env ;;
  response <- generateContent env
    (mkRequest "gemini-2.5-flash-image" promptText
       (Some (AspectRatio_to_string
                (match aspectRatio with R4_5 => R3_4 | ar => ar end)))) ;;
  match response_parts response with
  | None => throw "No content generated"
  | Some outputParts =>
      match firstOf imageOf outputParts with
      | Some url => ret url
      | None =>
          match firstOf truthyText outputParts with
          | Some t => throw t
          | None => throw "No image data found"
          end
      end
  end.

Definition strictPrompt (prompt : string) : string :=
  ("Professional photography, " ++ prompt
   ++ ". Cinematic lighting, 8k resolution, high quality, highly detailed, text-free background.")%string.

Definition fallbackPrompt (prompt : string) : string :=
  ("Artistic illustration style, " ++ prompt
   ++ ". Soft colors, minimalist, abstract, high quality, no text.")%string.

Definition generateImage (env : Env) (prompt : string) (aspectRatio : AspectRatio)
    (referenceImages : list string) : Service string :=
  if negb (nonempty prompt) then ret ""
  else if str_includes "user provided background" (toLowerCase prompt) then
    ret (match referenceImages with
         | r :: _ => r
         | [] => ""
         end)
  else
    try_catch (executeGen env aspectRatio (strictPrompt prompt))
      (fun _ =>
         try_catch (executeGen env aspectRatio (fallbackPrompt prompt))
           (fun _ => throw "Model refused to generate image. Try a simpler prompt.")).

(** ** [generateBannerPlan] *)

Record BannerRequest := mkBannerRequest {
  userPrompt : string;
  request_aspectRatio : AspectRatio;
  hasBackgroundImage : option bool;
  hasAssetImage : option bool
}.

(** [`${b}`] for an optional boolean. *)
Definition show_flag (b : option bool) : string :=
  match b with
  | Some true => "true"
  | Some false => "false"
  | None => "undefined"
  end.

Definition planPrompt (request : BannerRequest) : string :=
  (String nl "    User Prompt: " ++ userPrompt request
   ++ String nl "    Aspect Ratio: " ++ AspectRatio_to_string (request_aspectRatio request)
   ++ String nl "    Has Background Upload: " ++ show_flag (hasBackgroundImage request)
   ++ String nl "    Has Asset Upload: " ++ show_flag (hasAssetImage request)
   ++ String nl "  ")%string.

(** The [try] block at the end of [generateBannerPlan]: the text is
    stripped of its fences, trimmed and parsed; the value is returned under
    the type assertion [as BannerPlan], unchecked. *)
Definition parsePlanText (env : Env) (text : string) : Outcome Json :=
  let jsonText := trim (stripFences 0 text) in
  match JSON_parse env jsonText with
  | Some plan => Returned plan
  | None => Thrown "Invalid JSON response from AI"
  end.

Definition generateBannerPlan (env : Env) (request : BannerRequest) : Service Json :=
  let prompt := planPrompt request in
  _ <- getClient env ;;
  response <- generateContent env (mkRequest "gemini-2.5-flash" prompt None) ;;
  match response_text response with
  | None => throw "No text returned from Gemini"
  | Some text =>
      if negb (nonempty text) then throw "No text returned from Gemini"
      else fun w => (parsePlanText env text, w)
  end.

(** ** Predicates on replies *)

(** A refusal: the reply carries parts, none with image data, one with text. *)
Definition text_only (r : Reply) : Prop :=
  exists resp parts,
    r = Replied resp /\ response_parts resp = Some parts /\
    firstOf imageOf parts = None /\ is_Some (firstOf truthyText parts).

(** The reply gives [executeGen] no image: the call is rejected, or the
    response has no parts, or no part carries image data. *)
Definition attempt_fails (r : Reply) : Prop :=
  match r with
  | Rejected _ => True
  | Replied resp =>
      match response_parts resp with
      | None => True
      | Some parts => firstOf imageOf parts = None
      end
  end.

(** [getClient] succeeds: the client is cached or a key can be resolved. *)
Definition client_available (env : Env) (w : World) : Prop :=
  ai w = true \/ exists key, apiKey env = Some key /\ nonempty key = true.

(** The request [executeGen] issues for a prompt text. *)
Definition imageRequest (aspectRatio : AspectRatio) (promptText : string) : Request :=
  mkRequest "gemini-2.5-flash-image" promptText
    (Some (AspectRatio_to_string (match aspectRatio with R4_5 => R3_4 | ar => ar end))).

(** ** Sample replies *)

(** A JSON string literal and a member [k: v]. *)
Definition js (s : string) : string := (String dquote s ++ String dquote "")%string.
Definition jm (k v : string) : string := (js k ++ ":" ++ v)%string.

(** A fenced response that is valid JSON, with [main_banner] and [seo] but
    without [additional_banners]. *)
Definition partialPlanText : string :=
  ("```json" ++ String nl
     ("{" ++ jm "main_banner"
               ("{" ++ jm "headline" (js "Summer Sale") ++ ","
                    ++ jm "subheadline" (js "Up to 50% off") ++ ","
                    ++ jm "image_prompt" (js "A beach at sunset") ++ ","
                    ++ jm "description" (js "Warm tones") ++ ","
                    ++ jm "cta" (js "Shop Now") ++ "}")
          ++ ","
          ++ jm "seo"
               ("{" ++ jm "caption" (js "Summer is here") ++ ","
                    ++ jm "hashtags" ("[" ++ js "sale" ++ "]") ++ ","
                    ++ jm "keywords" ("[" ++ js "summer" ++ "]") ++ "}")
          ++ "}")
     ++ String nl "```")%string.

Definition partialPlan : Json :=
  JObj [("main_banner",
         JObj [("headline", JStr "Summer Sale");
               ("subheadline", JStr "Up to 50% off");
               ("image_prompt", JStr "A beach at sunset");
               ("description", JStr "Warm tones");
               ("cta", JStr "Shop Now")]);
        ("seo",
         JObj [("caption", JStr "Summer is here");
               ("hashtags", JArr [JStr "sale"]);
               ("keywords", JArr [JStr "summer"])])].

(** A service that answers every plan request with [partialPlanText], on a
    platform whose [JSON.parse] reads it as [readJson] does. *)
Definition partialPlanEnv : Env :=
  mkEnv (Some "key") (fun _ => Replied (mkResponse (Some partialPlanText) None))
        readJson.

Definition freshWorld : World := mkWorld false [].

Definition sampleRequest : BannerRequest :=
  mkBannerRequest "Summer sale banner" R1_1 (Some false) (Some false).

(** A service that refuses every image request with a text-only reply. *)
Definition refusingEnv : Env :=
  mkEnv (Some "key")
        (fun _ => Replied (mkResponse None
                    (Some [mkPart None (Some "I cannot generate that image.")])))
        readJson.

(** Only spaces, tabs, line feeds and carriage returns. *)
Fixpoint blank (s : string) : bool :=
  match s with
  | EmptyString => true
  | String c r =>
      (Ascii.eqb c " " || Ascii.eqb c "009" || Ascii.eqb c "010" || Ascii.eqb c "013")
      && blank r
  end.

(** * The rest of the editor *)

(** ** More actions on the selection *)

Local Open Scope Q_scope.

Inductive FlipDir := FlipH | FlipV.

(** [flip(dir)] *)
Definition flipOne (sel : list string) (dir : FlipDir) (el : CanvasElement)
    : CanvasElement :=
  if negb (includes sel (el_id el)) then el
  else
    set_scale el
      (Some (match dir with
             | FlipH => opt_num_or (el_scaleX el) 1 * -1
             | FlipV => opt_num_or (el_scaleX el) 1
             end))
      (Some (match dir with
             | FlipV => opt_num_or (el_scaleY el) 1 * -1
             | FlipH => opt_num_or (el_scaleY el) 1
             end)).

Definition flip (st : Editor) (dir : FlipDir) : Editor :=
  let updated := map (flipOne (selectedIds st) dir) (elements st) in
  saveToHistory (set_elements st updated) updated (bg st).

Inductive AlignEdge :=
  | AlignTop | AlignMiddle | AlignBottom | AlignLeft | AlignCenter | AlignRight.

(** The callback of [elements.map] in [alignToPage]; [dims] is the page
    size. *)
Definition alignOne (sel : list string) (dims : Q * Q) (type : AlignEdge)
    (el : CanvasElement) : CanvasElement :=
  if negb (includes sel (el_id el)) then el
  else
    let newX :=
      match type with
      | AlignLeft => 0
      | AlignCenter => (fst dims - el_width el) / 2
      | AlignRight => fst dims - el_width el
      | _ => el_x el
      end in
    let newY :=
      match type with
      | AlignTop => 0
      | AlignMiddle => (snd dims - el_height el) / 2
      | AlignBottom => snd dims - el_height el
      | _ => el_y el
      end in
    set_xy el newX newY.

Definition alignToPage (st : Editor) (type : AlignEdge) : Editor :=
  let updated :=
    map (alignOne (selectedIds st) (getCanvasDimensions (aspectRatio st)) type)
        (elements st) in
  saveToHistory (set_elements st updated) updated (bg st).

(** ** Adding content *)

Inductive AddType := AddText | AddImage | AddCta | AddShape.

Definition AddType_to_string (t : AddType) : string :=
  match t with
  | AddText => "text" | AddImage => "image" | AddCta => "cta" | AddShape => "shape"
  end.

Definition AddType_to_ElType (t : AddType) : ElType :=
  match t with
  | AddText => TText | AddImage => TImage | AddCta => TCta | AddShape => TShape
  end.

(** [elements.reduce((max, el) => Math.max(max, el.style.zIndex || 0), 0)] *)
Definition maxZ (els : list CanvasElement) : Q :=
  fold_left (fun m el => Qmax m (opt_num_or (zIndex el) 0)) els 0.

Definition is_subType (subType : option string) (s : string) : bool :=
  match subType with Some t => String.eqb t s | None => false end.

(** The element built by [addElement(type, subType)]; [now] is the decimal
    rendering of [Date.now()]. *)
Definition newElement (now : string) (dims : Q * Q) (els : list CanvasElement)
    (type : AddType) (subType : option string) : CanvasElement :=
  let id := ("new-" ++ AddType_to_string type ++ "-" ++ now)%string in
  let centerX := fst dims / 2 in
  let centerY := snd dims / 2 in
  let base : gmap string JsVal :=
    <["opacity" := VNum 1]> (<["zIndex" := VNum (maxZ els + 10)]> ∅) in
  match type with
  | AddText =>
      mkEl id TText
           (if is_subType subType "heading" then "Add a heading"
            else if is_subType subType "subheading" then "Add a subheading"
            else "Add a little bit of body text")
           (centerX - 200) (centerY - 50) 400
           (if is_subType subType "heading" then 80 else 40)
           0 (Some 1) (Some 1) None None
           (<["textAlign" := VStr "center"]>
              (<["color" := VStr "#ffffff"]>
                 (<["fontFamily" := VStr "Inter"]>
                    (<["fontWeight" :=
                         VStr (if is_subType subType "heading" then "bold" else "normal")]>
                       (<["fontSize" :=
                            VNum (if is_subType subType "heading" then 64
                                  else if is_subType subType "subheading" then 42
                                  else 24)]>
                          base)))))
  | AddCta =>
      mkEl id TCta
           (match subType with
            | Some t => if nonempty t then t else "Learn More"
            | None => "Learn More"
            end)
           (centerX - 80) (centerY - 50) 160 50
           0 (Some 1) (Some 1) None None
           (<["padding" := VNum 12]>
              (<["borderRadius" := VNum 8]>
                 (<["textAlign" := VStr "center"]>
                    (<["backgroundColor" := VStr "#8b5cf6"]>
                       (<["color" := VStr "#ffffff"]>
                          (<["fontFamily" := VStr "Inter"]>
                             (<["fontWeight" := VStr "bold"]>
                                (<["fontSize" := VNum 18]> base))))))))
  | AddShape =>
      mkEl id TShape "#8b5cf6"
           (centerX - 100) (centerY - 100) 200 200
           0 (Some 1) (Some 1) None None
           (if is_subType subType "circle"
            then <["borderRadius" := VNum 9999]>
                   (<["backgroundColor" := VStr "#8b5cf6"]> base)
            else <["backgroundColor" := VStr "#8b5cf6"]> base)
  | AddImage =>
      mkEl id TImage "" (centerX - 100) (centerY - 50) 200 100
           0 (Some 1) (Some 1) None None base
  end.

Definition addElement (now : string) (st : Editor) (type : AddType)
    (subType : option string) : Editor :=
  let el := newElement now (getCanvasDimensions (aspectRatio st)) (elements st)
                       type subType in
  let newElements := elements st ++ [el] in
  saveToHistory (set_selectedIds (set_elements st newElements) [el_id el])
                newElements (bg st).

(** ** Background gestures *)

Inductive BgAction := BgDrag | BgResize.

Definition is_image (t : BgType) : bool :=
  match t with BgImage => true | _ => false end.

(** [handleBgMouseDown(e, type)] *)
Definition handleBgMouseDown (st : Editor) (e : MouseEvent) (type : BgAction) : Editor :=
  if negb (is_image (bgType (bg st))) then st
  else
    let g := gesture st in
    set_gesture st
      (mkGesture (isDragging g) (isResizing g) (isRotating g) (isEditingText g)
                 (potentialDrag g)
                 (match type with BgDrag => true | BgResize => isDraggingBg g end)
                 (match type with BgResize => true | BgDrag => isResizingBg g end)
                 (dragStart g) (elementsStart g)
                 (clientX e, clientY e) (bgX (bg st), bgY (bg st)) (bgScale (bg st))).

(** [handleCanvasWheel(e)], [deltaY] being [e.deltaY]. *)
Definition handleCanvasWheel (st : Editor) (deltaY : Q) : Editor :=
  match selectedIds st with
  | [] =>
      if is_image (bgType (bg st)) then
        let scaleDelta := - deltaY * (1 / 1000) in
        let newScale := Qmin (Qmax (1 / 2) (bgScale (bg st) + scaleDelta)) 5 in
        set_bg st (set_bg_scale (bg st) newScale)
      else st
  | _ :: _ => st
  end.

(** ** The background image on the export canvas *)

(** The rectangle [(x, y, width, height)] passed to [ctx.drawImage] for a
    background image of size [img] on a canvas of size [dims]. *)
Definition coverRect (dims img : Q * Q) : Q * Q * Q * Q :=
  let scale := Qmax (fst dims / fst img) (snd dims / snd img) in
  let x := fst dims / 2 - (fst img / 2) * scale in
  let y := snd dims / 2 - (snd img / 2) * scale in
  (x, y, fst img * scale, snd img * scale).

Local Close Scope Q_scope.

(** ** The actions that write history *)

(** The actions taken from the toolbar and the panels, and the release of
    the pointer, each run by the handler of the current render. *)
Inductive EditorAction :=
  | DoUpdateSelected (updates : gmap string (option JsVal))
  | DoDeleteSelected
  | DoDuplicateSelected (env : nat -> string * string)
  | DoToggleLock
  | DoChangeZIndex (type : ZMove)
  | DoAlignToPage (type : AlignEdge)
  | DoFlip (dir : FlipDir)
  | DoAddElement (now : string) (type : AddType) (subType : option string)
  | DoMouseUp
  | DoUndo
  | DoRedo.

Definition perform (st : Editor) (a : EditorAction) : Editor :=
  match a with
  | DoUpdateSelected updates => updateSelected st updates
  | DoDeleteSelected => deleteSelected st
  | DoDuplicateSelected env => duplicateSelected env st
  | DoToggleLock => toggleLock st
  | DoChangeZIndex type => changeZIndex st type
  | DoAlignToPage type => alignToPage st type
  | DoFlip dir => flip st dir
  | DoAddElement now type subType => addElement now st type subType
  | DoMouseUp => handleMouseUp st
  | DoUndo => undo st
  | DoRedo => redo st
  end.

(** The history holds between one and twenty entries and the cursor
    points at one of them. *)
Definition cursor_ok (st : Editor) : Prop :=
  (1 <= length (history st) <= 20)%nat /\
  (historyIndex st < length (history st))%nat.

(** The action pushes a history entry: every action but undo, redo and the
    release of the pointer, a layer move needing a selection. *)
Definition commits_entry (st : Editor) (a : EditorAction) : Prop :=
  match a with
  | DoUndo | DoRedo | DoMouseUp => False
  | DoChangeZIndex _ => selectedIds st <> []
  | _ => True
  end.

(** ** States of the pointer machine *)

(** No gesture is in progress. *)
Definition idle (g : Gesture) : Prop :=
  isDragging g = false /\ isResizing g = false /\ isRotating g = false /\
  isEditingText g = false /\ potentialDrag g = false /\
  isDraggingBg g = false /\ isResizingBg g = false.

(** An element drag is in progress, and nothing else. *)
Definition dragging (g : Gesture) : Prop :=
  isDragging g = true /\ isResizing g = false /\ isRotating g = false /\
  isDraggingBg g = false /\ isResizingBg g = false.

(** A sequence of pointer moves, each with the bounding rectangle of the
    canvas at that time. *)
Definition moves (atan2deg : Q -> Q -> Q) (st : Editor)
    (ms : list (MouseEvent * option (Q * Q))) : Editor :=
  fold_left (fun s m => handleMouseMove atan2deg s (fst m) (snd m)) ms st.

(** The background zoom is within its limits. *)
Definition bgScale_in_range (b : Background) : Prop :=
  (1 / 2 <= bgScale b)%Q /\ (bgScale b <= 5)%Q.

(** The pointer is within the click tolerance of the point [p], in page
    units at the zoom level [z]. *)
Definition within_click (z : Q) (p : Q * Q) (e : MouseEvent) : Prop :=
  (Qabs ((clientX e - fst p) / z) <= 2)%Q /\
  (Qabs ((clientY e - snd p) / z) <= 2)%Q.

(** * The rest of the adapter and its callers *)

(** ** [editImageWithGemini] *)

(** The alternatives of [/^data:image\/(png|jpeg|jpg|webp);base64,/], in
    the order the pattern tries them. *)
Definition imageKinds : list string := ["png"; "jpeg"; "jpg"; "webp"].

Definition dataUrlHead (kind : string) : string :=
  ("data:image/" ++ kind ++ ";base64,")%string.

(** The kind captured by the pattern at the start of [s], when it matches. *)
Definition matchDataUrl (s : string) : option string :=
  List.find (fun kind => String.prefix (dataUrlHead kind) s) imageKinds.

(** [base64Image.replace(pattern, '')] *)
Definition cleanBase64 (base64Image : string) : string :=
  match matchDataUrl base64Image with
  | Some kind => str_drop (String.length (dataUrlHead kind)) base64Image
  | None => base64Image
  end.

(** [base64Image.match(pattern)?.[1] || 'png'] *)
Definition mimeKind (base64Image : string) : string :=
  match matchDataUrl base64Image with
  | Some kind => kind
  | None => "png"
  end.

(** The image part sent along with the prompt. *)
Definition editInlineData (base64Image : string) : InlineData :=
  mkInline (Some ("image/" ++ mimeKind base64Image)%string)
           (Some (cleanBase64 base64Image)).

(** [editImageWithGemini(base64Image, prompt)].  The request is recorded
    with its model and its text part; its image part is
    [editInlineData base64Image]. *)
Definition editImageWithGemini (env : Env) (base64Image prompt : string)
    : Service string :=
  if negb (nonempty prompt) then throw "Prompt is required"
  else
    try_catch
      (_ <- getClient env ;;
       response <- generateContent env
                     (mkRequest "gemini-2.5-flash-image" prompt None) ;;
       match response_parts response with
       | None => throw "No content generated"
       | Some parts =>
           match firstOf imageOf parts with
           | Some url => ret url
           | None => throw "No image data found in response"
           end
       end)
      (fun error => throw error).

(** ** The image studio ([components/ImageStudio.tsx]) *)

Record Studio := mkStudio {
  currentImage : option string;
  studio_history : list string;
  studio_prompt : string;
  isProcessing : bool
}.

Definition initStudio : Studio := mkStudio None [] "" false.

(** The [onloadend] callback of [handleFileUpload]. *)
Definition studioUpload (st : Studio) (base64String : string) : Studio :=
  mkStudio (Some base64String) [base64String] (studio_prompt st) (isProcessing st).

(** [handleEdit], from the submit to the end of the [finally] block. *)
Definition handleEdit (env : Env) (st : Studio) (w : World) : Studio * World :=
  match currentImage st with
  | None => (st, w)
  | Some image =>
      if negb (nonempty image) || negb (nonempty (studio_prompt st)) then (st, w)
      else
        match editImageWithGemini env image (studio_prompt st) w with
        | (Returned editedImage, w') =>
            (mkStudio (Some editedImage) (studio_history st ++ [editedImage]) "" false,
             w')
        | (Thrown _, w') =>
            (mkStudio (currentImage st) (studio_history st) (studio_prompt st) false,
             w')
        end
  end.

(** [history.slice(0, -1)] *)
Definition dropLast {A} (l : list A) : list A := take (length l - 1) l.

(** [handleUndo] of the studio. *)
Definition studioUndo (st : Studio) : Studio :=
  if (1 <? length (studio_history st))%nat then
    let newHistory := dropLast (studio_history st) in
    mkStudio (newHistory !! (length newHistory - 1)%nat) newHistory
             (studio_prompt st) (isProcessing st)
  else st.

(** The handler of the "Clear All" button. *)
Definition studioClear (st : Studio) : Studio :=
  mkStudio None [] (studio_prompt st) (isProcessing st).

Inductive StudioAction :=
  | StudioUpload (base64String : string)
  | StudioPrompt (prompt : string)
  | StudioEdit
  | StudioUndo
  | StudioClear.

Definition studioStep (env : Env) (sw : Studio * World) (a : StudioAction)
    : Studio * World :=
  let (st, w) := sw in
  match a with
  | StudioUpload s => (studioUpload st s, w)
  | StudioPrompt p =>
      (mkStudio (currentImage st) (studio_history st) p (isProcessing st), w)
  | StudioEdit => handleEdit env st w
  | StudioUndo => (studioUndo st, w)
  | StudioClear => (studioClear st, w)
  end.

(** The image shown is the last one of the history, and no edit is pending. *)
Definition studio_ok (st : Studio) : Prop :=
  currentImage st = last (studio_history st) /\ isProcessing st = false.

(** ** The generation slots of [components/CopyGenerator.tsx] *)

Record Slots := mkSlots {
  generatedImages : gmap string string;
  rawBackgrounds : gmap string string;
  generatingStatus : gmap string bool;
  generationErrors : gmap string bool
}.

(** [triggerImageGeneration(id, prompt, ratio, refImages)], from the call
    to the end of the [finally] block. *)
Definition triggerImageGeneration (env : Env) (id prompt : string)
    (ratio : AspectRatio) (refImages : list string) (sl : Slots) (w : World)
    : Slots * World :=
  let status1 := <[id := true]> (generatingStatus sl) in
  let errors1 := <[id := false]> (generationErrors sl) in
  match generateImage env prompt ratio refImages w with
  | (Returned imageUrl, w') =>
      (mkSlots (<[id := imageUrl]> (generatedImages sl))
               (<[id := imageUrl]> (rawBackgrounds sl))
               (<[id := false]> status1) errors1,
       w')
  | (Thrown _, w') =>
      (mkSlots (generatedImages sl) (rawBackgrounds sl)
               (<[id := false]> status1) (<[id := true]> errors1),
       w')
  end.

(** ** Error messages *)

(** The message of the error thrown by [getClient]. *)
Definition missingKey : string :=
  "Missing Gemini API key. Set VITE_GEMINI_API_KEY or GEMINI_API_KEY in your environment.".

(** The message of the error thrown by [generateImage] after both attempts. *)
Definition refused : string :=
  "Model refused to generate image. Try a simpler prompt.".

(** The request [generateBannerPlan] issues. *)
Definition planRequest (request : BannerRequest) : Request :=
  mkRequest "gemini-2.5-flash" (planPrompt request) None.

(** The request [editImageWithGemini] issues (text part). *)
Definition editRequest (prompt : string) : Request :=
  mkRequest "gemini-2.5-flash-image" prompt None.

(** ** More sample replies *)

Definition pngPart : Part :=
  mkPart (Some (mkInline (Some "image/png") (Some "iVBORw0KGgo="))) None.

(** A service that answers every request with an image. *)
Definition imageEnv : Env :=
  mkEnv (Some "key") (fun _ => Replied (mkResponse None (Some [pngPart]))) readJson.

(** A service that refuses the first request and answers the later ones
    with an image. *)
Definition secondTryEnv : Env :=
  mkEnv (Some "key")
        (fun n => match n with
                  | O => Replied (mkResponse None
                           (Some [mkPart None (Some "I cannot generate that image.")]))
                  | S _ => Replied (mkResponse None (Some [pngPart]))
                  end)
        readJson.

(** No key can be resolved. *)
Definition noKeyEnv : Env :=
  mkEnv None (fun _ => Replied (mkResponse None (Some [pngPart]))) readJson.

(** No backtick occurs in the string. *)
Fixpoint backtickfree (s : string) : bool :=
  match s with
  | EmptyString => true
  | String c r => negb (Ascii.eqb c "`") && backtickfree r
  end.

(** A text wrapped in a [json] code fence. *)
Definition fenced (body : string) : string :=
  ("```json" ++ String nl (body ++ String nl "```"))%string.


(** The states the studio reaches from [st] by a sequence of actions. *)
Definition studioRun (env : Env) (sw : Studio * World) (acts : list StudioAction)
    : Studio * World :=
  fold_left (studioStep env) acts sw.

Definition emptySlots : Slots := mkSlots ∅ ∅ ∅ ∅.

(** ** The AI handlers of the editor ([components/CanvasEditor.tsx]) *)

Definition set_content (el : CanvasElement) (c : string) : CanvasElement :=
  mkEl (el_id el) (el_type el) c (el_x el) (el_y el)
       (el_width el) (el_height el) (el_rotation el) (el_scaleX el)
       (el_scaleY el) (el_groupId el) (el_locked el) (el_style el).

(** [handleGenerateBackground], from the call to the end of the [finally]
    block, on the editor state of the render it was called in.  The flags
    and fields of the dialog ([isGenerating], [genPrompt], ...) are not part
    of [Editor]. *)
Definition handleGenerateBackground (env : Env) (genPrompt : string)
    (st : Editor) (w : World) : Editor * World :=
  if negb (nonempty (trim genPrompt)) then (st, w)
  else
    match generateImage env genPrompt (aspectRatio st) [] w with
    | (Returned newBg, w') =>
        (saveToHistory
           (set_bg st (mkBg BgImage newBg (bgOpacity (bg st)) 1 0 0))
           (elements st) (mkBg BgImage newBg 1 1 0 0),
         w')
    | (Thrown _, w') => (st, w')
    end.

(** [isBg] of [handleMagicEdit]. *)
Definition magicIsBg (st : Editor) : bool :=
  match selectedIds st, bgType (bg st) with
  | [], BgImage => true
  | _, _ => false
  end.

(** [targetImage] of [handleMagicEdit]. *)
Definition magicTarget (st : Editor) : string :=
  if magicIsBg st then bgValue (bg st)
  else
    match selectedIds st with
    | [id] =>
        match findEl id (elements st) with
        | Some el =>
            match el_type el with
            | TImage | TLogo => el_content el
            | _ => EmptyString
            end
        | None => EmptyString
        end
    | _ => EmptyString
    end.

(** [handleMagicEdit], from the call to the end of the [finally] block. *)
Definition handleMagicEdit (env : Env) (editPrompt : string)
    (st : Editor) (w : World) : Editor * World :=
  if negb (nonempty (trim editPrompt)) then (st, w)
  else
    let targetImage := magicTarget st in
    if negb (nonempty targetImage) then (st, w)
    else
      match editImageWithGemini env targetImage editPrompt w with
      | (Returned newImage, w') =>
          if magicIsBg st then
            let b := mkBg BgImage newImage (bgOpacity (bg st)) (bgScale (bg st))
                          (bgX (bg st)) (bgY (bg st)) in
            (saveToHistory (set_bg st b) (elements st) b, w')
          else
            match selectedIds st with
            | [id] =>
                let updated :=
                  map (fun e => if String.eqb (el_id e) id
                                then set_content e newImage else e)
                      (elements st) in
                (saveToHistory (set_elements st updated) updated (bg st), w')
            | _ => (st, w')
            end
      | (Thrown _, w') => (st, w')
      end.

(** ** What happens to the editor *)

(** The actions, the pointer and wheel events and the two AI handlers. *)
Inductive EditorEvent :=
  | Act (a : EditorAction)
  | Press (e : MouseEvent) (id : string) (action : Action)
  | Move (e : MouseEvent) (rect : option (Q * Q))
  | PressBackground (e : MouseEvent) (type : BgAction)
  | Wheel (deltaY : Q)
  | GenerateBackground (genPrompt : string)
  | MagicEdit (editPrompt : string).

Definition react (atan2deg : Q -> Q -> Q) (env : Env) (sw : Editor * World)
    (ev : EditorEvent) : Editor * World :=
  let (st, w) := sw in
  match ev with
  | Act a => (perform st a, w)
  | Press e id action => (handleMouseDown st e id action, w)
  | Move e rect => (handleMouseMove atan2deg st e rect, w)
  | PressBackground e type => (handleBgMouseDown st e type, w)
  | Wheel deltaY => (handleCanvasWheel st deltaY, w)
  | GenerateBackground genPrompt => handleGenerateBackground env genPrompt st w
  | MagicEdit editPrompt => handleMagicEdit env editPrompt st w
  end.

(** The state the editor is in after a sequence of events, from the state
    it opens in. *)
Definition reached (atan2deg : Q -> Q -> Q) (env : Env) (ar : AspectRatio)
    (initialElements : list CanvasElement) (b : Background) (w : World)
    (events : list EditorEvent) : Editor :=
  fst (fold_left (react atan2deg env) events (initEditor ar initialElements b, w)).

(** An element as the caller passes it in, without scale factors. *)
Definition plainText : CanvasElement :=
  mkEl "a" TText "Add a heading" 10 10 400 80 0 None None None None (sampleStyle 10).

(** A scene with a half-transparent background. *)
Definition fadedScene : Editor :=
  initEditor R1_1 [sampleText "a" 10 10 10 None] (mkBg BgColor "#ffffff" (1 # 2) 1 0 0).


(** * Properties *)

(** ** History *)

Lemma scene_restore st e : scene (restore st e) = scene_of_entry e.
Proof. reflexivity. Qed.

Lemma scene_of_snapshot els b : scene_of_entry (snapshot els b) = (els, b).
Proof. destruct b; reflexivity. Qed.

Lemma history_commit st s :
  history (commit st s) =
    let h := take (S (historyIndex st)) (history st) ++ [snapshot (fst s) (snd s)] in
    if (20 <? length h)%nat then tail h else h.
Proof. reflexivity. Qed.

Lemma historyIndex_commit st s :
  historyIndex (commit st s) = (length (history (commit st s)) - 1)%nat.
Proof. reflexivity. Qed.

Lemma scene_commit st s : scene (commit st s) = s.
Proof. destruct s; reflexivity. Qed.

(** While fewer than twenty entries are retained and the cursor sits on the
    last one, committed edits only append. *)
Lemma commits_append edits : forall st,
  historyIndex st = (length (history st) - 1)%nat ->
  history st <> [] ->
  (length (history st) + length edits <= 20)%nat ->
  history (commits st edits) =
    history st ++ map (fun s => snapshot (fst s) (snd s)) edits /\
  historyIndex (commits st edits) = (length (history st) + length edits - 1)%nat.
Proof.
  induction edits as [|s edits IH]; intros st Hidx Hne Hlen; simpl in *.
  - rewrite app_nil_r. split; [reflexivity | lia].
  - assert (Hh : history (commit st s) = history st ++ [snapshot (fst s) (snd s)]).
    { rewrite history_commit. cbv zeta.
      assert (0 < length (history st))%nat by (destruct (history st); simpl; [congruence | lia]).
      rewrite take_ge by lia.
      rewrite length_app. simpl.
      destruct (Nat.ltb_spec 20 (length (history st) + 1)); [lia | reflexivity]. }
    destruct (IH (commit st s)) as [H1 H2].
    + rewrite historyIndex_commit. reflexivity.
    + rewrite Hh. destruct (history st); discriminate.
    + rewrite Hh, length_app. simpl. lia.
    + unfold commits in *. rewrite H1, H2, Hh, length_app. simpl.
      rewrite <- app_assoc. simpl. split; [reflexivity | lia].
Qed.

(** [undo] leaves the entries alone. *)
Lemma history_undo st : history (undo st) = history st.
Proof.
  unfold undo. destruct (0 <? historyIndex st)%nat; [|reflexivity].
  destruct (history st !! _); reflexivity.
Qed.

Lemma history_undos n st : history (undos n st) = history st.
Proof.
  induction n as [|n IH]; simpl; [reflexivity|].
  rewrite history_undo. exact IH.
Qed.

(** One [undo] from a cursor [S i] inside the array lands on entry [i]. *)
Lemma undo_step st i e :
  historyIndex st = S i ->
  history st !! i = Some e ->
  historyIndex (undo st) = i /\ scene (undo st) = scene_of_entry e.
Proof.
  intros Hi He. unfold undo. rewrite Hi. simpl.
  rewrite Nat.sub_0_r, He. split; reflexivity.
Qed.

Lemma undos_to_start n : forall st e0,
  historyIndex st = S n ->
  (S n < length (history st))%nat ->
  history st !! 0%nat = Some e0 ->
  historyIndex (undos (S n) st) = 0%nat /\
  scene (undos (S n) st) = scene_of_entry e0.
Proof.
  induction n as [|n IH]; intros st e0 Hi Hlen H0.
  - simpl. apply undo_step; assumption.
  - destruct (lookup_lt_is_Some_2 (history st) (S n)) as [e He]; [lia|].
    destruct (undo_step st (S n) e Hi He) as [Hi' _].
    change (undos (S (S n)) st) with (undo (undos (S n) st)).
    assert (Hcomm : forall k s, undos k (undo s) = undo (undos k s)).
    { induction k; intros; simpl; [reflexivity | rewrite IHk; reflexivity]. }
    rewrite <- Hcomm.
    apply IH; rewrite ?history_undo; auto. lia.
Qed.

(** N committed edits on a fresh editor, N at most nineteen, retain the
    initial snapshot at position 0 and leave the cursor on position N. *)
Lemma commits_fresh ar els b edits :
  (length edits <= 19)%nat ->
  let st := commits (initEditor ar els b) edits in
  history st = snapshot els b :: map (fun s => snapshot (fst s) (snd s)) edits /\
  historyIndex st = length edits.
Proof.
  intros Hn st.
  destruct (commits_append edits (initEditor ar els b)) as [H1 H2];
    simpl; try reflexivity; try discriminate; try lia.
  subst st. rewrite H1, H2. simpl. split; [reflexivity | lia].
Qed.

(** C1 (as amended): after N committed edits on a fresh editor, with N at
    most 19, calling [undo] N times brings the cursor back to the first
    history entry and, when at least one edit was made, sets the scene
    (elements and background) to exactly the initial snapshot; for N = 0
    nothing is undone and the scene is the initial one. *)
Theorem undo_restores_initial_snapshot ar els b edits :
  (length edits <= 19)%nat ->
  let st0 := initEditor ar els b in
  let st := undos (length edits) (commits st0 edits) in
  historyIndex st = 0%nat /\
  history st !! 0%nat = Some (snapshot els b) /\
  scene st = match edits with [] => scene st0 | _ => (els, b) end.
Proof.
  intros Hn st0 st.
  destruct (commits_fresh ar els b edits Hn) as [Hh Hi].
  fold st0 in Hh, Hi.
  destruct edits as [|s edits].
  - subst st. simpl. repeat split.
  - subst st.
    destruct (undos_to_start (length edits) (commits st0 (s :: edits)) (snapshot els b))
      as [H1 H2].
    + exact Hi.
    + rewrite Hh. simpl. rewrite length_map. lia.
    + rewrite Hh. reflexivity.
    + change (length (s :: edits)) with (S (length edits)).
      rewrite H1, H2, history_undos, Hh, scene_of_snapshot. repeat split.
Qed.

(** Twenty pairwise distinct edits: the background is panned to x = 1, ..., 20. *)
Definition twenty_edits : list (list CanvasElement * Background) :=
  map (fun k => ([], mkBg BgColor "#ffffff" 1 1 (inject_Z (Z.of_nat k)) 0))
      (seq 1 20).

(** C1 (as stated) fails at N = 20: the twenty-first entry evicts the
    initial snapshot, so twenty undos stop at the scene of the first edit. *)
Lemma undo_twenty_edits_counterexample :
  ~ (forall ar els b edits,
       NoDup edits -> (length edits <= 20)%nat ->
       scene (undos (length edits) (commits (initEditor ar els b) edits)) = (els, b)).
Proof.
  intros H.
  specialize (H R1_1 [] (mkBg BgColor "#ffffff" 1 1 0 0) twenty_edits).
  assert (Hnd : NoDup twenty_edits).
  { unfold twenty_edits. apply NoDup_fmap_2; [|apply NoDup_seq].
    intros i j Hij. injection Hij as Hij. lia. }
  specialize (H Hnd ltac:(vm_compute; lia)).
  vm_compute in H. discriminate H.
Qed.

Lemma undo_restores_initial_snapshot_witness :
  (length (firstn 3 twenty_edits) <= 19)%nat /\
  scene (undos 3 (commits (initEditor R1_1 [] (mkBg BgColor "#ffffff" 1 1 0 0))
                          (firstn 3 twenty_edits)))
  = ([], mkBg BgColor "#ffffff" 1 1 0 0).
Proof.
  split; [vm_compute; lia|].
  exact (proj2 (proj2 (undo_restores_initial_snapshot R1_1 []
           (mkBg BgColor "#ffffff" 1 1 0 0) (firstn 3 twenty_edits)
           ltac:(vm_compute; lia)))).
Defined.

(** ** The sort *)

Section Sort.
Context {A : Type} (cmp : A -> A -> Q).

Lemma sort_insert_perm a l : sort_insert cmp a l ≡ₚ a :: l.
Proof.
  induction l as [|b l IH]; simpl; [reflexivity|].
  destruct (Qle_bool (cmp a b) 0); [reflexivity|].
  rewrite IH. apply perm_swap.
Qed.

Lemma sort_perm l : sort cmp l ≡ₚ l.
Proof.
  induction l as [|a l IH]; simpl; [reflexivity|].
  rewrite sort_insert_perm, IH. reflexivity.
Qed.

Lemma sort_In x l : In x (sort cmp l) <-> In x l.
Proof.
  split; apply Permutation_in; [|symmetry]; apply sort_perm.
Qed.

Lemma length_sort l : length (sort cmp l) = length l.
Proof. apply Permutation_length, sort_perm. Qed.

(** An element that does not go before any element of [s] is put last. *)
Lemma sort_insert_last x s :
  (forall y, In y s -> Qle_bool (cmp x y) 0 = false) ->
  sort_insert cmp x s = s ++ [x].
Proof.
  induction s as [|b s IH]; intros H; simpl; [reflexivity|].
  rewrite (H b) by (left; reflexivity).
  rewrite IH; [reflexivity|]. intros y Hy. apply H. right. exact Hy.
Qed.

(** An element that goes before the last one leaves it last. *)
Lemma sort_insert_keeps_last a x s :
  Qle_bool (cmp a x) 0 = true ->
  exists s', sort_insert cmp a (s ++ [x]) = s' ++ [x].
Proof.
  intros Hax. induction s as [|b s [s' IH]]; simpl.
  - rewrite Hax. exists [a]. reflexivity.
  - destruct (Qle_bool (cmp a b) 0).
    + exists (a :: b :: s). reflexivity.
    + exists (b :: s'). rewrite IH. reflexivity.
Qed.

(** An element strictly above all the others is last after sorting. *)
Lemma sort_strict_max_last x l1 l2 :
  (forall y, In y (l1 ++ l2) ->
     Qle_bool (cmp y x) 0 = true /\ Qle_bool (cmp x y) 0 = false) ->
  exists s, sort cmp (l1 ++ x :: l2) = s ++ [x].
Proof.
  induction l1 as [|a l1 IH]; intros H; simpl.
  - exists (sort cmp l2). apply sort_insert_last.
    intros y Hy. apply (proj1 (sort_In _ _)) in Hy. apply H. exact Hy.
  - destruct IH as [s Hs].
    { intros y Hy. apply H. right. exact Hy. }
    rewrite Hs. apply sort_insert_keeps_last.
    apply H. left. reflexivity.
Qed.

(** Two comparators that decide alike on the list sort it alike. *)
Lemma sort_insert_ext (cmp' : A -> A -> Q) a s :
  (forall b, In b s -> Qle_bool (cmp a b) 0 = Qle_bool (cmp' a b) 0) ->
  sort_insert cmp a s = sort_insert cmp' a s.
Proof.
  induction s as [|b s IH]; intros H; simpl; [reflexivity|].
  rewrite <- (H b) by (left; reflexivity).
  destruct (Qle_bool (cmp a b) 0); [reflexivity|].
  rewrite IH; [reflexivity|]. intros c Hc. apply H. right. exact Hc.
Qed.

(** The result is ordered by any key the comparator decides by. *)
Lemma sort_insert_sorted (key : A -> Q) a s :
  (forall b, In b s -> Qle_bool (cmp a b) 0 = Qle_bool (key a) (key b)) ->
  StronglySorted (fun u v => (key u <= key v)%Q) s ->
  StronglySorted (fun u v => (key u <= key v)%Q) (sort_insert cmp a s).
Proof.
  induction s as [|b s IH]; intros H Hs; simpl.
  - constructor; constructor.
  - rewrite (H b) by (left; reflexivity).
    inversion Hs as [|? ? Hs' Hall]; subst.
    destruct (Qle_bool (key a) (key b)) eqn:Hab.
    + apply Qle_bool_iff in Hab. constructor; [exact Hs|].
      constructor; [exact Hab|].
      eapply Forall_impl; [exact Hall|].
      intros c Hbc. simpl in Hbc. eapply Qle_trans; eassumption.
    + assert (Hba : (key b <= key a)%Q).
      { destruct (Qlt_le_dec (key a) (key b)) as [Hlt|Hle]; [|exact Hle].
        apply Qlt_le_weak, Qle_bool_iff in Hlt. congruence. }
      constructor.
      * apply IH; [|exact Hs']. intros c Hc. apply H. right. exact Hc.
      * rewrite sort_insert_perm. constructor; assumption.
Qed.

(** Stability: elements that the comparator ties keep their order. *)
Lemma sort_insert_filter_out (p : A -> bool) a s :
  p a = false ->
  List.filter p (sort_insert cmp a s) = List.filter p s.
Proof.
  intros Hpa. induction s as [|b s IH]; simpl.
  - rewrite Hpa. reflexivity.
  - destruct (Qle_bool (cmp a b) 0); simpl.
    + rewrite Hpa. reflexivity.
    + rewrite IH. reflexivity.
Qed.

Lemma sort_insert_filter_in (p : A -> bool) a s :
  p a = true ->
  (forall b, In b s -> p b = true -> Qle_bool (cmp a b) 0 = true) ->
  List.filter p (sort_insert cmp a s) = a :: List.filter p s.
Proof.
  intros Hpa. induction s as [|b s IH]; intros H; simpl.
  - rewrite Hpa. reflexivity.
  - destruct (Qle_bool (cmp a b) 0) eqn:Hab; simpl.
    + rewrite Hpa. reflexivity.
    + rewrite IH by (intros c Hc; apply H; right; exact Hc).
      destruct (p b) eqn:Hb; [|reflexivity].
      rewrite (H b (or_introl eq_refl) Hb) in Hab. discriminate.
Qed.

Lemma sort_stable (p : A -> bool) l :
  (forall a b, In a l -> In b l -> p a = true -> p b = true ->
     Qle_bool (cmp a b) 0 = true) ->
  List.filter p (sort cmp l) = List.filter p l.
Proof.
  induction l as [|a l IH]; intros H; simpl; [reflexivity|].
  assert (IH' : List.filter p (sort cmp l) = List.filter p l).
  { apply IH. intros b c Hb Hc. apply H; right; assumption. }
  destruct (p a) eqn:Hpa.
  - rewrite sort_insert_filter_in, IH'; [reflexivity | exact Hpa |].
    intros b Hb Hpb. apply H; auto.
    + left. reflexivity.
    + right. apply sort_In. exact Hb.
  - rewrite sort_insert_filter_out, IH'; [reflexivity | exact Hpa].
Qed.

End Sort.

Lemma sort_ext {A} (cmp cmp' : A -> A -> Q) l :
  (forall a b, In a l -> In b l ->
     Qle_bool (cmp a b) 0 = Qle_bool (cmp' a b) 0) ->
  sort cmp l = sort cmp' l.
Proof.
  induction l as [|a l IH]; intros H; simpl; [reflexivity|].
  rewrite IH by (intros; apply H; right; assumption).
  apply sort_insert_ext. intros b Hb. apply (proj1 (sort_In _ _ _)) in Hb.
  apply H; [left; reflexivity | right; exact Hb].
Qed.

Lemma sort_sorted {A} (cmp : A -> A -> Q) (key : A -> Q) l :
  (forall a b, In a l -> In b l ->
     Qle_bool (cmp a b) 0 = Qle_bool (key a) (key b)) ->
  StronglySorted (fun u v => (key u <= key v)%Q) (sort cmp l).
Proof.
  induction l as [|a l IH]; intros H; simpl; [constructor|].
  apply sort_insert_sorted.
  - intros b Hb. apply (proj1 (sort_In _ _ _)) in Hb.
    apply H; [left; reflexivity | right; exact Hb].
  - apply IH. intros; apply H; right; assumption.
Qed.

(** A list ordered by a key and a list strictly ordered by it, with the
    same members, are the same list. *)
Lemma sorted_perm_unique {A} (key : A -> Q) (l1 : list A) : forall l2,
  l1 ≡ₚ l2 ->
  StronglySorted (fun u v => (key u <= key v)%Q) l1 ->
  StronglySorted (fun u v => (key u < key v)%Q) l2 ->
  l1 = l2.
Proof.
  induction l1 as [|a l1 IH]; intros l2 Hp H1 H2.
  - apply Permutation_nil in Hp. subst. reflexivity.
  - destruct l2 as [|b l2].
    { symmetry in Hp. apply Permutation_nil in Hp. discriminate. }
    inversion H1 as [|? ? H1' Ha]; subst.
    inversion H2 as [|? ? H2' Hb]; subst.
    assert (Hab : a = b).
    { assert (Hin1 : In a (b :: l2)) by (eapply Permutation_in; [exact Hp | left; reflexivity]).
      assert (Hin2 : In b (a :: l1))
        by (eapply Permutation_in; [symmetry; exact Hp | left; reflexivity]).
      destruct Hin1 as [->|Hin1]; [reflexivity|].
      destruct Hin2 as [->|Hin2]; [reflexivity|].
      rewrite Forall_forall in Ha, Hb.
      apply list_elem_of_In in Hin1, Hin2.
      specialize (Ha _ Hin2). specialize (Hb _ Hin1). simpl in Ha, Hb.
      exfalso. apply (Qlt_irrefl (key a)).
      eapply Qle_lt_trans; eassumption. }
    subst b. f_equal. apply IH; try assumption.
    eapply Permutation_cons_inv. exact Hp.
Qed.

(** ** [updateSelected] *)

Lemma includes_true ids i : includes ids i = true <-> In i ids.
Proof.
  unfold includes. rewrite existsb_exists. split.
  - intros [j [Hj He]]. apply String.eqb_eq in He. subst. exact Hj.
  - intros Hi. exists i. split; [exact Hi | apply String.eqb_refl].
Qed.

Lemma lookup_spread updates o k :
  spread updates o !! k =
    match updates !! k with Some v => v | None => o !! k end.
Proof.
  unfold spread. rewrite lookup_merge.
  destruct (updates !! k) as [v|], (o !! k); reflexivity.
Qed.

Lemma keys_spec (updates : gmap string (option JsVal)) k :
  In k (keys updates) <-> is_Some (updates !! k).
Proof.
  unfold keys. rewrite in_map_iff. split.
  - intros [[k' v] [Hk Hin]]. simpl in Hk. subst k'.
    apply list_elem_of_In, elem_of_map_to_list in Hin. eauto.
  - intros [v Hv]. exists (k, v). split; [reflexivity|].
    apply list_elem_of_In, elem_of_map_to_list. exact Hv.
Qed.

(** The classification is per patch: a patch is a style update as soon as
    one of its keys is a style key. *)
Lemma isStyleUpdate_spec updates :
  isStyleUpdate updates = true <->
  exists k, In k styleKeys /\ is_Some (updates !! k).
Proof.
  unfold isStyleUpdate. rewrite existsb_exists. split.
  - intros [k [Hk Hs]]. exists k. split.
    + apply includes_true. exact Hs.
    + apply keys_spec. exact Hk.
  - intros [k [Hs Hk]]. exists k. split.
    + apply keys_spec. exact Hk.
    + apply includes_true. exact Hs.
Qed.

(** *** The element as an object *)

Lemma ElType_of_to_string t : ElType_of_string (ElType_to_string t) = Some t.
Proof. destruct t; reflexivity. Qed.

(** The declared properties of the object of an element. *)
Lemma toObj_reads el :
  toObj el !! "id" = Some (VStr (el_id el)) /\
  toObj el !! "type" = Some (VStr (ElType_to_string (el_type el))) /\
  toObj el !! "content" = Some (VStr (el_content el)) /\
  toObj el !! "x" = Some (VNum (el_x el)) /\
  toObj el !! "y" = Some (VNum (el_y el)) /\
  toObj el !! "width" = Some (VNum (el_width el)) /\
  toObj el !! "height" = Some (VNum (el_height el)) /\
  toObj el !! "rotation" = Some (VNum (el_rotation el)) /\
  toObj el !! "scaleX" = VNum <$> el_scaleX el /\
  toObj el !! "scaleY" = VNum <$> el_scaleY el /\
  toObj el !! "groupId" = VStr <$> el_groupId el /\
  toObj el !! "locked" = VBool <$> el_locked el /\
  toObj el !! "style" = Some (VObj (el_style el)).
Proof.
  destruct el as [i t c x y w h r sx sy g l s]. unfold toObj, opt_insert. simpl.
  destruct sx, sy, g, l; simpl; repeat split; reflexivity.
Qed.

(** Reading the object of an element gives the element back. *)
Lemma asElement_toObj base el : asElement base (toObj el) = el.
Proof.
  destruct (toObj_reads el) as (H1 & H2 & H3 & H4 & H5 & H6 & H7 & H8 & H9 & H10
                                 & H11 & H12 & H13).
  unfold asElement.
  rewrite H1, H2, H3, H4, H5, H6, H7, H8, H9, H10, H11, H12, H13.
  rewrite ElType_of_to_string.
  destruct el as [i t c x y w h r sx sy g l s]. simpl.
  destruct sx, sy, g, l; reflexivity.
Qed.

(** A new style object changes the style and nothing else. *)
Lemma asElement_style el s :
  asElement el (<["style" := VObj s]> (toObj el)) = set_style el s.
Proof.
  destruct (toObj_reads el) as (H1 & H2 & H3 & H4 & H5 & H6 & H7 & H8 & H9 & H10
                                 & H11 & H12 & H13).
  unfold asElement.
  rewrite lookup_insert_eq.
  rewrite !lookup_insert_ne by discriminate.
  rewrite H1, H2, H3, H4, H5, H6, H7, H8, H9, H10, H11, H12.
  rewrite ElType_of_to_string.
  destruct el as [i t c x y w h r sx sy g l s0]. simpl.
  destruct sx, sy, g, l; reflexivity.
Qed.

Lemma updateOne_locked sel updates el :
  truthy (el_locked el) = true -> updateOne sel updates el = el.
Proof.
  intros Hl. unfold updateOne, updateOneObj. rewrite Hl.
  destruct (negb (includes sel (el_id el))); apply asElement_toObj.
Qed.

Lemma updateOne_unselected sel updates el :
  includes sel (el_id el) = false -> updateOne sel updates el = el.
Proof.
  intros Hs. unfold updateOne, updateOneObj. rewrite Hs. apply asElement_toObj.
Qed.

Lemma updateOne_target sel updates el :
  includes sel (el_id el) = true -> truthy (el_locked el) = false ->
  updateOne sel updates el =
    if isStyleUpdate updates then set_style el (spread updates (el_style el))
    else assignTop updates el.
Proof.
  intros Hs Hl. unfold updateOne, updateOneObj. rewrite Hs, Hl. simpl.
  destruct (isStyleUpdate updates); [apply asElement_style | reflexivity].
Qed.

Lemma elements_updateSelected st updates :
  elements (updateSelected st updates) =
    map (updateOne (selectedIds st) updates) (elements st).
Proof. reflexivity. Qed.

(** C3 (as amended): [updateSelected] always pushes exactly one history
    entry, the snapshot of the element list it has just set, after cutting
    the entries beyond the cursor and before evicting the oldest entry
    when more than twenty are held; the cursor moves to that entry.  When
    every targeted element is locked the element list is unchanged, and the
    entry is pushed all the same. *)
Theorem updateSelected_pushes_one_entry st updates :
  let st' := updateSelected st updates in
  let h := take (S (historyIndex st)) (history st)
           ++ [snapshot (elements st') (bg st)] in
  history st' = (if (20 <? length h)%nat then tail h else h) /\
  historyIndex st' = (length (history st') - 1)%nat /\
  history st' !! historyIndex st' = Some (snapshot (elements st') (bg st)) /\
  bg st' = bg st /\
  (all_targets_locked st -> elements st' = elements st).
Proof.
  intros st' h.
  assert (Hh : history st' = (if (20 <? length h)%nat then tail h else h))
    by reflexivity.
  assert (Hlast : forall (l : list HistoryEntry) e,
             (l ++ [e]) !! (length (l ++ [e]) - 1)%nat = Some e).
  { intros l e. rewrite length_app. simpl.
    replace (length l + 1 - 1)%nat with (length l + 0)%nat by lia.
    rewrite lookup_app_r by lia.
    replace (length l + 0 - length l)%nat with 0%nat by lia. reflexivity. }
  split; [exact Hh|]. split; [reflexivity|]. split; [|split].
  - change (historyIndex st') with (length (history st') - 1)%nat.
    rewrite Hh. subst h.
    set (l := take (S (historyIndex st)) (history st)).
    set (e := snapshot (elements st') (bg st)).
    destruct (Nat.ltb_spec 20 (length (l ++ [e]))) as [Hgt|Hle].
    + specialize (Hlast l e).
      destruct l as [|a l']; [simpl in Hgt; lia|].
      simpl. simpl in Hlast. rewrite length_app in *. simpl in *.
      replace (length l' + 1 - 1)%nat with (length l') by lia.
      replace (length l' + 1 - 0)%nat with (S (length l')) in Hlast by lia.
      exact Hlast.
    + apply Hlast.
  - reflexivity.
  - intros Hall. subst st'. rewrite elements_updateSelected.
    rewrite <- (map_id (elements st)) at 2.
    apply map_ext_in. intros el Hin.
    destruct (includes (selectedIds st) (el_id el)) eqn:Hs.
    + apply updateOne_locked. apply Hall; assumption.
    + apply updateOne_unselected. exact Hs.
Qed.

Lemma lockedSelected_all_locked : all_targets_locked lockedSelected.
Proof.
  intros el Hin _. simpl in Hin. destruct Hin as [<-|[]]. reflexivity.
Qed.

Lemma updateSelected_pushes_one_entry_witness :
  all_targets_locked lockedSelected /\
  elements (updateSelected lockedSelected movePatch) = elements lockedSelected.
Proof.
  split; [exact lockedSelected_all_locked|].
  exact (proj2 (proj2 (proj2 (proj2
           (updateSelected_pushes_one_entry lockedSelected movePatch))))
         lockedSelected_all_locked).
Defined.

(** C3 (as stated) fails: with the only targeted element locked,
    [updateSelected] changes no element and still appends a history entry. *)
Lemma updateSelected_locked_counterexample :
  ~ (forall st updates,
       all_targets_locked st ->
       elements (updateSelected st updates) = elements st /\
       history (updateSelected st updates) = history st).
Proof.
  intros H.
  destruct (H lockedSelected movePatch lockedSelected_all_locked) as [_ Hh].
  apply (f_equal (@length _)) in Hh. vm_compute in Hh. discriminate Hh.
Qed.

(** C5 (as amended): on a targeted, unlocked element the patch is routed
    as a whole.  If any of its keys is one of the seventeen style keys,
    every key of the patch, of either class, is written into the style
    record and no top-level property changes.  Otherwise every key of the
    patch is merged into the top-level properties, a key [style] replacing
    the style record as a whole, and the style record is otherwise
    untouched.  One patch never changes both.  The object the callback
    returns is given for every patch; the fields of the element the state
    then holds are given for the keys the patch leaves out and for those
    it sets to a value of their declared type. *)
Theorem updateOne_routes_whole_patch sel updates el :
  includes sel (el_id el) = true ->
  truthy (el_locked el) = false ->
  let o := updateOneObj sel updates el in
  let el' := updateOne sel updates el in
  let styleKey k :=
    In k ["fontSize"; "fontFamily"; "fontWeight"; "fontStyle"; "textDecoration";
          "lineHeight"; "letterSpacing"; "color"; "gradient"; "backgroundColor";
          "textAlign"; "borderRadius"; "padding"; "opacity"; "zIndex";
          "borderWidth"; "borderColor"] in
  ((exists k, styleKey k /\ is_Some (updates !! k)) ->
     (exists s, o !! "style" = Some (VObj s) /\ el_style el' = s /\
        forall k, s !! k =
                  match updates !! k with Some v => v | None => el_style el !! k end) /\
     (forall k, k <> "style" -> o !! k = toObj el !! k) /\
     o !! "x" = Some (VNum (el_x el)) /\ o !! "y" = Some (VNum (el_y el)) /\
     o !! "width" = Some (VNum (el_width el)) /\
     o !! "height" = Some (VNum (el_height el)) /\
     o !! "rotation" = Some (VNum (el_rotation el)) /\
     o !! "content" = Some (VStr (el_content el)) /\
     el' = set_style el (el_style el')) /\
  ((forall k, styleKey k -> updates !! k = None) ->
     (forall k, o !! k =
                match updates !! k with Some v => v | None => toObj el !! k end) /\
     (updates !! "style" = None -> el_style el' = el_style el) /\
     (forall s, updates !! "style" = Some (Some (VObj s)) -> el_style el' = s) /\
     (updates !! "x" = None -> el_x el' = el_x el) /\
     (forall n, updates !! "x" = Some (Some (VNum n)) -> el_x el' = n) /\
     (updates !! "y" = None -> el_y el' = el_y el) /\
     (forall n, updates !! "y" = Some (Some (VNum n)) -> el_y el' = n) /\
     (updates !! "width" = None -> el_width el' = el_width el) /\
     (forall n, updates !! "width" = Some (Some (VNum n)) -> el_width el' = n) /\
     (updates !! "height" = None -> el_height el' = el_height el) /\
     (forall n, updates !! "height" = Some (Some (VNum n)) -> el_height el' = n) /\
     (updates !! "rotation" = None -> el_rotation el' = el_rotation el) /\
     (forall n, updates !! "rotation" = Some (Some (VNum n)) -> el_rotation el' = n) /\
     (updates !! "content" = None -> el_content el' = el_content el) /\
     (forall c, updates !! "content" = Some (Some (VStr c)) -> el_content el' = c)).
Proof.
  intros Hs Hl o el' styleKey.
  destruct (toObj_reads el) as (H1 & H2 & H3 & H4 & H5 & H6 & H7 & H8 & H9 & H10
                                 & H11 & H12 & H13).
  pose proof (updateOne_target _ updates _ Hs Hl) as Ht. fold el' in Ht.
  assert (Ho : o = if isStyleUpdate updates
                   then <["style" := VObj (spread updates (el_style el))]> (toObj el)
                   else spread updates (toObj el)).
  { unfold o, updateOneObj. rewrite Hs, Hl. reflexivity. }
  split.
  - intros Hex.
    assert (Hu : isStyleUpdate updates = true) by (apply isStyleUpdate_spec; exact Hex).
    rewrite Hu in Ho, Ht. rewrite Ho, Ht.
    split; [|split].
    + exists (spread updates (el_style el)).
      split; [apply lookup_insert_eq|]. split; [reflexivity|].
      intros k. apply lookup_spread.
    + intros k Hk. apply lookup_insert_ne. congruence.
    + rewrite !lookup_insert_ne by discriminate.
      repeat split; assumption.
  - intros Hnone.
    assert (Hu : isStyleUpdate updates = false).
    { destruct (isStyleUpdate updates) eqn:E; [|reflexivity].
      apply isStyleUpdate_spec in E as [k [Hk [v Hv]]].
      rewrite (Hnone k Hk) in Hv. discriminate Hv. }
    rewrite Hu in Ho, Ht. rewrite Ho, Ht.
    split; [intros k; apply lookup_spread|].
    unfold assignTop, asElement. simpl.
    rewrite !lookup_spread, H3, H4, H5, H6, H7, H8, H13.
    repeat split; intros; 
      match goal with
      | H : updates !! ?k = _ |- _ => rewrite H; reflexivity
      end.
Qed.

Lemma updateOne_routes_whole_patch_witness :
  let el := sampleText "a" 10 10 10 None in
  let el' := updateOne ["a"] mixedPatch el in
  el_style el' !! "x" = Some (VNum 5) /\
  el_style el' !! "color" = Some (VStr "#000000") /\
  el_x el' = 10%Q.
Proof.
  intros el el'.
  destruct (updateOne_routes_whole_patch ["a"] mixedPatch el
              eq_refl eq_refl) as [Hstyle _].
  destruct Hstyle as [[s [_ [Hs Hk]]] [_ [_ [_ [_ [_ [_ [_ Htop]]]]]]]].
  { exists "color". split; [simpl; tauto | eexists; reflexivity]. }
  fold el' in Hs, Htop. rewrite Hs.
  split; [rewrite Hk; reflexivity|].
  split; [rewrite Hk; reflexivity|].
  rewrite Htop. reflexivity.
Defined.

(** C5 (as stated) fails on a mixed patch: [{ x: 5, color: '#000000' }]
    puts the top-level key [x] inside the style record. *)
Lemma updateOne_mixed_patch_counterexample :
  ~ (forall sel updates el k,
       includes sel (el_id el) = true ->
       truthy (el_locked el) = false ->
       In k topKeys ->
       el_style (updateOne sel updates el) !! k = el_style el !! k).
Proof.
  intros H.
  specialize (H ["a"] mixedPatch (sampleText "a" 10 10 10 None) "x"
                eq_refl eq_refl).
  assert (Hin : In "x" topKeys) by (simpl; tauto).
  specialize (H Hin). vm_compute in H. discriminate H.
Qed.

(** ** Locked elements and gestures *)

(** A press on a locked element starts nothing. *)
Lemma handleMouseDown_locked st e id action el :
  findEl id (elements st) = Some el ->
  truthy (el_locked el) = true ->
  handleMouseDown st e id action = st.
Proof. intros Hf Hl. unfold handleMouseDown. rewrite Hf, Hl. reflexivity. Qed.

(** [updateSelected] returns every locked element as it is. *)
Lemma updateSelected_keeps_locked st updates el :
  truthy (el_locked el) = true ->
  In el (elements st) ->
  In el (elements (updateSelected st updates)).
Proof.
  intros Hl Hin. rewrite elements_updateSelected.
  apply in_map_iff. exists el. split; [|exact Hin].
  apply updateOne_locked. exact Hl.
Qed.

(** The drag callback never reads [locked]: it moves a locked element
    exactly as it moves the unlocked one. *)
Lemma dragOne_ignores_lock st deltaX deltaY el b :
  dragOne st deltaX deltaY (set_locked el b) =
    set_locked (dragOne st deltaX deltaY el) b.
Proof.
  unfold dragOne. simpl.
  destruct (negb (includes (selectedIds st) (el_id el))); [reflexivity|].
  destruct (elementsStart (gesture st) !! el_id el); reflexivity.
Qed.

(** The export paints every element, locked or not, once. *)
Lemma sortedElements_perm els : sortedElements els ≡ₚ els.
Proof. apply sort_perm. Qed.

(** C7: the dragging branch of [handleMouseMove] has no [locked] test.  With
    the locked element [a] selected, a shift-press on the unlocked [b]
    records start states for both, and the drag that follows moves [a] from
    x = 10 to x = 210 although it is locked; the release commits it. *)
Theorem drag_moves_locked_element :
  exists a a',
    findEl "a" (elements lockedAndFree) = Some a /\
    findEl "a" (elements dragBoth) = Some a' /\
    truthy (el_locked a) = true /\
    truthy (el_locked a') = true /\
    (el_x a == 10)%Q /\
    (el_x a' == 210)%Q /\
    (exists e, history dragBoth !! historyIndex dragBoth = Some e /\
               findEl "a" (h_elements e) = Some a').
Proof.
  eexists. eexists.
  split; [vm_compute; reflexivity|].
  split; [vm_compute; reflexivity|].
  split; [reflexivity|]. split; [reflexivity|].
  split; [reflexivity|]. split; [reflexivity|].
  eexists. split; vm_compute; reflexivity.
Qed.

(** ** Rotation snapping *)

Lemma Qtrunc_small q : (0 <= q)%Q -> (q < 1)%Q -> Qtrunc q = 0%Z.
Proof.
  unfold Qtrunc, Qle, Qlt. simpl. intros H0 H1.
  apply Z.quot_small. lia.
Qed.

(** Every angle that lands strictly between 40 and 45 degrees, less than
    five degrees below the multiple 45, is left as it is. *)
Lemma snapRotation_skips_below angle :
  (40 < angle + 90)%Q -> (angle + 90 < 45)%Q ->
  snapRotation angle = (angle + 90)%Q.
Proof.
  intros Hlo Hhi. unfold snapRotation. cbv zeta.
  set (s := (angle + 90)%Q) in *.
  assert (Ht : Qtrunc (s / 45) = 0%Z).
  { apply Qtrunc_small.
    - apply Qle_shift_div_l; lra.
    - apply Qlt_shift_div_r; lra. }
  assert (Hr : (js_rem s 45 == s)%Q).
  { unfold js_rem. rewrite Ht. unfold inject_Z. lra. }
  assert (Hge : Qle_bool 5 (Qabs (js_rem s 45)) = true).
  { apply Qle_bool_iff. rewrite Hr, Qabs_pos; lra. }
  unfold Qltb. rewrite Hge. reflexivity.
Qed.

(** C4: the snap test [Math.abs(snapAngle % 45) < 5] sees only the side of
    a multiple of 45 that faces away from zero.  A pointer angle of -43
    degrees gives 47, two degrees above 45, and snaps to 45; a pointer
    angle of -47 degrees gives 43, two degrees below 45, and stays 43. *)
Theorem snapRotation_misses_below_multiple :
  (snapRotation (-43) == 45)%Q /\
  (snapRotation (-47) == 43)%Q /\
  (Qabs (43 - 45) < 5)%Q.
Proof. repeat split. Qed.

(** ** [duplicateSelected] *)

Lemma clones_imap env sel els : forall k,
  clones env k sel els =
    imap (fun i src => cloneOf env (k + i) src)
         (List.filter (fun el => includes sel (el_id el)) els).
Proof.
  induction els as [|el els IH]; intros k; simpl; [reflexivity|].
  destruct (includes sel (el_id el)); simpl.
  - rewrite Nat.add_0_r. f_equal. rewrite IH.
    apply imap_ext. intros i src _. simpl. f_equal. lia.
  - apply IH.
Qed.

Lemma elements_duplicateSelected env st :
  elements (duplicateSelected env st) =
    elements st ++ imap (cloneOf env) (targets st).
Proof.
  unfold duplicateSelected. simpl. rewrite clones_imap. reflexivity.
Qed.

Lemma ids_of_clones env st :
  map el_id (imap (cloneOf env) (targets st)) = drawnIds env st.
Proof.
  unfold drawnIds. generalize (targets st) as l. intros l.
  change (map el_id (imap (cloneOf env) l)) with (el_id <$> imap (cloneOf env) l).
  rewrite fmap_imap. apply imap_ext. intros i src _. reflexivity.
Qed.

(** The text before the first dash and the text after it determine a
    string. *)
Lemma split_at_dash s1 : forall s2 x y,
  dashfree s1 = true -> dashfree s2 = true ->
  (s1 ++ "-" ++ x)%string = (s2 ++ "-" ++ y)%string ->
  s1 = s2 /\ x = y.
Proof.
  induction s1 as [|c r IH]; intros s2 x y H1 H2 E; destruct s2 as [|c' r'];
    simpl in *.
  - injection E as E. split; [reflexivity | exact E].
  - injection E as Ec E. subst c'. discriminate H2.
  - injection E as Ec E. subst c. discriminate H1.
  - injection E as Ec E. subst c'.
    apply andb_true_iff in H1 as [_ H1]. apply andb_true_iff in H2 as [_ H2].
    destruct (IH r' x y H1 H2 E) as [-> ->]. split; reflexivity.
Qed.

Lemma ElType_to_string_dashfree t : dashfree (ElType_to_string t) = true.
Proof. destruct t; reflexivity. Qed.

(** The composed identifier determines the pair it was composed from. *)
Lemma newId_inj env i j a b :
  dashfree (fst (env i)) = true -> dashfree (fst (env j)) = true ->
  newId env i a = newId env j b -> env i = env j.
Proof.
  intros Hi Hj E. unfold newId in E.
  apply split_at_dash in E as [_ E]; try apply ElType_to_string_dashfree.
  apply split_at_dash in E as [E1 E2]; try assumption.
  destruct (env i), (env j). simpl in *. congruence.
Qed.

(** Distinct draws give distinct identifiers. *)
Lemma drawnIds_NoDup env st :
  NoDup (draws env st) ->
  (forall d, In d (draws env st) -> dashfree (fst d) = true) ->
  NoDup (drawnIds env st).
Proof.
  intros Hnd Hdash. unfold drawnIds, draws in *.
  set (n := length (targets st)) in *.
  assert (Hlk : forall k, (k < n)%nat -> map env (seq 0 n) !! k = Some (env k)).
  { intros k Hk.
    change (map env (seq 0 n)) with (env <$> seq 0 n).
    rewrite list_lookup_fmap, lookup_seq_lt by exact Hk. reflexivity. }
  apply NoDup_alt. intros i j x Hi Hj.
  rewrite list_lookup_imap in Hi, Hj.
  destruct (targets st !! i) as [a|] eqn:Ha; [|discriminate].
  destruct (targets st !! j) as [b|] eqn:Hb; [|discriminate].
  simpl in Hi, Hj. injection Hi as Hi. injection Hj as Hj.
  apply lookup_lt_Some in Ha, Hb. fold n in Ha, Hb.
  assert (E : env i = env j).
  { apply (newId_inj env i j a b).
    - apply Hdash. apply list_elem_of_In, list_elem_of_lookup. eauto.
    - apply Hdash. apply list_elem_of_In, list_elem_of_lookup. eauto.
    - congruence. }
  eapply (proj1 (NoDup_alt _) Hnd); [apply Hlk; exact Ha|].
  rewrite E. apply Hlk. exact Hb.
Qed.

(** C9 (as amended): duplicating a selection that covers k elements
    appends exactly k elements after the existing ones, which stay as they
    are, and selects them.  The i-th clone has the style of the i-th
    selected element, its position moved by (+20, +20), every other field
    but the id copied, and the id composed from its type, the clock and a
    random draw.  The ids are not compared with the ids in use; the clones'
    ids differ from each other when the pairs drawn differ, the clock being
    rendered without a dash. *)
Theorem duplicateSelected_appends_clones env st :
  let st' := duplicateSelected env st in
  let srcs := targets st in
  exists cl,
    elements st' = elements st ++ cl /\
    selectedIds st' = map el_id cl /\
    length cl = length srcs /\
    (forall i src, srcs !! i = Some src ->
       exists c, cl !! i = Some c /\
         el_id c = (ElType_to_string (el_type src) ++ "-" ++ fst (env i)
                    ++ "-" ++ snd (env i))%string /\
         el_style c = el_style src /\
         el_x c = (el_x src + 20)%Q /\
         el_y c = (el_y src + 20)%Q /\
         set_xy (set_id c (el_id src)) (el_x src) (el_y src) = src) /\
    (NoDup (map env (seq 0 (length srcs))) ->
     (forall k, (k < length srcs)%nat -> dashfree (fst (env k)) = true) ->
     NoDup (map el_id cl)).
Proof.
  intros st' srcs. exists (imap (cloneOf env) srcs).
  assert (Hel : elements st' = elements st ++ imap (cloneOf env) srcs)
    by apply elements_duplicateSelected.
  split; [exact Hel|]. split.
  { unfold st', duplicateSelected. simpl. rewrite clones_imap. reflexivity. }
  split; [apply length_imap|]. split.
  - intros i src Hi. exists (cloneOf env i src). split.
    + rewrite list_lookup_imap, Hi. reflexivity.
    + destruct src; repeat split.
  - intros Hdraws Hdash.
    pose proof (ids_of_clones env st) as Hids. fold srcs in Hids.
    rewrite Hids. apply drawnIds_NoDup; [exact Hdraws|].
    intros d Hd. unfold draws in Hd. apply in_map_iff in Hd as [k [<- Hk]].
    apply in_seq in Hk. apply Hdash. fold srcs in Hk. lia.
Qed.

Lemma duplicateSelected_appends_clones_witness :
  NoDup (map sampleEnv (seq 0 (length (targets twoSelected)))) /\
  length (elements (duplicateSelected sampleEnv twoSelected)) = 4%nat /\
  NoDup (selectedIds (duplicateSelected sampleEnv twoSelected)).
Proof.
  assert (Hnd : NoDup (map sampleEnv (seq 0 (length (targets twoSelected))))).
  { refine (bool_decide_unpack _ _). vm_compute. exact I. }
  split; [exact Hnd|].
  destruct (duplicateSelected_appends_clones sampleEnv twoSelected)
    as [cl [Hel [Hsel [Hlen [_ Hfresh]]]]].
  split.
  - rewrite Hel, length_app, Hlen. reflexivity.
  - rewrite Hsel. apply Hfresh; [exact Hnd|].
    intros k Hk. destruct k as [|[|k]]; [reflexivity | reflexivity |].
    exfalso. change (length (targets twoSelected)) with 2%nat in Hk. lia.
Defined.

(** C9 (as stated) fails: the id of a clone is not compared with the ids in
    use.  With a clock that stands still and a random generator that
    repeats its draw, duplicating the clone made by a first duplication
    appends an element whose id the scene already holds. *)
Lemma duplicateSelected_fresh_id_counterexample :
  ~ (forall env st i c,
       elements (duplicateSelected env st) !! (length (elements st) + i)%nat = Some c ->
       ~ In (el_id c) (map el_id (elements st))).
Proof.
  intros H.
  apply (H sampleEnv duplicatedOnce 0%nat
           (cloneOf sampleEnv 0
              (cloneOf sampleEnv 0 (sampleText "a" 10 10 10 None)))).
  - vm_compute. reflexivity.
  - vm_compute. right. left. reflexivity.
Qed.

(** ** Layer order *)

Lemma slotZ_lt i j : (i < j)%nat -> (slotZ i < slotZ j)%Q.
Proof.
  intros Hij. unfold slotZ.
  assert (H : (inject_Z (Z.of_nat i) < inject_Z (Z.of_nat j))%Q).
  { rewrite <- Zlt_Qlt. lia. }
  lra.
Qed.

Lemma Qle_bool_sub a b : Qle_bool (a - b) 0 = Qle_bool a b.
Proof.
  destruct (Qle_bool (a - b) 0) eqn:E1, (Qle_bool a b) eqn:E2; try reflexivity.
  - apply Qle_bool_iff in E1.
    assert (H : (a <= b)%Q) by lra. apply Qle_bool_iff in H. congruence.
  - apply Qle_bool_iff in E2.
    assert (H : (a - b <= 0)%Q) by lra. apply Qle_bool_iff in H. congruence.
Qed.

Lemma Qle_bool_lt_false a b : (b < a)%Q -> Qle_bool a b = false.
Proof.
  intros H. destruct (Qle_bool a b) eqn:E; [|reflexivity].
  apply Qle_bool_iff in E. lra.
Qed.

Lemma num_or_0 v : (num_or v 0 == v)%Q.
Proof.
  unfold num_or. destruct (Qeq_bool v 0) eqn:E; [|reflexivity].
  apply Qeq_bool_iff in E. symmetry. exact E.
Qed.

(** On elements with a numeric z-index the two comparators decide alike. *)
Lemma zcmp_paint_cmp a b :
  is_Some (zIndex a) -> is_Some (zIndex b) ->
  Qle_bool (zcmp a b) 0 = Qle_bool (paint_cmp a b) 0.
Proof.
  intros [za Ha] [zb Hb]. unfold zcmp, paint_cmp. rewrite Ha, Hb. simpl.
  rewrite !Qle_bool_sub.
  pose proof (num_or_0 za) as Hza. pose proof (num_or_0 zb) as Hzb.
  destruct (Qle_bool (num_or za 0) (num_or zb 0)) eqn:E1,
           (Qle_bool za zb) eqn:E2; try reflexivity.
  - apply Qle_bool_iff in E1. rewrite Hza, Hzb in E1.
    apply Qle_bool_iff in E1. congruence.
  - apply Qle_bool_iff in E2. rewrite <- Hza, <- Hzb in E2.
    apply Qle_bool_iff in E2. congruence.
Qed.

Lemma paint_cmp_key a b :
  is_Some (zIndex a) -> is_Some (zIndex b) ->
  Qle_bool (paint_cmp a b) 0 = Qle_bool (paintKey a) (paintKey b).
Proof.
  intros [za Ha] [zb Hb]. unfold paint_cmp, paintKey. rewrite Ha, Hb.
  apply Qle_bool_sub.
Qed.

Lemma normalize_notin k l : forall i m,
  ~ In k (map el_id l) -> normalize i l m !! k = m !! k.
Proof.
  induction l as [|a l IH]; intros i m Hk; simpl; [reflexivity|].
  rewrite IH by (intros H; apply Hk; right; exact H).
  apply lookup_insert_ne. intros Heq. apply Hk. left. exact Heq.
Qed.

(** With distinct identifiers, the element at position [j] of the sorted
    list gets the slot [(j + 1) * 10]. *)
Lemma normalize_lookup l : forall i m j e,
  NoDup (map el_id l) -> l !! j = Some e ->
  normalize i l m !! el_id e = Some (slotZ (i + j)).
Proof.
  induction l as [|a l IH]; intros i m j e Hnd Hj; [discriminate|].
  simpl in Hnd. apply NoDup_cons in Hnd as [Ha Hnd]. simpl.
  destruct j as [|j]; simpl in Hj.
  - injection Hj as ->. rewrite normalize_notin.
    + rewrite Nat.add_0_r. apply lookup_insert_eq.
    + intros H. apply Ha. apply list_elem_of_In. exact H.
  - rewrite (IH (S i) _ j e Hnd Hj). f_equal. f_equal. lia.
Qed.

(** Every slot handed out is one of [(j + 1) * 10], [j] below the length. *)
Lemma normalize_bound l : forall i m k v,
  normalize i l m !! k = Some v ->
  m !! k = Some v \/ exists j, (j < length l)%nat /\ v = slotZ (i + j).
Proof.
  induction l as [|a l IH]; intros i m k v H; simpl in H; [left; exact H|].
  apply IH in H as [H|[j [Hj ->]]].
  - rewrite lookup_insert in H. destruct (decide (el_id a = k)) as [Heq|Hne].
    + right. exists 0%nat. simpl. split; [lia|].
      rewrite Nat.add_0_r. congruence.
    + left. exact H.
  - right. exists (S j). simpl. split; [lia|]. f_equal. lia.
Qed.

Lemma normalize_dom l : forall i m k,
  is_Some (m !! k) \/ In k (map el_id l) -> is_Some (normalize i l m !! k).
Proof.
  induction l as [|a l IH]; intros i m k H; simpl.
  - destruct H as [H|[]]. exact H.
  - apply IH. destruct (decide (el_id a = k)) as [Heq|Hne].
    + left. subst k. rewrite lookup_insert_eq. eauto.
    + destruct H as [H|[H|H]].
      * left. rewrite lookup_insert_ne by exact Hne. exact H.
      * contradiction.
      * right. exact H.
Qed.

Lemma el_id_applyZ m e : el_id (applyZ m e) = el_id e.
Proof. unfold applyZ. destruct (m !! el_id e); reflexivity. Qed.

Lemma zIndex_applyZ m e z :
  m !! el_id e = Some z -> zIndex (applyZ m e) = Some z.
Proof.
  intros H. unfold applyZ, zIndex. rewrite H. simpl.
  rewrite lookup_insert_eq. reflexivity.
Qed.

Lemma map_el_id_applyZ m l : map el_id (map (applyZ m) l) = map el_id l.
Proof.
  rewrite map_map. apply map_ext. intros e. apply el_id_applyZ.
Qed.

Lemma ids_sorted_perm cmp (els : list CanvasElement) :
  map el_id (sort cmp els) ≡ₚ map el_id els.
Proof. apply Permutation_map, sort_perm. Qed.

Lemma ids_sorted_NoDup cmp (els : list CanvasElement) :
  NoDup (map el_id els) -> NoDup (map el_id (sort cmp els)).
Proof. intros H. rewrite ids_sorted_perm. exact H. Qed.

Lemma In_ids_sorted cmp (els : list CanvasElement) e :
  In e els -> In (el_id e) (map el_id (sort cmp els)).
Proof. intros H. apply in_map. apply sort_In. exact H. Qed.

Lemma elements_changeZIndex st type id rest :
  selectedIds st = id :: rest ->
  elements (changeZIndex st type) =
    map (applyZ (idToZ_after type id (sort zcmp (elements st)))) (elements st).
Proof. intros H. unfold changeZIndex. rewrite H. reflexivity. Qed.

Lemma findIndex_snoc s t id :
  ~ In id (map el_id s) -> el_id t = id ->
  findIndex id (s ++ [t]) = Z.of_nat (length s).
Proof.
  intros Hs Ht. induction s as [|a s IH]; simpl.
  - rewrite Ht, String.eqb_refl. reflexivity.
  - destruct (String.eqb_spec (el_id a) id) as [Heq|Hne].
    + exfalso. apply Hs. left. exact Heq.
    + rewrite IH by (intros H; apply Hs; right; exact H).
      destruct (Z.ltb_spec (Z.of_nat (length s)) 0); lia.
Qed.

(** A list whose [j]-th element is painted by the slot [i + j] is strictly
    ordered by paint key. *)
Lemma slots_strictly_sorted (g : CanvasElement -> CanvasElement) l : forall i,
  (forall j e, l !! j = Some e -> paintKey (g e) = slotZ (i + j)) ->
  StronglySorted (fun u v => (paintKey u < paintKey v)%Q) (map g l).
Proof.
  induction l as [|a l IH]; intros i H; simpl; constructor.
  - apply (IH (S i)). intros j e Hj.
    rewrite (H (S j) e Hj). f_equal. lia.
  - apply Forall_forall. intros v Hv.
    apply list_elem_of_In, in_map_iff in Hv as [e [<- He]].
    apply list_elem_of_In, list_elem_of_lookup in He as [j Hj].
    rewrite (H 0%nat a eq_refl), (H (S j) e Hj).
    apply slotZ_lt. lia.
Qed.

(** After normalisation alone, painting follows the sorted list. *)
Lemma paint_normalized (els : list CanvasElement) :
  NoDup (map el_id els) ->
  let sorted := sort zcmp els in
  let m := normalize 0 sorted ∅ in
  sort paint_cmp (map (applyZ m) els) = map (applyZ m) sorted.
Proof.
  intros Hnd sorted m.
  assert (Hz : forall e, In e els -> exists z, zIndex (applyZ m e) = Some z).
  { intros e He.
    destruct (normalize_dom sorted 0 ∅ (el_id e)) as [z Hz].
    - right. apply In_ids_sorted. exact He.
    - exists z. apply zIndex_applyZ. exact Hz. }
  apply (sorted_perm_unique paintKey).
  - rewrite sort_perm. apply Permutation_map. symmetry. apply sort_perm.
  - apply sort_sorted. intros a b Ha Hb.
    apply in_map_iff in Ha as [ea [<- Ha]]. apply in_map_iff in Hb as [eb [<- Hb]].
    destruct (Hz ea Ha) as [za Hza]. destruct (Hz eb Hb) as [zb Hzb].
    apply paint_cmp_key; eauto.
  - apply (slots_strictly_sorted _ _ 0). intros j e Hj.
    unfold paintKey.
    rewrite (zIndex_applyZ m e (slotZ (0 + j))); [reflexivity|].
    apply normalize_lookup; [|exact Hj].
    apply ids_sorted_NoDup. exact Hnd.
Qed.

Lemma last_map_id (l : list CanvasElement) id :
  last (map el_id l) = Some id ->
  exists s t, l = s ++ [t] /\ el_id t = id.
Proof.
  intros H. apply last_Some in H as [l' Hl'].
  apply map_eq_app in Hl' as [s [r [-> [_ Hr]]]].
  destruct r as [|t [|? ?]]; try discriminate.
  injection Hr as Hr. exists s, t. split; [reflexivity | exact Hr].
Qed.

(** The table of slots after [front]. *)
Lemma front_others_below (els : list CanvasElement) id e :
  let sorted := sort zcmp els in
  let m := idToZ_after Front id sorted in
  In e els -> el_id e <> id ->
  exists z, zIndex (applyZ m e) = Some z /\ (z < slotZ (length sorted))%Q.
Proof.
  intros sorted m He Hne.
  destruct (normalize_dom sorted 0 ∅ (el_id e)) as [z Hz].
  { right. apply In_ids_sorted. exact He. }
  exists z. split.
  - apply zIndex_applyZ. unfold m, idToZ_after.
    rewrite lookup_insert_ne by congruence. exact Hz.
  - apply normalize_bound in Hz as [Hz|[j [Hj ->]]].
    + rewrite lookup_empty in Hz. discriminate.
    + apply slotZ_lt. simpl. exact Hj.
Qed.

(** [forward] on the last element of the sorted list swaps nothing. *)
Lemma forward_topmost s top id :
  ~ In id (map el_id s) -> el_id top = id ->
  idToZ_after Forward id (s ++ [top]) = normalize 0 (s ++ [top]) ∅.
Proof.
  intros Hnot Htop. unfold idToZ_after.
  rewrite (findIndex_snoc s top id Hnot Htop), length_app. simpl.
  destruct (Z.ltb_spec (Z.of_nat (length s))
                       (Z.of_nat (length s + 1) - 1)); [lia|reflexivity].
Qed.

(** C8: with unique identifiers and the first selected id [id] in the
    scene, [changeZIndex] orders the elements by current z-index, ties in
    insertion order; [changeZIndex('front')] gives every other element the
    slot [(i + 1) * 10] of its position [i] in that order, gives the target
    the slot above all of them, and the export then paints the target
    last.  [changeZIndex('forward')] on the element already painted last
    leaves the paint order as it was. *)
Theorem changeZIndex_front_paints_last st id rest :
  selectedIds st = id :: rest ->
  NoDup (map el_id (elements st)) ->
  In id (map el_id (elements st)) ->
  let sorted := sort zcmp (elements st) in
  let front := elements (changeZIndex st Front) in
  let forward := elements (changeZIndex st Forward) in
  (sorted ≡ₚ elements st /\
   StronglySorted (fun u v => (zKey u <= zKey v)%Q) sorted /\
   forall k, tied k sorted = tied k (elements st)) /\
  (forall i e, sorted !! i = Some e -> el_id e <> id ->
     exists e', In e' front /\ el_id e' = el_id e /\
       zIndex e' = Some ((inject_Z (Z.of_nat i) + 1) * 10)%Q) /\
  (exists t, In t front /\ el_id t = id /\
     zIndex t = Some ((inject_Z (Z.of_nat (length sorted)) + 1) * 10)%Q /\
     forall e', In e' front -> el_id e' <> id ->
       exists z, zIndex e' = Some z /\
                 (z < (inject_Z (Z.of_nat (length sorted)) + 1) * 10)%Q) /\
  last (paintOrder front) = Some id /\
  (all_zIndexed (elements st) ->
   last (paintOrder (elements st)) = Some id ->
   paintOrder forward = paintOrder (elements st)).
Proof.
  intros Hsel Hnd Hid sorted front forward.
  change (fun i : nat => ((inject_Z (Z.of_nat i) + 1) * 10)%Q) with slotZ.
  repeat match goal with
         | |- context [((inject_Z (Z.of_nat ?i) + 1) * 10)%Q] =>
             change ((inject_Z (Z.of_nat i) + 1) * 10)%Q with (slotZ i)
         end.
  set (m := idToZ_after Front id sorted).
  assert (Hfront : front = map (applyZ m) (elements st))
    by (apply elements_changeZIndex with (rest := rest); exact Hsel).
  assert (Hm_id : m !! id = Some (slotZ (length sorted)))
    by apply lookup_insert_eq.
  apply in_map_iff in Hid as [t [Ht Hin]].
  assert (Hothers : forall e', In e' front -> el_id e' <> id ->
            exists z, zIndex e' = Some z /\ (z < slotZ (length sorted))%Q).
  { intros e' He' Hne. rewrite Hfront in He'.
    apply in_map_iff in He' as [e [<- He]].
    rewrite el_id_applyZ in Hne.
    apply front_others_below; assumption. }
  split; [|split; [|split; [|split]]].
  - split; [apply sort_perm|]. split.
    + apply sort_sorted. intros a b _ _. apply Qle_bool_sub.
    + intros k. apply sort_stable. intros a b _ _ Ha Hb.
      apply Qeq_bool_iff in Ha, Hb. unfold zcmp. fold (zKey a) (zKey b).
      apply Qle_bool_iff. rewrite Ha, Hb. lra.
  - intros i e Hi Hne. exists (applyZ m e). split; [|split].
    + rewrite Hfront. apply in_map. apply (sort_In zcmp).
      apply list_elem_of_In, list_elem_of_lookup. eauto.
    + apply el_id_applyZ.
    + apply zIndex_applyZ. unfold m, idToZ_after.
      rewrite lookup_insert_ne by congruence.
      apply (normalize_lookup sorted 0 ∅ i e); [|exact Hi].
      apply ids_sorted_NoDup. exact Hnd.
  - exists (applyZ m t). split; [|split; [|split]].
    + rewrite Hfront. apply in_map. exact Hin.
    + rewrite el_id_applyZ. exact Ht.
    + apply zIndex_applyZ. rewrite Ht. exact Hm_id.
    + exact Hothers.
  - apply in_split in Hin as [l1 [l2 Hsplit]].
    assert (Hne : forall e, In e (l1 ++ l2) -> el_id e <> id).
    { intros e He Heq. rewrite Hsplit, map_app in Hnd. simpl in Hnd.
      apply NoDup_app in Hnd as [_ [Hdis Hnd2]].
      apply NoDup_cons in Hnd2 as [Hnot _].
      apply in_app_or in He as [He|He].
      - apply (Hdis id).
        + apply list_elem_of_In. rewrite <- Heq. apply in_map. exact He.
        + rewrite <- Ht. left.
      - apply Hnot. rewrite Ht, <- Heq.
        apply list_elem_of_In, in_map. exact He. }
    unfold paintOrder, sortedElements.
    rewrite Hfront, Hsplit, map_app. simpl.
    destruct (sort_strict_max_last paint_cmp (applyZ m t)
                (map (applyZ m) l1) (map (applyZ m) l2)) as [s Hs].
    + intros y Hy. rewrite <- map_app in Hy.
      apply in_map_iff in Hy as [e [<- He]].
      destruct (front_others_below (elements st) id e) as [z [Hz Hlt]].
      * rewrite Hsplit. apply in_app_or in He as [He|He];
          apply in_or_app; [left | right; right]; exact He.
      * apply Hne. exact He.
      * fold sorted in Hz, Hlt. fold m in Hz.
        unfold paint_cmp. rewrite Hz.
        rewrite (zIndex_applyZ m t (slotZ (length sorted)))
          by (rewrite Ht; exact Hm_id).
        rewrite !Qle_bool_sub. split.
        -- apply Qle_bool_iff. lra.
        -- apply Qle_bool_lt_false. exact Hlt.
    + rewrite Hs, map_app. simpl. rewrite last_snoc.
      rewrite el_id_applyZ, Ht. reflexivity.
  - intros Hall Hlast.
    assert (Hsame : sorted = sort paint_cmp (elements st)).
    { apply sort_ext. intros a b Ha Hb.
      apply zcmp_paint_cmp; apply Hall; assumption. }
    unfold paintOrder, sortedElements in Hlast.
    apply last_map_id in Hlast as [s [top [Hs Htop]]].
    rewrite <- Hsame in Hs.
    assert (Hnot : ~ In id (map el_id s)).
    { pose proof (ids_sorted_NoDup zcmp _ Hnd) as Hnd'.
      fold sorted in Hnd'. rewrite Hs, map_app in Hnd'.
      apply NoDup_app in Hnd' as [_ [Hdis _]].
      intros H. apply (Hdis id).
      - apply list_elem_of_In. exact H.
      - simpl. rewrite Htop. left. }
    assert (Hfwd : idToZ_after Forward id sorted = normalize 0 sorted ∅).
    { rewrite Hs. apply forward_topmost; assumption. }
    unfold forward.
    rewrite (elements_changeZIndex st Forward id rest Hsel).
    fold sorted. rewrite Hfwd.
    unfold paintOrder, sortedElements.
    pose proof (paint_normalized (elements st) Hnd) as Hp.
    cbv zeta in Hp. fold sorted in Hp.
    rewrite Hp, map_el_id_applyZ, Hsame. reflexivity.
Qed.

Lemma threeLayers_ids sel : NoDup (map el_id (elements (threeLayers sel))).
Proof. refine (bool_decide_unpack _ _). vm_compute. exact I. Qed.

Lemma threeLayers_zIndexed sel : all_zIndexed (elements (threeLayers sel)).
Proof.
  intros el Hin. simpl in Hin.
  destruct Hin as [<-|[<-|[<-|[]]]]; eexists; reflexivity.
Qed.

Lemma changeZIndex_front_paints_last_witness :
  NoDup (map el_id (elements (threeLayers ["b"]))) /\
  In "b" (map el_id (elements (threeLayers ["b"]))) /\
  paintOrder (elements (threeLayers ["b"])) = ["b"; "c"; "a"] /\
  map zIndex (elements (changeZIndex (threeLayers ["b"]) Front))
    = [Some 30%Q; Some 40%Q; Some 20%Q] /\
  last (paintOrder (elements (changeZIndex (threeLayers ["b"]) Front))) = Some "b" /\
  paintOrder (elements (changeZIndex (threeLayers ["a"]) Forward)) = ["b"; "c"; "a"].
Proof.
  split; [apply threeLayers_ids|].
  split; [simpl; tauto|].
  split; [vm_compute; reflexivity|].
  split; [vm_compute; reflexivity|].
  split.
  - exact (proj1 (proj2 (proj2 (proj2
      (changeZIndex_front_paints_last (threeLayers ["b"]) "b" [] eq_refl
         (threeLayers_ids _) ltac:(simpl; tauto)))))).
  - rewrite (proj2 (proj2 (proj2 (proj2
      (changeZIndex_front_paints_last (threeLayers ["a"]) "a" [] eq_refl
         (threeLayers_ids _) ltac:(simpl; tauto)))))
      (threeLayers_zIndexed _) ltac:(vm_compute; reflexivity)).
    vm_compute. reflexivity.
Defined.

(** ** Code fences around the plan *)

Lemma backtickfree_cons c r :
  backtickfree (String c r) = true -> c <> "`"%char /\ backtickfree r = true.
Proof.
  simpl. intros H. apply andb_true_iff in H. destruct H as [Hc Hr].
  split; [|exact Hr]. intros ->. discriminate Hc.
Qed.

Lemma prefix_backticks_cons c s :
  c <> "`"%char -> String.prefix "```" (String c s) = false.
Proof.
  intros Hc.
  change (String.prefix "```" (String c s))
    with (if ascii_dec "`" c then String.prefix "``" s else false).
  destruct (ascii_dec "`" c) as [E|_]; [|reflexivity].
  exfalso. apply Hc. symmetry. exact E.
Qed.

Lemma prefix_json_cons c s :
  c <> "`"%char -> String.prefix "```json" (String c s) = false.
Proof.
  intros Hc.
  change (String.prefix "```json" (String c s))
    with (if ascii_dec "`" c then String.prefix "``json" s else false).
  destruct (ascii_dec "`" c) as [E|_]; [|reflexivity].
  exfalso. apply Hc. symmetry. exact E.
Qed.

(** Inside a text without backticks no fence starts, also when the closing
    fence follows the text. *)
Lemma fenceMatch_in_body c r tail :
  backtickfree (String c r) = true ->
  (tail = EmptyString \/ tail = String nl "```") ->
  fenceMatch (String c (r ++ tail)) = None.
Proof.
  intros Hb Ht. apply backtickfree_cons in Hb. destruct Hb as [Hc Hr].
  unfold fenceMatch. rewrite (prefix_json_cons c _ Hc).
  rewrite (prefix_backticks_cons c _ Hc).
  assert (Hn : String.prefix (String nl "```") (String c (r ++ tail)) = false).
  { change (String.prefix (String nl "```") (String c (r ++ tail)))
      with (if ascii_dec nl c then String.prefix "```" (r ++ tail) else false).
    destruct (ascii_dec nl c) as [_|_]; [|reflexivity].
    destruct r as [|c' r'].
    - destruct Ht as [->| ->]; reflexivity.
    - apply backtickfree_cons in Hr. destruct Hr as [Hc' _].
      exact (prefix_backticks_cons c' _ Hc'). }
  rewrite Hn. reflexivity.
Qed.

Lemma stripFences_body body tail :
  backtickfree body = true ->
  (tail = EmptyString \/ tail = String nl "```") ->
  stripFences 0 (body ++ tail) = body.
Proof.
  intros Hb Ht. induction body as [|c r IH].
  - destruct Ht as [->| ->]; reflexivity.
  - change (String c r ++ tail)%string with (String c (r ++ tail)).
    cbn [stripFences]. rewrite (fenceMatch_in_body c r tail Hb Ht).
    f_equal. apply IH. apply backtickfree_cons in Hb. exact (proj2 Hb).
Qed.

(** *** White space around the plan *)

Lemma blank_cons c r :
  blank (String c r) = true -> is_space c = true /\ blank r = true.
Proof.
  simpl. intros H. apply andb_true_iff in H as [Hc Hr]. split; [|exact Hr].
  repeat (apply orb_true_iff in Hc as [Hc|Hc]);
    apply Ascii.eqb_eq in Hc; subst c; reflexivity.
Qed.

Lemma blank_backtickfree s : blank s = true -> backtickfree s = true.
Proof.
  induction s as [|c r IH]; [reflexivity|]. simpl. intros H.
  apply andb_true_iff in H as [Hc Hr]. rewrite (IH Hr), andb_true_r.
  repeat (apply orb_true_iff in Hc as [Hc|Hc]);
    apply Ascii.eqb_eq in Hc; subst c; reflexivity.
Qed.

Lemma backtickfree_app s t :
  backtickfree s = true -> backtickfree t = true -> backtickfree (s ++ t) = true.
Proof.
  intros Hs Ht. induction s as [|c r IH]; [exact Ht|].
  apply backtickfree_cons in Hs as [Hc Hr].
  change (backtickfree (String c (r ++ t)) = true). simpl.
  rewrite (IH Hr), andb_true_r.
  destruct (Ascii.eqb_spec c "`"); [contradiction | reflexivity].
Qed.

Lemma trimStart_blank lead s :
  blank lead = true -> trimStart (lead ++ s) = trimStart s.
Proof.
  induction lead as [|c r IH]; intros H; [reflexivity|].
  apply blank_cons in H as [Hc Hr].
  change (trimStart (String c (r ++ s)) = trimStart s).
  cbn [trimStart]. rewrite Hc. exact (IH Hr).
Qed.

Lemma trimEnd_blank trail : blank trail = true -> trimEnd trail = EmptyString.
Proof.
  induction trail as [|c r IH]; intros H; [reflexivity|].
  apply blank_cons in H as [Hc Hr].
  cbn [trimEnd]. rewrite (IH Hr), Hc. reflexivity.
Qed.

Lemma trimEnd_app_keep x y :
  trimEnd y <> EmptyString -> trimEnd (x ++ y) = (x ++ trimEnd y)%string.
Proof.
  intros Hy. induction x as [|c r IH]; [reflexivity|].
  change (trimEnd (String c (r ++ y)) = String c (r ++ trimEnd y)).
  cbn [trimEnd]. rewrite IH.
  destruct (r ++ trimEnd y)%string as [|c' r'] eqn:E; [|reflexivity].
  exfalso. destruct r; [exact (Hy E) | discriminate E].
Qed.

(** A text between braces, with white space around it, is trimmed to the
    braces. *)
Lemma trim_braces lead mid trail :
  blank lead = true -> blank trail = true ->
  trim (lead ++ "{" ++ mid ++ "}" ++ trail) = ("{" ++ mid ++ "}")%string.
Proof.
  intros Hl Ht. unfold trim. rewrite (trimStart_blank _ _ Hl).
  change (trimStart ("{" ++ mid ++ "}" ++ trail))
    with (String "{" (mid ++ String "}" trail)).
  change (String "{" (mid ++ String "}" trail))
    with (String "{" mid ++ String "}" trail)%string.
  assert (Hy : trimEnd (String "}" trail) = String "}" EmptyString).
  { cbn [trimEnd]. rewrite (trimEnd_blank _ Ht). reflexivity. }
  rewrite trimEnd_app_keep by (rewrite Hy; discriminate).
  rewrite Hy. reflexivity.
Qed.

Lemma braces_backtickfree lead mid trail :
  blank lead = true -> blank trail = true -> backtickfree mid = true ->
  backtickfree (lead ++ "{" ++ mid ++ "}" ++ trail) = true.
Proof.
  intros Hl Ht Hm.
  apply backtickfree_app; [apply blank_backtickfree; exact Hl|].
  change ("{" ++ mid ++ "}" ++ trail)%string
    with (String "{" (mid ++ String "}" trail)).
  change (backtickfree (String "{" (mid ++ String "}" trail)))
    with (backtickfree (mid ++ String "}" trail)).
  apply backtickfree_app; [exact Hm|].
  change (backtickfree (String "}" trail)) with (backtickfree trail).
  apply blank_backtickfree. exact Ht.
Qed.

Lemma append_empty_r s : (s ++ EmptyString)%string = s.
Proof.
  induction s as [|c r IH]; [reflexivity|].
  change (String c r ++ EmptyString)%string with (String c (r ++ EmptyString)).
  rewrite IH. reflexivity.
Qed.

(** The text [generateBannerPlan] hands to [JSON.parse], for a reply
    between braces, fenced or not. *)
Lemma jsonText_braces lead mid trail :
  blank lead = true -> blank trail = true -> backtickfree mid = true ->
  let text := (lead ++ "{" ++ mid ++ "}" ++ trail)%string in
  trim (stripFences 0 text) = ("{" ++ mid ++ "}")%string /\
  trim (stripFences 0 (fenced text)) = ("{" ++ mid ++ "}")%string.
Proof.
  intros Hl Ht Hm text.
  pose proof (braces_backtickfree lead mid trail Hl Ht Hm) as Hb. fold text in Hb.
  assert (H1 : stripFences 0 text = text).
  { pose proof (stripFences_body text EmptyString Hb (or_introl eq_refl)) as H.
    rewrite append_empty_r in H. exact H. }
  assert (H2 : stripFences 0 (fenced text) = text).
  { unfold fenced.
    change (stripFences 0 ("```json" ++ String nl (text ++ String nl "```")))
      with (stripFences 0 (text ++ String nl "```")).
    apply stripFences_body; [exact Hb | right; reflexivity]. }
  rewrite H1, H2. split; apply trim_braces; assumption.
Qed.

(** ** The generative-service adapter *)

Lemma getClient_available env w :
  client_available env w ->
  getClient env w = (Returned tt, mkWorld true (sent w)).
Proof.
  intros [Hai|[key [Hk Hne]]]; unfold getClient.
  - rewrite Hai. destruct w as [a s]. simpl in *. subst. reflexivity.
  - destruct (ai w) eqn:Hai.
    + destruct w as [a s]. simpl in *. subst. reflexivity.
    + rewrite Hk, Hne. reflexivity.
Qed.

(** With a client at hand, a failing attempt issues its one request and
    throws. *)
Lemma executeGen_fails env aspectRatio promptText w :
  client_available env w ->
  attempt_fails (net env (length (sent w))) ->
  exists message,
    executeGen env aspectRatio promptText w =
      (Thrown message,
       mkWorld true (sent w ++ [imageRequest aspectRatio promptText])).
Proof.
  intros Hc Hf. unfold executeGen, bind. rewrite (getClient_available _ _ Hc).
  unfold generateContent. simpl.
  destruct (net env (length (sent w))) as [message|resp]; simpl in *.
  - eauto.
  - destruct (response_parts resp) as [parts|]; simpl.
    + rewrite Hf. destruct (firstOf truthyText parts); simpl; eauto.
    + eauto.
Qed.

Lemma text_only_fails r : text_only r -> attempt_fails r.
Proof.
  intros [resp [parts [-> [Hp [Hi _]]]]]. simpl. rewrite Hp. exact Hi.
Qed.

(** C6: when the primary attempt is answered by a text-only refusal and the
    fallback attempt fails too, [generateImage] issues exactly two requests,
    the first with the professional-photography framing and the second with
    the artistic-illustration framing, and throws the single error
    "Model refused to generate image. Try a simpler prompt.". *)
Theorem generateImage_two_attempts env prompt aspectRatio referenceImages w :
  nonempty prompt = true ->
  str_includes "user provided background" (toLowerCase prompt) = false ->
  client_available env w ->
  text_only (net env (length (sent w))) ->
  attempt_fails (net env (S (length (sent w)))) ->
  exists w',
    generateImage env prompt aspectRatio referenceImages w =
      (Thrown "Model refused to generate image. Try a simpler prompt.", w') /\
    sent w' =
      sent w ++
      [imageRequest aspectRatio
         ("Professional photography, " ++ prompt
          ++ ". Cinematic lighting, 8k resolution, high quality, highly detailed, text-free background.");
       imageRequest aspectRatio
         ("Artistic illustration style, " ++ prompt
          ++ ". Soft colors, minimalist, abstract, high quality, no text.")]%string.
Proof.
  intros Hne Hup Hc H1 H2.
  change ("Professional photography, " ++ prompt
          ++ ". Cinematic lighting, 8k resolution, high quality, highly detailed, text-free background.")%string
    with (strictPrompt prompt).
  change ("Artistic illustration style, " ++ prompt
          ++ ". Soft colors, minimalist, abstract, high quality, no text.")%string
    with (fallbackPrompt prompt).
  unfold generateImage. rewrite Hne, Hup. simpl.
  destruct (executeGen_fails env aspectRatio (strictPrompt prompt) w Hc
              (text_only_fails _ H1)) as [m1 E1].
  set (w1 := mkWorld true (sent w ++ [imageRequest aspectRatio (strictPrompt prompt)])) in *.
  destruct (executeGen_fails env aspectRatio (fallbackPrompt prompt) w1) as [m2 E2].
  - left. reflexivity.
  - unfold w1. simpl. rewrite length_app. simpl.
    replace (length (sent w) + 1)%nat with (S (length (sent w))) by lia.
    exact H2.
  - eexists. unfold try_catch, throw. rewrite E1, E2. split; [reflexivity|].
    unfold w1. simpl. rewrite <- app_assoc. reflexivity.
Qed.

Lemma generateImage_two_attempts_witness :
  client_available refusingEnv freshWorld /\
  text_only (net refusingEnv 0) /\
  fst (generateImage refusingEnv "A red bicycle" R4_5 [] freshWorld)
    = Thrown "Model refused to generate image. Try a simpler prompt." /\
  map req_prompt
      (sent (snd (generateImage refusingEnv "A red bicycle" R4_5 [] freshWorld)))
    = ["Professional photography, A red bicycle. Cinematic lighting, 8k resolution, high quality, highly detailed, text-free background.";
       "Artistic illustration style, A red bicycle. Soft colors, minimalist, abstract, high quality, no text."].
Proof.
  assert (Hc : client_available refusingEnv freshWorld).
  { right. exists "key". split; reflexivity. }
  assert (Ht : text_only (net refusingEnv 0)).
  { eexists. eexists. split; [reflexivity|]. split; [reflexivity|].
    split; [reflexivity|]. eexists. reflexivity. }
  split; [exact Hc|]. split; [exact Ht|].
  destruct (generateImage_two_attempts refusingEnv "A red bicycle" R4_5 []
              freshWorld eq_refl eq_refl Hc Ht (text_only_fails _ Ht))
    as [w' [E Hs]].
  rewrite E. simpl. rewrite Hs. split; reflexivity.
Defined.

(** C10: [generateImage] returns the empty string, with no request issued
    and no client created, when the prompt is empty, and when the prompt
    names the user provided background (in any letter case) while the list
    of reference images is empty. *)
Theorem generateImage_empty_url env prompt aspectRatio referenceImages w :
  prompt = "" \/
  (str_includes "user provided background" (toLowerCase prompt) = true /\
   referenceImages = []) ->
  generateImage env prompt aspectRatio referenceImages w = (Returned "", w).
Proof.
  intros [->|[Hup ->]]; unfold generateImage.
  - reflexivity.
  - destruct (nonempty prompt); simpl; [rewrite Hup|]; reflexivity.
Qed.

Lemma generateImage_empty_url_witness :
  generateImage refusingEnv "Use the User Provided Background" R1_1 [] freshWorld
  = (Returned "", freshWorld).
Proof.
  apply generateImage_empty_url. right. split; reflexivity.
Defined.

(** C2 (as amended): once the service has answered, [generateBannerPlan]
    throws "No text returned from Gemini" on a missing or empty text;
    otherwise it hands the text, stripped of its fences and trimmed, to
    [JSON.parse], throws "Invalid JSON response from AI" exactly when
    [JSON.parse] throws, and returns whatever value [JSON.parse] returns as
    the plan, whatever its shape.  For a reply that is an object text
    between braces, with white space around it and possibly a [json] fence
    around that, the text handed over is the object text itself. *)
Theorem generateBannerPlan_returns_parsed_json env request w resp :
  client_available env w ->
  net env (length (sent w)) = Replied resp ->
  exists w',
    sent w' = sent w ++ [mkRequest "gemini-2.5-flash" (planPrompt request) None] /\
    generateBannerPlan env request w =
      (match response_text resp with
       | None => Thrown "No text returned from Gemini"
       | Some text =>
           if nonempty text then
             match JSON_parse env (trim (stripFences 0 text)) with
             | Some plan => Returned plan
             | None => Thrown "Invalid JSON response from AI"
             end
           else Thrown "No text returned from Gemini"
       end, w') /\
    forall lead mid trail text,
      blank lead = true -> blank trail = true -> backtickfree mid = true ->
      text = (lead ++ "{" ++ mid ++ "}" ++ trail)%string ->
      response_text resp = Some text \/ response_text resp = Some (fenced text) ->
      generateBannerPlan env request w =
        (match JSON_parse env ("{" ++ mid ++ "}") with
         | Some plan => Returned plan
         | None => Thrown "Invalid JSON response from AI"
         end, w').
Proof.
  intros Hc Hr.
  assert (E : generateBannerPlan env request w =
      (match response_text resp with
       | None => Thrown "No text returned from Gemini"
       | Some text =>
           if nonempty text then
             match JSON_parse env (trim (stripFences 0 text)) with
             | Some plan => Returned plan
             | None => Thrown "Invalid JSON response from AI"
             end
           else Thrown "No text returned from Gemini"
       end,
       mkWorld true (sent w ++ [mkRequest "gemini-2.5-flash" (planPrompt request) None]))).
  { unfold generateBannerPlan, bind. rewrite (getClient_available _ _ Hc).
    unfold generateContent. simpl. rewrite Hr.
    destruct (response_text resp) as [text|]; [|reflexivity].
    destruct (nonempty text); reflexivity. }
  eexists. split; [|split; [exact E|]]; [reflexivity|].
  intros lead mid trail text Hl Ht Hm -> Hresp. rewrite E.
  destruct (jsonText_braces lead mid trail Hl Ht Hm) as [J1 J2].
  cbv zeta in J1, J2.
  destruct Hresp as [-> | ->].
  - rewrite J1.
    assert (Hn : nonempty (lead ++ "{" ++ mid ++ "}" ++ trail) = true)
      by (destruct lead; reflexivity).
    rewrite Hn. reflexivity.
  - rewrite J2. reflexivity.
Qed.

Lemma partialPlan_parsed :
  readJson (trim (stripFences 0 partialPlanText)) = Some partialPlan.
Proof. vm_compute. reflexivity. Qed.

Lemma generateBannerPlan_returns_parsed_json_witness :
  client_available partialPlanEnv freshWorld /\
  fst (generateBannerPlan partialPlanEnv sampleRequest freshWorld)
    = Returned partialPlan.
Proof.
  assert (Hc : client_available partialPlanEnv freshWorld).
  { right. exists "key". split; reflexivity. }
  split; [exact Hc|].
  destruct (generateBannerPlan_returns_parsed_json partialPlanEnv sampleRequest
              freshWorld _ Hc eq_refl) as [w' [_ [E _]]].
  rewrite E. vm_compute. reflexivity.
Defined.

(** C2 (as stated) fails: a fenced response that is valid JSON but has no
    [additional_banners] member is returned as the plan. *)
Lemma generateBannerPlan_partial_plan_counterexample :
  ~ (forall env request w plan w',
       generateBannerPlan env request w = (Returned plan, w') ->
       isBannerPlan plan = true).
Proof.
  intros H.
  specialize (H partialPlanEnv sampleRequest freshWorld partialPlan
                (mkWorld true [mkRequest "gemini-2.5-flash" (planPrompt sampleRequest) None])).
  assert (E : generateBannerPlan partialPlanEnv sampleRequest freshWorld =
              (Returned partialPlan,
               mkWorld true [mkRequest "gemini-2.5-flash" (planPrompt sampleRequest) None]))
    by (vm_compute; reflexivity).
  specialize (H E). vm_compute in H. discriminate H.
Qed.

(** * Further properties of the editor *)

(** ** The history under every action *)

Lemma lookup_last_snoc {A} (l : list A) (e : A) :
  (l ++ [e]) !! (length (l ++ [e]) - 1)%nat = Some e.
Proof.
  rewrite length_app. simpl.
  replace (length l + 1 - 1)%nat with (length l + 0)%nat by lia.
  rewrite lookup_app_r by lia.
  replace (length l + 0 - length l)%nat with 0%nat by lia. reflexivity.
Qed.

(** What [saveToHistory] leaves behind, whatever the state it starts from. *)
Lemma saveToHistory_shape st els b :
  (length (history st) <= 20)%nat ->
  let st' := saveToHistory st els b in
  (1 <= length (history st') <= 20)%nat /\
  historyIndex st' = (length (history st') - 1)%nat /\
  history st' !! historyIndex st' = Some (snapshot els b) /\
  elements st' = elements st /\ bg st' = bg st /\
  selectedIds st' = selectedIds st /\ gesture st' = gesture st.
Proof.
  intros Hlen st'. unfold st', saveToHistory. simpl.
  set (L := take (S (historyIndex st)) (history st) ++ [snapshot els b]).
  assert (HL : (1 <= length L <= 21)%nat).
  { unfold L. rewrite length_app.
    change (length [snapshot els b]) with 1%nat.
    pose proof (length_take (history st) (S (historyIndex st))). lia. }
  assert (Hlast : L !! (length L - 1)%nat = Some (snapshot els b))
    by apply lookup_last_snoc.
  destruct (Nat.ltb_spec 20 (length L)) as [Hgt|Hle].
  - assert (Ht : length (tail L) = (length L - 1)%nat)
      by (destruct L; simpl; lia).
    rewrite Ht. split; [lia|]. split; [reflexivity|]. split; [|repeat split].
    rewrite lookup_tail.
    replace (S (length L - 1 - 1)) with (length L - 1)%nat by lia.
    exact Hlast.
  - split; [lia|]. split; [reflexivity|]. split; [exact Hlast | repeat split].
Qed.

Lemma saveToHistory_cursor st els b :
  (length (history st) <= 20)%nat -> cursor_ok (saveToHistory st els b).
Proof.
  intros Hlen. destruct (saveToHistory_shape st els b Hlen) as [H1 [H2 _]].
  split; [exact H1|]. rewrite H2. lia.
Qed.

Lemma undo_cursor st : cursor_ok st -> cursor_ok (undo st).
Proof.
  intros [Hlen Hidx]. unfold undo.
  destruct (Nat.ltb_spec 0 (historyIndex st)) as [Hpos|Hz].
  - destruct (history st !! (historyIndex st - 1)%nat) as [prev|] eqn:Hp.
    + split; [exact Hlen|]. simpl. lia.
    + split; assumption.
  - split; assumption.
Qed.

Lemma redo_cursor st : cursor_ok st -> cursor_ok (redo st).
Proof.
  intros [Hlen Hidx]. unfold redo.
  destruct (Nat.ltb_spec (historyIndex st) (length (history st) - 1)) as [Hlt|Hge].
  - destruct (history st !! (historyIndex st + 1)%nat) as [next|] eqn:Hn.
    + split; [exact Hlen|]. simpl. lia.
    + split; assumption.
  - split; assumption.
Qed.

Lemma handleMouseUp_cursor st : cursor_ok st -> cursor_ok (handleMouseUp st).
Proof.
  intros Hok. unfold handleMouseUp.
  match goal with
  | |- context [if ?c then saveToHistory st (elements st) (bg st) else st] =>
      destruct c
  end.
  - apply saveToHistory_cursor. destruct Hok as [[_ H] _]. exact H.
  - exact Hok.
Qed.

Lemma perform_cursor st a : cursor_ok st -> cursor_ok (perform st a).
Proof.
  intros Hok.
  assert (Hlen : (length (history st) <= 20)%nat) by (destruct Hok as [[_ H] _]; exact H).
  destruct a; simpl; try (apply saveToHistory_cursor; exact Hlen).
  - unfold changeZIndex. destruct (selectedIds st); [exact Hok|].
    apply saveToHistory_cursor. exact Hlen.
  - apply handleMouseUp_cursor. exact Hok.
  - apply undo_cursor. exact Hok.
  - apply redo_cursor. exact Hok.
Qed.

Lemma initEditor_cursor ar initialElements b :
  cursor_ok (initEditor ar initialElements b).
Proof. split; simpl; lia. Qed.

(** ** Undo and redo around an action *)

Lemma undo_saveToHistory st els b e :
  (length (history st) <= 20)%nat ->
  history st !! historyIndex st = Some e ->
  let st' := saveToHistory st els b in
  history (undo st') = history st' /\
  S (historyIndex (undo st')) = historyIndex st' /\
  scene (undo st') = scene_of_entry e.
Proof.
  intros Hlen He st'.
  destruct (saveToHistory_shape st els b Hlen) as [H1 [H2 _]].
  fold st' in H1, H2.
  assert (Hidx : (historyIndex st < length (history st))%nat)
    by (apply lookup_lt_Some in He; exact He).
  set (L := take (S (historyIndex st)) (history st) ++ [snapshot els b]).
  assert (HLe : L !! historyIndex st = Some e).
  { unfold L. rewrite lookup_app_l.
    - rewrite lookup_take_lt by lia. exact He.
    - rewrite length_take. lia. }
  assert (HLlen : length L = S (S (historyIndex st))).
  { unfold L. rewrite length_app, length_take.
    change (length [snapshot els b]) with 1%nat. lia. }
  assert (Hprev : history st' !! (historyIndex st' - 1)%nat = Some e /\
                  (0 < historyIndex st')%nat).
  { rewrite H2. unfold st', saveToHistory. simpl. fold L.
    destruct (Nat.ltb_spec 20 (length L)) as [Hgt|Hle].
    - assert (Ht : length (tail L) = S (historyIndex st))
        by (destruct L; simpl in *; lia).
      rewrite Ht. split; [|lia]. rewrite lookup_tail.
      replace (S (S (historyIndex st) - 1 - 1)) with (historyIndex st) by lia.
      exact HLe.
    - rewrite HLlen. split; [|lia].
      replace (S (S (historyIndex st)) - 1 - 1)%nat with (historyIndex st) by lia.
      exact HLe. }
  destruct Hprev as [Hprev Hpos].
  assert (Hu : undo st' =
               set_history (restore st' e) (history st') (historyIndex st' - 1)).
  { unfold undo. rewrite (proj2 (Nat.ltb_lt _ _) Hpos), Hprev. reflexivity. }
  rewrite Hu. split; [reflexivity|]. split; [|reflexivity].
  change (S (historyIndex st' - 1) = historyIndex st'). lia.
Qed.

Lemma redo_after_save st els b :
  redo (saveToHistory st els b) = saveToHistory st els b.
Proof.
  unfold redo.
  change (historyIndex (saveToHistory st els b))
    with (length (history (saveToHistory st els b)) - 1)%nat.
  rewrite Nat.ltb_irrefl. reflexivity.
Qed.

(** The state an action saves from, and the scene it saves. *)
Lemma perform_saves st a :
  commits_entry st a ->
  exists stm els,
    perform st a = saveToHistory stm els (bg st) /\
    history stm = history st /\ historyIndex stm = historyIndex st /\
    elements stm = els /\ bg stm = bg st.
Proof.
  intros Hc. destruct a; simpl in Hc; try contradiction;
    try (eexists; eexists; split; [reflexivity | repeat split]).
  simpl. unfold changeZIndex. destruct (selectedIds st) as [|id rest]; [congruence|].
  eexists; eexists; split; [reflexivity | repeat split].
Qed.

Lemma undo_after_action st a :
  cursor_ok st ->
  commits_entry st a ->
  exists e,
    history st !! historyIndex st = Some e /\
    scene (undo (perform st a)) = scene_of_entry e /\
    scene (redo (undo (perform st a))) = scene (perform st a).
Proof.
  intros [[_ Hlen] Hidx] Hc.
  destruct (lookup_lt_is_Some_2 _ _ Hidx) as [e He].
  exists e. split; [exact He|].
  destruct (perform_saves st a Hc) as [stm [els [-> [Hh [Hi [Hel Hbg]]]]]].
  assert (Hlen' : (length (history stm) <= 20)%nat) by (rewrite Hh; exact Hlen).
  assert (He' : history stm !! historyIndex stm = Some e) by (rewrite Hh, Hi; exact He).
  destruct (undo_saveToHistory stm els (bg st) e Hlen' He') as [U1 [U2 U3]].
  destruct (saveToHistory_shape stm els (bg st) Hlen') as [S1 [S2 [S3 [S4 [S5 _]]]]].
  split; [exact U3|].
  set (st' := saveToHistory stm els (bg st)) in *.
  unfold redo. rewrite U1.
  assert (Hlt : (historyIndex (undo st') <? length (history st') - 1)%nat = true)
    by (apply Nat.ltb_lt; lia).
  rewrite Hlt.
  replace (historyIndex (undo st') + 1)%nat with (historyIndex st') by lia.
  rewrite S3. unfold scene at 1. simpl.
  unfold scene. rewrite S4, S5, Hel, Hbg. destruct (bg st); reflexivity.
Qed.

(** X2: in a state whose cursor is on a history entry, after any single
    action that pushes an entry, [undo] puts back the scene (elements and
    background) recorded in the entry the cursor was on, which is the scene
    that was on screen whenever screen and entry agreed, and [redo] then
    brings back the scene the action produced.  On first open the entry
    holds the elements as they were passed in: that is the scene [undo]
    puts back after a first action. *)
Theorem undo_reverts_action st a :
  cursor_ok st ->
  commits_entry st a ->
  (exists e,
     history st !! historyIndex st = Some e /\
     scene (undo (perform st a)) = scene_of_entry e /\
     (scene st = scene_of_entry e -> scene (undo (perform st a)) = scene st)) /\
  scene (redo (undo (perform st a))) = scene (perform st a) /\
  (forall ar initialElements b,
     st = initEditor ar initialElements b ->
     scene (undo (perform st a)) = (initialElements, b)).
Proof.
  intros Hok Hc.
  destruct (undo_after_action st a Hok Hc) as [e [He [Hu Hr]]].
  split; [|split; [exact Hr|]].
  - exists e. split; [exact He|]. split; [exact Hu|].
    intros Hs. rewrite Hu. symmetry. exact Hs.
  - intros ar initialElements b ->. rewrite Hu.
    simpl in He. injection He as <-. apply scene_of_snapshot.
Qed.

Lemma undo_reverts_action_witness :
  cursor_ok (initEditor R1_1 [plainText] whiteBg) /\
  elements (initEditor R1_1 [plainText] whiteBg)
    = [set_scale plainText (Some 1%Q) (Some 1%Q)] /\
  scene (undo (perform (initEditor R1_1 [plainText] whiteBg) (DoFlip FlipH)))
    = ([plainText], whiteBg).
Proof.
  split; [apply initEditor_cursor|]. split; [reflexivity|].
  exact (proj2 (proj2 (undo_reverts_action (initEditor R1_1 [plainText] whiteBg)
                         (DoFlip FlipH) (initEditor_cursor _ _ _) I))
           R1_1 [plainText] whiteBg eq_refl).
Defined.

(** X3: an action that pushes a history entry leaves the cursor on the
    last entry, so a following [redo] changes nothing: whatever had been
    undone before the action can no longer be redone. *)
Theorem redo_after_action_is_noop st a :
  commits_entry st a ->
  redo (perform st a) = perform st a /\
  historyIndex (perform st a) = (length (history (perform st a)) - 1)%nat.
Proof.
  intros Hc. destruct (perform_saves st a Hc) as [stm [els [-> _]]].
  split; [apply redo_after_save | reflexivity].
Qed.

Lemma redo_after_action_is_noop_witness :
  redo (perform (undo (perform twoSelected DoDeleteSelected)) (DoFlip FlipH))
  = perform (undo (perform twoSelected DoDeleteSelected)) (DoFlip FlipH).
Proof.
  exact (proj1 (redo_after_action_is_noop
                  (undo (perform twoSelected DoDeleteSelected)) (DoFlip FlipH) I)).
Defined.

(** ** Delete, lock, flip and align *)

Lemma lookup_map {A B} (f : A -> B) (l : list A) i :
  map f l !! i = f <$> (l !! i).
Proof. change (map f l) with (f <$> l). apply list_lookup_fmap. Qed.

(** X4: [deleteSelected] removes exactly the elements whose id is selected,
    locked or not, keeps the others in their order, and clears the
    selection. *)
Theorem deleteSelected_removes_selection st :
  let st' := deleteSelected st in
  selectedIds st' = [] /\
  (forall el, In el (elements st') <->
              In el (elements st) /\ includes (selectedIds st) (el_id el) = false) /\
  (forall el, In el (elements st) -> truthy (el_locked el) = true ->
              includes (selectedIds st) (el_id el) = true ->
              ~ In el (elements st')) /\
  sublist (elements st') (elements st).
Proof.
  intros st'. split; [reflexivity|].
  assert (Hin : forall el, In el (elements st') <->
              In el (elements st) /\ includes (selectedIds st) (el_id el) = false).
  { intros el. unfold st', deleteSelected. simpl. rewrite filter_In.
    rewrite negb_true_iff. reflexivity. }
  split; [exact Hin|]. split.
  - intros el _ _ Hsel Hel. apply Hin in Hel as [_ Hel]. congruence.
  - unfold st', deleteSelected. simpl.
    generalize (elements st). intros l. induction l as [|a l IH]; simpl.
    + constructor.
    + destruct (negb (includes (selectedIds st) (el_id a)));
        [apply sublist_skip | apply sublist_cons]; exact IH.
Qed.

Lemma deleteSelected_removes_selection_witness :
  truthy (el_locked (sampleText "a" 10 10 10 (Some true))) = true /\
  elements (deleteSelected lockedSelected) = [].
Proof.
  split; [reflexivity|].
  destruct (deleteSelected_removes_selection lockedSelected) as [_ [Hin _]].
  destruct (elements (deleteSelected lockedSelected)) as [|el l] eqn:E;
    [reflexivity|].
  assert (H : In el (el :: l)) by (left; reflexivity).
  apply Hin in H as [H1 H2]. simpl in H1. destruct H1 as [<-|[]].
  discriminate H2.
Defined.

Lemma elements_toggleLock st :
  elements (toggleLock st) =
    map (fun el => if includes (selectedIds st) (el_id el)
                   then set_locked el (Some (negb (truthy (el_locked el))))
                   else el)
        (elements st).
Proof. reflexivity. Qed.

(** X5: [toggleLock] inverts the lock of every selected element and
    changes nothing else; toggling twice gives every element its lock
    back; and once a selection without locked elements has been locked,
    [updateSelected] changes no element. *)
Theorem toggleLock_inverts_lock st :
  let st1 := toggleLock st in
  let st2 := toggleLock st1 in
  selectedIds st1 = selectedIds st /\
  (forall i el, elements st !! i = Some el ->
     exists el1 el2,
       elements st1 !! i = Some el1 /\ elements st2 !! i = Some el2 /\
       set_locked el1 (el_locked el) = el /\
       set_locked el2 (el_locked el) = el /\
       truthy (el_locked el1) =
         (if includes (selectedIds st) (el_id el)
          then negb (truthy (el_locked el)) else truthy (el_locked el)) /\
       truthy (el_locked el2) = truthy (el_locked el)) /\
  ((forall el, In el (elements st) -> includes (selectedIds st) (el_id el) = true ->
               truthy (el_locked el) = false) ->
   forall updates, elements (updateSelected st1 updates) = elements st1).
Proof.
  intros st1 st2. split; [reflexivity|]. split.
  - intros i el Hi.
    unfold st2, st1. rewrite (elements_toggleLock (toggleLock st)).
    change (selectedIds (toggleLock st)) with (selectedIds st).
    rewrite elements_toggleLock, !lookup_map, Hi. simpl.
    eexists. eexists. split; [reflexivity|]. split; [reflexivity|].
    destruct el as [i0 t c x0 y0 w h r sx sy g lk s]. simpl.
    destruct (includes (selectedIds st) i0) eqn:Hs; simpl; rewrite ?Hs; simpl.
    + repeat split. destruct lk as [[|]|]; reflexivity.
    + repeat split.
  - intros Hun updates. rewrite elements_updateSelected.
    rewrite <- (map_id (elements st1)) at 2. apply map_ext_in.
    intros el1 Hin. unfold st1 in Hin. rewrite elements_toggleLock in Hin.
    apply in_map_iff in Hin as [el [<- Hin]].
    change (selectedIds st1) with (selectedIds st).
    destruct (includes (selectedIds st) (el_id el)) eqn:Hs.
    + apply updateOne_locked. simpl. rewrite (Hun el Hin Hs). reflexivity.
    + apply updateOne_unselected. exact Hs.
Qed.

Lemma toggleLock_inverts_lock_witness :
  elements (updateSelected (toggleLock twoSelected) movePatch)
  = elements (toggleLock twoSelected).
Proof.
  apply (proj2 (proj2 (toggleLock_inverts_lock twoSelected))).
  intros el Hin _. simpl in Hin. destruct Hin as [<-|[<-|[]]]; reflexivity.
Defined.

Lemma num_or_nonzero v d : ~ (v == 0)%Q -> num_or v d = v.
Proof.
  intros H. unfold num_or. destruct (Qeq_bool v 0) eqn:E; [|reflexivity].
  apply Qeq_bool_iff in E. contradiction.
Qed.

Lemma num_or_1_nonzero v : ~ (num_or v 1 == 0)%Q.
Proof.
  unfold num_or. destruct (Qeq_bool v 0) eqn:E.
  - intros H. discriminate H.
  - intros H. apply Qeq_bool_iff in H. congruence.
Qed.

Lemma opt_num_or_1_nonzero o : ~ (opt_num_or o 1 == 0)%Q.
Proof.
  destruct o as [v|]; simpl; [apply num_or_1_nonzero|]. intros H. discriminate H.
Qed.

Lemma elements_flip st dir :
  elements (flip st dir) = map (flipOne (selectedIds st) dir) (elements st).
Proof. reflexivity. Qed.

(** The scale factor in force along an axis: [el.scaleX || 1]. *)
Lemma flipOne_twice sel dir el :
  let el2 := flipOne sel dir (flipOne sel dir el) in
  set_scale el2 (el_scaleX el) (el_scaleY el) = el /\
  (opt_num_or (el_scaleX el2) 1 == opt_num_or (el_scaleX el) 1)%Q /\
  (opt_num_or (el_scaleY el2) 1 == opt_num_or (el_scaleY el) 1)%Q.
Proof.
  unfold flipOne. destruct (includes sel (el_id el)) eqn:Hs; simpl; rewrite Hs; simpl.
  - pose proof (opt_num_or_1_nonzero (el_scaleX el)) as Hx.
    pose proof (opt_num_or_1_nonzero (el_scaleY el)) as Hy.
    set (sx := opt_num_or (el_scaleX el) 1) in *.
    set (sy := opt_num_or (el_scaleY el) 1) in *.
    split; [destruct el; reflexivity|].
    destruct dir.
    + rewrite (num_or_nonzero (sx * -1)) by (intros H; apply Hx; lra).
      rewrite (num_or_nonzero (sx * -1 * -1)) by (intros H; apply Hx; lra).
      rewrite !(num_or_nonzero sy) by exact Hy.
      split; [lra | reflexivity].
    + rewrite (num_or_nonzero (sy * -1)) by (intros H; apply Hy; lra).
      rewrite (num_or_nonzero (sy * -1 * -1)) by (intros H; apply Hy; lra).
      rewrite !(num_or_nonzero sx) by exact Hx.
      split; [reflexivity | lra].
  - split; [destruct el; reflexivity|]. split; reflexivity.
Qed.

(** X6: [flip] leaves every unselected element exactly as it was.  On a
    selected element it sets the scale factor along the chosen axis to the
    negated factor and the other one to the factor itself, an unset or zero
    factor being read as 1, and keeps every other field; flipping twice
    along the same axis leaves it with scale factors equal to the ones it
    had, read the same way. *)
Theorem flip_twice_restores st dir i el :
  elements st !! i = Some el ->
  exists el1 el2,
    elements (flip st dir) !! i = Some el1 /\
    elements (flip (flip st dir) dir) !! i = Some el2 /\
    (includes (selectedIds st) (el_id el) = false -> el1 = el /\ el2 = el) /\
    (includes (selectedIds st) (el_id el) = true ->
     set_scale el1 (el_scaleX el) (el_scaleY el) = el /\
     set_scale el2 (el_scaleX el) (el_scaleY el) = el /\
     el_scaleX el1 =
       Some (match dir with
             | FlipH => opt_num_or (el_scaleX el) 1 * -1
             | FlipV => opt_num_or (el_scaleX el) 1
             end)%Q /\
     el_scaleY el1 =
       Some (match dir with
             | FlipV => opt_num_or (el_scaleY el) 1 * -1
             | FlipH => opt_num_or (el_scaleY el) 1
             end)%Q /\
     exists sx sy,
       el_scaleX el2 = Some sx /\ el_scaleY el2 = Some sy /\
       (sx == opt_num_or (el_scaleX el) 1)%Q /\
       (sy == opt_num_or (el_scaleY el) 1)%Q).
Proof.
  intros Hi.
  rewrite (elements_flip (flip st dir)).
  change (selectedIds (flip st dir)) with (selectedIds st).
  rewrite elements_flip, !lookup_map, Hi. simpl.
  eexists. eexists. split; [reflexivity|]. split; [reflexivity|].
  destruct (flipOne_twice (selectedIds st) dir el) as [H1 [H2 H3]].
  split.
  - intros Hs. unfold flipOne. rewrite Hs. simpl. rewrite Hs. simpl.
    split; reflexivity.
  - intros Hs. split; [|split; [exact H1|]].
    { unfold flipOne. rewrite Hs. destruct el; reflexivity. }
    split; [unfold flipOne; rewrite Hs; reflexivity|].
    split; [unfold flipOne; rewrite Hs; reflexivity|].
    cbv zeta in H2, H3.
    unfold flipOne in *. simpl in *. rewrite Hs in *. simpl in *. rewrite Hs in *.
    simpl in *.
    eexists. eexists. split; [reflexivity|]. split; [reflexivity|].
    pose proof (opt_num_or_1_nonzero (el_scaleX el)) as Hx.
    pose proof (opt_num_or_1_nonzero (el_scaleY el)) as Hy.
    destruct dir.
    + rewrite (num_or_nonzero (_ * -1)) by (intros H; apply Hx; lra).
      rewrite (num_or_nonzero _ 1 Hy). split; [lra | reflexivity].
    + rewrite (num_or_nonzero (_ * -1)) by (intros H; apply Hy; lra).
      rewrite (num_or_nonzero _ 1 Hx). split; [reflexivity | lra].
Qed.

Lemma flip_twice_restores_witness :
  exists el1 el2,
    elements (flip twoSelected FlipH) !! 0%nat = Some el1 /\
    elements (flip (flip twoSelected FlipH) FlipH) !! 0%nat = Some el2 /\
    el_scaleX el1 = Some (1 * -1)%Q /\
    exists sx, el_scaleX el2 = Some sx /\ (sx == 1)%Q.
Proof.
  destruct (flip_twice_restores twoSelected FlipH 0 _ eq_refl)
    as [el1 [el2 [H1 [H2 [_ H]]]]].
  destruct (H eq_refl) as [_ [_ [Hx1 [_ [sx [sy [Hx2 [_ [Hq _]]]]]]]]].
  exists el1, el2. split; [exact H1|]. split; [exact H2|]. split; [exact Hx1|].
  exists sx. split; [exact Hx2 | exact Hq].
Defined.

Lemma elements_alignToPage st type :
  elements (alignToPage st type) =
    map (alignOne (selectedIds st) (getCanvasDimensions (aspectRatio st)) type)
        (elements st).
Proof. reflexivity. Qed.

(** What the callback of [alignToPage] does to one element. *)
Lemma alignOne_aligns sel dims type el :
  let el' := alignOne sel dims type el in
  set_xy el' (el_x el) (el_y el) = el /\
  alignOne sel dims type el' = el' /\
  (includes sel (el_id el) = false -> el' = el) /\
  (includes sel (el_id el) = true ->
   match type with
   | AlignLeft => el_x el' = 0%Q /\ el_y el' = el_y el
   | AlignCenter =>
       (el_x el' + el_width el' / 2 == fst dims / 2)%Q /\ el_y el' = el_y el
   | AlignRight =>
       (el_x el' + el_width el' == fst dims)%Q /\ el_y el' = el_y el
   | AlignTop => el_y el' = 0%Q /\ el_x el' = el_x el
   | AlignMiddle =>
       (el_y el' + el_height el' / 2 == snd dims / 2)%Q /\ el_x el' = el_x el
   | AlignBottom =>
       (el_y el' + el_height el' == snd dims)%Q /\ el_x el' = el_x el
   end).
Proof.
  unfold alignOne.
  destruct (includes sel (el_id el)) eqn:Hs; simpl; rewrite ?Hs; simpl.
  - split; [destruct el; reflexivity|]. split; [destruct type; reflexivity|].
    split; [discriminate|]. intros _.
    destruct type; simpl; split; try reflexivity; field.
  - split; [destruct el; reflexivity|]. split; [reflexivity|].
    split; [reflexivity | discriminate].
Qed.

(** X7: [alignToPage] puts every selected element, locked or not, against
    the chosen edge or on the chosen centre line of the page, moves it
    along one axis only, keeps its size, and leaves unselected elements
    alone; aligning a second time changes no element. *)
Theorem alignToPage_aligns st type i el :
  elements st !! i = Some el ->
  let dims := getCanvasDimensions (aspectRatio st) in
  exists el',
    elements (alignToPage st type) !! i = Some el' /\
    set_xy el' (el_x el) (el_y el) = el /\
    (includes (selectedIds st) (el_id el) = false -> el' = el) /\
    (includes (selectedIds st) (el_id el) = true ->
     match type with
     | AlignLeft => el_x el' = 0%Q /\ el_y el' = el_y el
     | AlignCenter =>
         (el_x el' + el_width el' / 2 == fst dims / 2)%Q /\ el_y el' = el_y el
     | AlignRight =>
         (el_x el' + el_width el' == fst dims)%Q /\ el_y el' = el_y el
     | AlignTop => el_y el' = 0%Q /\ el_x el' = el_x el
     | AlignMiddle =>
         (el_y el' + el_height el' / 2 == snd dims / 2)%Q /\ el_x el' = el_x el
     | AlignBottom =>
         (el_y el' + el_height el' == snd dims)%Q /\ el_x el' = el_x el
     end) /\
    elements (alignToPage (alignToPage st type) type)
      = elements (alignToPage st type).
Proof.
  intros Hi dims.
  destruct (alignOne_aligns (selectedIds st) dims type el) as [H1 [_ [H3 H4]]].
  eexists. split; [rewrite elements_alignToPage, lookup_map, Hi; reflexivity|].
  split; [exact H1|]. split; [exact H3|]. split; [exact H4|].
  rewrite (elements_alignToPage (alignToPage st type)).
  change (selectedIds (alignToPage st type)) with (selectedIds st).
  change (aspectRatio (alignToPage st type)) with (aspectRatio st).
  rewrite elements_alignToPage, map_map. apply map_ext. intros e.
  apply (alignOne_aligns (selectedIds st) _ type e).
Qed.

Lemma alignToPage_aligns_witness :
  exists el',
    elements (alignToPage lockedSelected AlignCenter) !! 0%nat = Some el' /\
    (el_x el' + el_width el' / 2 == 400)%Q.
Proof.
  destruct (alignToPage_aligns lockedSelected AlignCenter 0 _ eq_refl)
    as [el' [H1 [_ [_ [H4 _]]]]].
  exists el'. split; [exact H1|].
  destruct (H4 eq_refl) as [Hc _]. rewrite Hc. reflexivity.
Defined.

(** ** Adding an element *)

Lemma Qmax_ge_l a b : (a <= Qmax a b)%Q.
Proof.
  unfold Qmax. destruct (Qle_bool a b) eqn:E; [|apply Qle_refl].
  apply Qle_bool_iff. exact E.
Qed.

Lemma Qmax_ge_r a b : (b <= Qmax a b)%Q.
Proof.
  unfold Qmax. destruct (Qle_bool a b) eqn:E; [apply Qle_refl|].
  destruct (Qlt_le_dec b a) as [H|H]; [apply Qlt_le_weak; exact H|].
  apply Qle_bool_iff in H. congruence.
Qed.

Lemma Qmin_le_l a b : (Qmin a b <= a)%Q.
Proof.
  unfold Qmin. destruct (Qle_bool a b) eqn:E; [apply Qle_refl|].
  destruct (Qlt_le_dec b a) as [H|H]; [apply Qlt_le_weak; exact H|].
  apply Qle_bool_iff in H. congruence.
Qed.

Lemma Qmin_le_r a b : (Qmin a b <= b)%Q.
Proof.
  unfold Qmin. destruct (Qle_bool a b) eqn:E; [|apply Qle_refl].
  apply Qle_bool_iff. exact E.
Qed.

Lemma Qmin_glb a b c : (c <= a)%Q -> (c <= b)%Q -> (c <= Qmin a b)%Q.
Proof. intros Ha Hb. unfold Qmin. destruct (Qle_bool a b); assumption. Qed.

Lemma fold_max_ge (f : CanvasElement -> Q) els : forall m,
  (m <= fold_left (fun m el => Qmax m (f el)) els m)%Q /\
  forall el, In el els -> (f el <= fold_left (fun m el => Qmax m (f el)) els m)%Q.
Proof.
  induction els as [|a els IH]; intros m; simpl.
  - split; [apply Qle_refl | intros el []].
  - destruct (IH (Qmax m (f a))) as [H1 H2]. split.
    + eapply Qle_trans; [apply Qmax_ge_l | exact H1].
    + intros el [<-|Hin]; [|apply H2; exact Hin].
      eapply Qle_trans; [apply Qmax_ge_r | exact H1].
Qed.

(** [maxZ] bounds the z-index of every element, and is not negative. *)
Lemma maxZ_bounds els :
  (0 <= maxZ els)%Q /\
  forall el, In el els -> (opt_num_or (zIndex el) 0 <= maxZ els)%Q.
Proof. apply (fold_max_ge (fun el => opt_num_or (zIndex el) 0)). Qed.

Lemma zIndex_newElement now dims els type subType :
  zIndex (newElement now dims els type subType) = Some (maxZ els + 10)%Q.
Proof.
  destruct type; simpl; try reflexivity.
  destruct (is_subType subType "circle"); reflexivity.
Qed.

(** X8: [addElement] appends one element after the existing ones, which
    stay as they are, and selects it.  The new element is centred
    horizontally on the page, whatever its kind and the aspect ratio; its
    z-index is ten above the highest one in the scene, so that, the
    existing elements carrying numeric z-indices, the export paints it
    last. *)
Theorem addElement_on_top now st type subType :
  let st' := addElement now st type subType in
  let dims := getCanvasDimensions (aspectRatio st) in
  exists el,
    elements st' = elements st ++ [el] /\
    selectedIds st' = [el_id el] /\
    el_id el = ("new-" ++ AddType_to_string type ++ "-" ++ now)%string /\
    el_type el = AddType_to_ElType type /\
    (el_x el + el_width el / 2 == fst dims / 2)%Q /\
    zIndex el = Some (maxZ (elements st) + 10)%Q /\
    (forall e, In e (elements st) ->
       (opt_num_or (zIndex e) 0 < maxZ (elements st) + 10)%Q) /\
    (all_zIndexed (elements st) -> last (paintOrder (elements st')) = Some (el_id el)).
Proof.
  intros st' dims.
  set (el := newElement now dims (elements st) type subType).
  assert (Hz : zIndex el = Some (maxZ (elements st) + 10)%Q)
    by apply zIndex_newElement.
  assert (Hlt : forall e, In e (elements st) ->
            (opt_num_or (zIndex e) 0 < maxZ (elements st) + 10)%Q).
  { intros e He. pose proof (proj2 (maxZ_bounds (elements st)) e He). lra. }
  exists el. split; [reflexivity|]. split; [reflexivity|].
  split; [destruct type; reflexivity|]. split; [destruct type; reflexivity|].
  split; [destruct type; simpl; field|]. split; [exact Hz|]. split; [exact Hlt|].
  intros Hall. unfold paintOrder, sortedElements.
  change (elements st') with (elements st ++ [el]).
  destruct (sort_strict_max_last paint_cmp el (elements st) []) as [s Hs].
  - intros e He. rewrite app_nil_r in He.
    destruct (Hall e He) as [z Hze]. specialize (Hlt e He).
    unfold paint_cmp. rewrite Hz, Hze. rewrite Hze in Hlt. simpl in Hlt.
    pose proof (num_or_0 z) as Hnz. rewrite !Qle_bool_sub. split.
    + apply Qle_bool_iff. lra.
    + apply Qle_bool_lt_false. lra.
  - rewrite Hs, map_app. simpl. apply last_snoc.
Qed.

Lemma addElement_on_top_witness :
  all_zIndexed (elements (threeLayers [])) /\
  last (paintOrder (elements (addElement "1700000000000" (threeLayers [])
                                AddText (Some "heading"))))
  = Some "new-text-1700000000000".
Proof.
  split; [apply threeLayers_zIndexed|].
  destruct (addElement_on_top "1700000000000" (threeLayers []) AddText (Some "heading"))
    as [el [_ [_ [Hid [_ [_ [_ [_ Hlast]]]]]]]].
  rewrite (Hlast (threeLayers_zIndexed _)), Hid. reflexivity.
Defined.

(** ** Gestures and the history *)

Lemma handleMouseMove_keeps atan2deg st e rect :
  let st' := handleMouseMove atan2deg st e rect in
  history st' = history st /\ historyIndex st' = historyIndex st /\
  selectedIds st' = selectedIds st /\ zoomLevel st' = zoomLevel st /\
  aspectRatio st' = aspectRatio st.
Proof.
  cbv zeta. unfold handleMouseMove.
  destruct (isDraggingBg (gesture st)); [repeat split|].
  destruct (isResizingBg (gesture st)); [repeat split|].
  destruct (selectedIds st) eqn:E; cbv zeta; repeat split; exact E.
Qed.

Lemma moves_keep atan2deg ms : forall st,
  history (moves atan2deg st ms) = history st /\
  historyIndex (moves atan2deg st ms) = historyIndex st /\
  selectedIds (moves atan2deg st ms) = selectedIds st.
Proof.
  induction ms as [|m ms IH]; intros st; simpl; [repeat split|].
  destruct (IH (handleMouseMove atan2deg st (fst m) (snd m))) as [H1 [H2 H3]].
  destruct (handleMouseMove_keeps atan2deg st (fst m) (snd m)) as [K1 [K2 [K3 _]]].
  unfold moves in *. rewrite H1, H2, H3, K1, K2, K3. repeat split.
Qed.

Lemma handleMouseDown_keeps st e id action :
  let st' := handleMouseDown st e id action in
  elements st' = elements st /\ bg st' = bg st /\
  history st' = history st /\ historyIndex st' = historyIndex st.
Proof.
  cbv zeta. unfold handleMouseDown.
  destruct (match findEl id (elements st) with
            | Some el => truthy (el_locked el) | None => false end);
    [repeat split|].
  destruct (isEditingText (gesture st) && includes (selectedIds st) id && is_drag action);
    repeat split.
Qed.

(** X9: a gesture writes the history at its release only.  A press and any
    number of pointer moves leave the history and its cursor as they were;
    the release then either leaves them so or pushes the one entry
    [saveToHistory] makes of the scene on screen, which it does not change;
    after the release no gesture flag but text editing is set. *)
Theorem gesture_commits_on_release atan2deg st e id action ms :
  let st1 := moves atan2deg (handleMouseDown st e id action) ms in
  let st2 := handleMouseUp st1 in
  history st1 = history st /\ historyIndex st1 = historyIndex st /\
  scene st2 = scene st1 /\
  ((history st2 = history st /\ historyIndex st2 = historyIndex st) \/
   (history st2 = history (saveToHistory st (elements st1) (bg st1)) /\
    historyIndex st2 = historyIndex (saveToHistory st (elements st1) (bg st1)))) /\
  isDragging (gesture st2) = false /\ isResizing (gesture st2) = false /\
  isRotating (gesture st2) = false /\ potentialDrag (gesture st2) = false /\
  isDraggingBg (gesture st2) = false /\ isResizingBg (gesture st2) = false.
Proof.
  intros st1 st2.
  destruct (moves_keep atan2deg ms (handleMouseDown st e id action)) as [H1 [H2 _]].
  destruct (handleMouseDown_keeps st e id action) as [_ [_ [D1 D2]]].
  fold st1 in H1, H2. rewrite D1 in H1. rewrite D2 in H2.
  split; [exact H1|]. split; [exact H2|].
  unfold st2, handleMouseUp.
  match goal with
  | |- context [if ?c then saveToHistory st1 (elements st1) (bg st1) else st1] =>
      destruct c
  end; simpl.
  - split; [reflexivity|]. split; [right|repeat split].
    unfold saveToHistory. simpl. rewrite H1, H2. split; reflexivity.
  - split; [reflexivity|]. split; [left; split; assumption | repeat split].
Qed.

(** ** Limits kept by the gestures *)

Lemma Qmax_lub a b c : (a <= c)%Q -> (b <= c)%Q -> (Qmax a b <= c)%Q.
Proof. intros Ha Hb. unfold Qmax. destruct (Qle_bool a b); assumption. Qed.

(** X10: the background zoom stays within 0.5 and 5 under the wheel and
    under every pointer move, whatever the pointer does; and the wheel
    writes no history entry. *)
Theorem bgScale_stays_in_range atan2deg st deltaY e rect :
  bgScale_in_range (bg st) ->
  bgScale_in_range (bg (handleCanvasWheel st deltaY)) /\
  bgScale_in_range (bg (handleMouseMove atan2deg st e rect)) /\
  history (handleCanvasWheel st deltaY) = history st /\
  historyIndex (handleCanvasWheel st deltaY) = historyIndex st.
Proof.
  intros Hr. unfold bgScale_in_range in *. split; [|split].
  - unfold handleCanvasWheel.
    destruct (selectedIds st); [|exact Hr].
    destruct (is_image (bgType (bg st))); [|exact Hr].
    cbn [bg set_bg bgScale set_bg_scale]. split.
    + apply Qmin_glb; [apply Qmax_ge_l | discriminate].
    + apply Qmin_le_r.
  - unfold handleMouseMove.
    destruct (isDraggingBg (gesture st)); [exact Hr|].
    destruct (isResizingBg (gesture st)).
    + cbn [bg set_bg bgScale set_bg_scale]. split; [apply Qmax_ge_l|].
      apply Qmax_lub; [discriminate | apply Qmin_le_l].
    + destruct (selectedIds st); exact Hr.
  - unfold handleCanvasWheel.
    destruct (selectedIds st); [|split; reflexivity].
    destruct (is_image (bgType (bg st))); split; reflexivity.
Qed.

Lemma bgScale_stays_in_range_witness :
  bgScale_in_range (bg (set_bg (threeLayers []) (mkBg BgImage "bg.png" 1 1 0 0))) /\
  bgScale_in_range
    (bg (handleCanvasWheel (set_bg (threeLayers []) (mkBg BgImage "bg.png" 1 1 0 0))
                           (-100000))).
Proof.
  assert (H : bgScale_in_range
                (bg (set_bg (threeLayers []) (mkBg BgImage "bg.png" 1 1 0 0)))).
  { split; discriminate. }
  split; [exact H|].
  exact (proj1 (bgScale_stays_in_range (fun _ _ => 0%Q) _ (-100000)
                  (mkMouse 0 0 false) None H)).
Defined.

Lemma rotateStep_sizes atan2deg st e rect prev item' :
  In item' (rotateStep atan2deg st e rect prev) ->
  exists item, In item prev /\ el_id item' = el_id item /\
               el_width item' = el_width item /\ el_height item' = el_height item.
Proof.
  unfold rotateStep. intros Hin.
  destruct (selectedIds st) as [|id [|? ?]]; eauto.
  destruct (findEl id (elements st)); eauto.
  destruct rect as [[rleft rtop]|]; eauto.
  apply in_map_iff in Hin as [item [<- Hin]].
  exists item. split; [exact Hin|].
  destruct (String.eqb (el_id item) id); repeat split.
Qed.

(** X11: while an element is being resized, each pointer move leaves it at
    least 20 units wide and 20 units high, however far the pointer has
    gone back past its start. *)
Theorem resize_keeps_minimum_size atan2deg st e rect id el start :
  isDraggingBg (gesture st) = false ->
  isResizingBg (gesture st) = false ->
  isResizing (gesture st) = true ->
  selectedIds st = [id] ->
  findEl id (elements st) = Some el ->
  elementsStart (gesture st) !! id = Some start ->
  forall item, In item (elements (handleMouseMove atan2deg st e rect)) ->
    el_id item = id ->
    (20 <= el_width item)%Q /\ (20 <= el_height item)%Q.
Proof.
  intros Hb1 Hb2 Hr Hsel Hf Hs item Hin Hid.
  unfold handleMouseMove in Hin. rewrite Hb1, Hb2, Hsel, Hr in Hin.
  cbv zeta in Hin. simpl in Hin.
  set (dx := ((clientX e - (dragStart (gesture st)).1) / zoomLevel st)%Q) in *.
  set (dy := ((clientY e - (dragStart (gesture st)).2) / zoomLevel st)%Q) in *.
  set (els1 := if isDragging (gesture st)
               then map (dragOne st dx dy) (elements st) else elements st) in *.
  assert (Hres : forall it, In it (resizeStep st dx dy els1) -> el_id it = id ->
            (20 <= el_width it)%Q /\ (20 <= el_height it)%Q).
  { intros it Hit Hitid. unfold resizeStep in Hit. rewrite Hsel, Hf, Hs in Hit.
    apply in_map_iff in Hit as [it0 [<- Hit0]].
    destruct (String.eqb_spec (el_id it0) id) as [Heq|Hne].
    - simpl. split; apply Qmax_ge_l.
    - contradiction. }
  destruct (isRotating (gesture st)).
  - apply rotateStep_sizes in Hin as [it [Hit [E1 [E2 E3]]]].
    rewrite E2, E3. apply Hres; [exact Hit | congruence].
  - apply Hres; assumption.
Qed.

Lemma resize_keeps_minimum_size_witness :
  Forall (fun item => el_id item = "a" ->
                      (20 <= el_width item)%Q /\ (20 <= el_height item)%Q)
         (elements (handleMouseMove (fun _ _ => 0%Q) resizing
                      (mkMouse (-5000) (-5000) false) None)).
Proof.
  apply Forall_forall. intros item Hin Hid.
  apply (resize_keeps_minimum_size (fun _ _ => 0%Q) resizing
           (mkMouse (-5000) (-5000) false) None "a"
           (sampleText "a" 10 10 10 None) (sampleText "a" 10 10 10 None)
           eq_refl eq_refl eq_refl eq_refl eq_refl eq_refl item);
    [|exact Hid].
  apply list_elem_of_In. exact Hin.
Defined.

(** ** Selecting with the pointer *)

Lemma includes_app l1 l2 j : includes (l1 ++ l2) j = includes l1 j || includes l2 j.
Proof. unfold includes. apply existsb_app. Qed.

Lemma includes_filter_ne l id j :
  includes (List.filter (fun sid => negb (String.eqb sid id)) l) j
  = includes l j && negb (String.eqb j id).
Proof.
  induction l as [|a l IH]; simpl; [reflexivity|].
  destruct (String.eqb a id) eqn:Ea; simpl.
  - rewrite IH. apply String.eqb_eq in Ea. rewrite Ea.
    destruct (String.eqb j id); simpl; [rewrite !andb_false_r|]; reflexivity.
  - rewrite IH. destruct (String.eqb j a) eqn:Eja; simpl; [|reflexivity].
    apply String.eqb_eq in Eja. rewrite Eja, Ea. reflexivity.
Qed.

(** X12: a press on an element that is not locked, outside text editing,
    sets the selection as follows.  With shift held the pressed element
    changes sides (it leaves the selection if it was in it and joins it
    otherwise) and every other element keeps its side; without shift an
    unselected element becomes the whole selection and a selected one
    leaves the selection as it is. *)
Theorem handleMouseDown_selects st e id action :
  match findEl id (elements st) with
  | Some el => truthy (el_locked el) = false
  | None => True
  end ->
  isEditingText (gesture st) = false ->
  let sel := selectedIds st in
  let sel' := selectedIds (handleMouseDown st e id action) in
  (shiftKey e = true ->
   forall j, includes sel' j =
             if String.eqb j id then negb (includes sel id) else includes sel j) /\
  (shiftKey e = false -> includes sel id = false -> sel' = [id]) /\
  (shiftKey e = false -> includes sel id = true -> sel' = sel).
Proof.
  intros Hl He sel sel'.
  assert (E : sel' =
    if shiftKey e then
      if includes sel id
      then List.filter (fun sid => negb (String.eqb sid id)) sel
      else sel ++ [id]
    else if negb (includes sel id) then [id] else sel).
  { unfold sel', handleMouseDown.
    destruct (findEl id (elements st)) as [el|]; [rewrite Hl|];
      rewrite He; reflexivity. }
  rewrite E. split; [|split].
  - intros Hs j. rewrite Hs.
    destruct (includes sel id) eqn:Hin.
    + rewrite includes_filter_ne.
      destruct (String.eqb_spec j id) as [->|Hj]; simpl.
      * apply andb_false_r.
      * apply andb_true_r.
    + rewrite includes_app. simpl.
      destruct (String.eqb_spec j id) as [->|Hj]; simpl.
      * rewrite Hin. reflexivity.
      * rewrite !orb_false_r. reflexivity.
  - intros Hs Hin. rewrite Hs, Hin. reflexivity.
  - intros Hs Hin. rewrite Hs, Hin. reflexivity.
Qed.

Lemma handleMouseDown_selects_witness :
  selectedIds (handleMouseDown
                 (handleMouseDown twoSelected (mkMouse 0 0 true) "a" Drag)
                 (mkMouse 0 0 false) "a" Drag) = ["a"].
Proof.
  apply (proj1 (proj2 (handleMouseDown_selects
           (handleMouseDown twoSelected (mkMouse 0 0 true) "a" Drag)
           (mkMouse 0 0 false) "a" Drag eq_refl eq_refl)));
    reflexivity.
Defined.

(** ** Click to edit *)

(** The state between a press on [id] at [p] and the release, as long as
    the pointer stays within the click tolerance. *)
Lemma moves_within_click atan2deg id p els ms : forall st,
  Forall (fun m => within_click (zoomLevel st) p (fst m)) ms ->
  elements st = els -> selectedIds st = [id] ->
  isDragging (gesture st) = false -> isResizing (gesture st) = false ->
  isRotating (gesture st) = false -> isDraggingBg (gesture st) = false ->
  isResizingBg (gesture st) = false -> potentialDrag (gesture st) = true ->
  dragStart (gesture st) = p ->
  let st' := moves atan2deg st ms in
  elements st' = els /\ selectedIds st' = [id] /\
  gesture st' = gesture st.
Proof.
  induction ms as [|m ms IH]; intros st Hms Hel Hsel H1 H2 H3 H4 H5 H6 H7;
    simpl; [repeat split; assumption|].
  inversion Hms as [|? ? [Hx Hy] Hms']; subst.
  assert (Hstep : handleMouseMove atan2deg st (fst m) (snd m) = st).
  { unfold handleMouseMove. rewrite H4, H5, Hsel, H1, H2, H3, H6. cbv zeta.
    assert (Hx' : Qltb 2 (Qabs ((clientX m.1 - (dragStart (gesture st)).1) / zoomLevel st)) = false).
    { unfold Qltb. apply negb_false_iff, Qle_bool_iff. exact Hx. }
    assert (Hy' : Qltb 2 (Qabs ((clientY m.1 - (dragStart (gesture st)).2) / zoomLevel st)) = false).
    { unfold Qltb. apply negb_false_iff, Qle_bool_iff. exact Hy. }
    rewrite Hx', Hy'. simpl. destruct st; reflexivity. }
  unfold moves in *. rewrite Hstep. apply IH; auto.
Qed.

(** The release of a press that never became a drag, on an unlocked text
    element selected alone. *)
Lemma handleMouseUp_click st id el :
  selectedIds st = [id] ->
  findEl id (elements st) = Some el ->
  truthy (el_locked el) = false ->
  is_text (el_type el) = true ->
  potentialDrag (gesture st) = true ->
  isDraggingBg (gesture st) = false ->
  isResizingBg (gesture st) = false ->
  let st' := handleMouseUp st in
  isEditingText (gesture st') = true /\ selectedIds st' = [id] /\
  elements st' = elements st /\
  history st' = history st /\ historyIndex st' = historyIndex st.
Proof.
  intros Hsel Hf Hl Ht Hp Hb1 Hb2. cbv zeta. unfold handleMouseUp.
  rewrite Hsel, Hf, Ht, Hl, Hp, Hb1, Hb2. simpl. repeat split. exact Hsel.
Qed.

(** X13: a plain press on an unlocked text or call-to-action element that
    was not selected, followed by pointer moves that all stay within two
    page units of the press and by a release, opens the text of that
    element for editing: the element is the whole selection, no element
    has moved and nothing has been written to the history. *)
Theorem click_opens_text_editing atan2deg st e id el ms :
  idle (gesture st) ->
  findEl id (elements st) = Some el ->
  truthy (el_locked el) = false ->
  is_text (el_type el) = true ->
  shiftKey e = false ->
  includes (selectedIds st) id = false ->
  Forall (fun m => within_click (zoomLevel st) (clientX e, clientY e) (fst m)) ms ->
  let st' := handleMouseUp (moves atan2deg (handleMouseDown st e id Drag) ms) in
  isEditingText (gesture st') = true /\
  selectedIds st' = [id] /\
  elements st' = elements st /\
  history st' = history st /\ historyIndex st' = historyIndex st.
Proof.
  intros [I1 [I2 [I3 [I4 [I5 [I6 I7]]]]]] Hf Hl Ht Hs Hin Hms st'.
  set (st1 := handleMouseDown st e id Drag).
  assert (E1 : st1 = set_gesture (set_selectedIds st [id])
                 (set_starts (set_flags (gesture st) false false false false true)
                    (clientX e, clientY e)
                    (<[id := el]> ∅))).
  { unfold st1, handleMouseDown. rewrite Hf, Hl, I4, Hs, Hin, I1, I2, I3. simpl.
    rewrite Hf. reflexivity. }
  assert (Hz : zoomLevel st1 = zoomLevel st) by (rewrite E1; reflexivity).
  assert (M : elements (moves atan2deg st1 ms) = elements st /\
              selectedIds (moves atan2deg st1 ms) = [id] /\
              gesture (moves atan2deg st1 ms) = gesture st1).
  { apply (moves_within_click atan2deg id (clientX e, clientY e));
      try (rewrite E1; reflexivity); rewrite E1; simpl; assumption. }
  destruct M as [M1 [M2 M3]].
  destruct (moves_keep atan2deg ms st1) as [K1 [K2 _]].
  assert (Hh : history st1 = history st /\ historyIndex st1 = historyIndex st)
    by (rewrite E1; split; reflexivity).
  destruct (handleMouseUp_click (moves atan2deg st1 ms) id el)
    as [U1 [U2 [U3 [U4 U5]]]];
    try assumption.
  - rewrite M1. exact Hf.
  - rewrite M3, E1. reflexivity.
  - rewrite M3, E1. simpl. exact I6.
  - rewrite M3, E1. simpl. exact I7.
  - unfold st'. fold st1. rewrite U1, U2, U3, U4, U5, M1, K1, K2.
    destruct Hh as [-> ->]. repeat split.
Qed.

Lemma click_opens_text_editing_witness :
  isEditingText
    (gesture (handleMouseUp
                (moves (fun _ _ => 0%Q)
                       (handleMouseDown (threeLayers []) (mkMouse 100 100 false) "a" Drag)
                       [(mkMouse 101 100 false, None)]))) = true.
Proof.
  apply (click_opens_text_editing (fun _ _ => 0%Q) (threeLayers [])
           (mkMouse 100 100 false) "a" (sampleText "a" 10 10 30 None)
           [(mkMouse 101 100 false, None)]);
    try reflexivity.
  - repeat split.
  - constructor; [|constructor]. split; simpl; discriminate.
Defined.

(** ** Dragging *)

Lemma dragOne_absorbs st deltaX deltaY dx dy el :
  dragOne st deltaX deltaY (dragOne st dx dy el) = dragOne st deltaX deltaY el.
Proof.
  unfold dragOne.
  destruct (includes (selectedIds st) (el_id el)) eqn:Hs; simpl; rewrite ?Hs;
    [|reflexivity].
  destruct (elementsStart (gesture st) !! el_id el) as [start|] eqn:Hst; simpl;
    rewrite ?Hs, ?Hst; reflexivity.
Qed.

Lemma dragOne_reads st st' deltaX deltaY el :
  selectedIds st' = selectedIds st ->
  elementsStart (gesture st') = elementsStart (gesture st) ->
  aspectRatio st' = aspectRatio st ->
  dragOne st' deltaX deltaY el = dragOne st deltaX deltaY el.
Proof. intros H1 H2 H3. unfold dragOne. rewrite H1, H2, H3. reflexivity. Qed.

Lemma handleMouseMove_dragging atan2deg st e rect :
  dragging (gesture st) ->
  selectedIds st <> [] ->
  let st' := handleMouseMove atan2deg st e rect in
  elements st' =
    map (dragOne st ((clientX e - fst (dragStart (gesture st))) / zoomLevel st)%Q
                    ((clientY e - snd (dragStart (gesture st))) / zoomLevel st)%Q)
        (elements st) /\
  dragging (gesture st') /\
  elementsStart (gesture st') = elementsStart (gesture st) /\
  dragStart (gesture st') = dragStart (gesture st).
Proof.
  intros [D1 [D2 [D3 [D4 D5]]]] Hsel. cbv zeta. unfold handleMouseMove.
  rewrite D4, D5, D1, D2, D3.
  destruct (selectedIds st) as [|s l]; [congruence|]. cbv zeta.
  split; [reflexivity|].
  destruct (potentialDrag (gesture st) && _); simpl; repeat split; assumption.
Qed.

(** X14: during a drag the elements follow the pointer from the positions
    recorded at the press, not from where the last move left them: two
    moves in a row give the very elements of the last move alone.  An
    element of a selection of several, with a recorded start, sits at its
    start position plus the pointer travel divided by the zoom level, with
    every other field as it was. *)
Theorem drag_follows_pointer atan2deg st e1 rect1 e2 rect2 :
  dragging (gesture st) ->
  selectedIds st <> [] ->
  elements (handleMouseMove atan2deg (handleMouseMove atan2deg st e1 rect1) e2 rect2)
    = elements (handleMouseMove atan2deg st e2 rect2) /\
  (forall el start,
     In el (elements st) ->
     includes (selectedIds st) (el_id el) = true ->
     elementsStart (gesture st) !! el_id el = Some start ->
     (length (selectedIds st) <> 1)%nat ->
     In (set_xy el
           (num_or (el_x start) 0
            + (clientX e2 - fst (dragStart (gesture st))) / zoomLevel st)%Q
           (num_or (el_y start) 0
            + (clientY e2 - snd (dragStart (gesture st))) / zoomLevel st)%Q)
        (elements (handleMouseMove atan2deg st e2 rect2))).
Proof.
  intros Hd Hsel.
  destruct (handleMouseMove_dragging atan2deg st e1 rect1 Hd Hsel)
    as [E1 [Hd1 [Hs1 Hp1]]].
  destruct (handleMouseMove_keeps atan2deg st e1 rect1) as [_ [_ [K3 [K4 K5]]]].
  destruct (handleMouseMove_dragging atan2deg st e2 rect2 Hd Hsel) as [E2 _].
  set (st1 := handleMouseMove atan2deg st e1 rect1) in *.
  destruct (handleMouseMove_dragging atan2deg st1 e2 rect2 Hd1) as [E12 _];
    [rewrite K3; exact Hsel|].
  split.
  - rewrite E12, E2, E1, map_map, Hp1, K4. apply map_ext. intros el.
    rewrite (dragOne_reads st st1) by assumption.
    apply dragOne_absorbs.
  - intros el start Hin Hinc Hst Hlen. rewrite E2.
    apply in_map_iff. exists el. split; [|exact Hin].
    unfold dragOne. rewrite Hinc, Hst. simpl.
    destruct (Nat.eqb_spec (length (selectedIds st)) 1) as [Heq|_];
      [contradiction|reflexivity].
Qed.

Lemma draggingA_dragging : dragging (gesture draggingA).
Proof. repeat split. Qed.

Lemma drag_follows_pointer_witness :
  elements (handleMouseMove (fun _ _ => 0%Q)
              (handleMouseMove (fun _ _ => 0%Q) draggingA (mkMouse 400 90 false) None)
              (mkMouse 160 100 false) None)
  = elements (handleMouseMove (fun _ _ => 0%Q) draggingA (mkMouse 160 100 false) None).
Proof.
  apply (drag_follows_pointer (fun _ _ => 0%Q) draggingA
           (mkMouse 400 90 false) None (mkMouse 160 100 false) None
           draggingA_dragging).
  discriminate.
Defined.

Lemma Qltb_lt a b : (a < b)%Q -> Qltb a b = true.
Proof.
  intros H. unfold Qltb. apply negb_true_iff.
  destruct (Qle_bool b a) eqn:Eb; [|reflexivity].
  apply Qle_bool_iff in Eb. exfalso.
  eapply Qlt_irrefl, Qlt_le_trans; [exact H | exact Eb].
Qed.

(** The drag callback on the only selected element. *)
Lemma dragOne_single st deltaX deltaY id el start :
  selectedIds st = [id] -> el_id el = id ->
  elementsStart (gesture st) !! id = Some start ->
  let dims := getCanvasDimensions (aspectRatio st) in
  let newX := (num_or (el_x start) 0 + deltaX)%Q in
  let newY := (num_or (el_y start) 0 + deltaY)%Q in
  dragOne st deltaX deltaY el =
    set_xy el
      (if Qltb (Qabs (newX + el_width el / 2 - fst dims / 2)) SNAP_THRESHOLD
       then (fst dims / 2 - el_width el / 2)%Q else newX)
      (if Qltb (Qabs (newY + el_height el / 2 - snd dims / 2)) SNAP_THRESHOLD
       then (snd dims / 2 - el_height el / 2)%Q else newY).
Proof.
  intros Hsel Hid Hst. cbv zeta. unfold dragOne.
  rewrite Hid, Hsel, Hst.
  assert (Hinc : includes [id] id = true)
    by (unfold includes; simpl; rewrite String.eqb_refl; reflexivity).
  rewrite Hinc. reflexivity.
Qed.

(** X15: while a single element is dragged, a move that brings its centre
    within ten units of the vertical centre line of the page puts the
    centre exactly on that line, and likewise for the horizontal centre
    line. *)
Theorem drag_snaps_to_center atan2deg st e rect id el start :
  dragging (gesture st) ->
  selectedIds st = [id] ->
  In el (elements st) -> el_id el = id ->
  elementsStart (gesture st) !! id = Some start ->
  let dims := getCanvasDimensions (aspectRatio st) in
  let deltaX := ((clientX e - fst (dragStart (gesture st))) / zoomLevel st)%Q in
  let deltaY := ((clientY e - snd (dragStart (gesture st))) / zoomLevel st)%Q in
  exists el',
    In el' (elements (handleMouseMove atan2deg st e rect)) /\
    set_xy el' (el_x el) (el_y el) = el /\
    ((Qabs (num_or (el_x start) 0 + deltaX + el_width el / 2 - fst dims / 2)
      < SNAP_THRESHOLD)%Q ->
     (el_x el' + el_width el' / 2 == fst dims / 2)%Q) /\
    ((Qabs (num_or (el_y start) 0 + deltaY + el_height el / 2 - snd dims / 2)
      < SNAP_THRESHOLD)%Q ->
     (el_y el' + el_height el' / 2 == snd dims / 2)%Q).
Proof.
  intros Hd Hsel Hin Hid Hst dims deltaX deltaY.
  destruct (handleMouseMove_dragging atan2deg st e rect Hd) as [E _];
    [rewrite Hsel; discriminate|].
  pose proof (dragOne_single st deltaX deltaY id el start Hsel Hid Hst) as Hone.
  cbv zeta in Hone. fold dims in Hone.
  exists (dragOne st deltaX deltaY el). split; [|split; [|split]].
  - rewrite E. apply in_map. exact Hin.
  - rewrite Hone. destruct el; reflexivity.
  - intros Hnear. rewrite Hone, (Qltb_lt _ _ Hnear).
    destruct el; simpl. field.
  - intros Hnear. rewrite Hone, (Qltb_lt _ _ Hnear).
    destruct el; simpl. field.
Qed.

Lemma drag_snaps_to_center_witness :
  exists el',
    In el' (elements (handleMouseMove (fun _ _ => 0%Q) draggingA
                        (mkMouse 212 100 false) None)) /\
    (el_x el' + el_width el' / 2 == 400)%Q.
Proof.
  destruct (drag_snaps_to_center (fun _ _ => 0%Q) draggingA
              (mkMouse 212 100 false) None "a"
              (sampleText "a" 10 10 10 None) (sampleText "a" 10 10 10 None)
              draggingA_dragging eq_refl)
    as [el' [H1 [_ [H3 _]]]].
  - vm_compute. left. reflexivity.
  - reflexivity.
  - reflexivity.
  - exists el'. split; [exact H1|].
    rewrite H3; [reflexivity|]. vm_compute. reflexivity.
Defined.

(** ** The export *)

(** X16: the export paints every element of the scene exactly once; when
    the elements carry numeric z-indices they are painted in ascending
    z-index, elements of equal z-index in their order in the scene. *)
Theorem export_paints_in_z_order els :
  sortedElements els ≡ₚ els /\
  (all_zIndexed els ->
   StronglySorted (fun u v => (paintKey u <= paintKey v)%Q) (sortedElements els) /\
   forall k,
     List.filter (fun el => Qeq_bool (paintKey el) k) (sortedElements els)
     = List.filter (fun el => Qeq_bool (paintKey el) k) els).
Proof.
  split; [apply sort_perm|]. intros Hall. split.
  - apply sort_sorted. intros a b Ha Hb. apply paint_cmp_key; apply Hall; assumption.
  - intros k. apply sort_stable. intros a b Ha Hb Hka Hkb.
    rewrite paint_cmp_key by (apply Hall; assumption).
    apply Qeq_bool_iff in Hka, Hkb. apply Qle_bool_iff. rewrite Hka, Hkb.
    apply Qle_refl.
Qed.

Lemma export_paints_in_z_order_witness :
  all_zIndexed (elements (threeLayers [])) /\
  List.filter (fun el => Qeq_bool (paintKey el) 10)
              (sortedElements (elements (threeLayers [])))
  = List.filter (fun el => Qeq_bool (paintKey el) 10) (elements (threeLayers [])).
Proof.
  split; [apply threeLayers_zIndexed|].
  apply (proj2 (export_paints_in_z_order (elements (threeLayers [])))
               (threeLayers_zIndexed _)).
Defined.

(** X17: the rectangle into which the background image is drawn covers the
    whole canvas, is centred on it and keeps the proportions of the image,
    for every image of positive size. *)
Theorem coverRect_covers W H iw ih :
  (0 < iw)%Q -> (0 < ih)%Q ->
  let '(x, y, w, h) := coverRect (W, H) (iw, ih) in
  (x <= 0)%Q /\ (y <= 0)%Q /\ (W <= x + w)%Q /\ (H <= y + h)%Q /\
  (x + w / 2 == W / 2)%Q /\ (y + h / 2 == H / 2)%Q /\
  (w * ih == h * iw)%Q.
Proof.
  intros Hiw Hih. unfold coverRect. simpl fst. simpl snd.
  set (s := Qmax (W / iw) (H / ih)).
  assert (Hw : (W <= iw * s)%Q).
  { assert (E : (W == iw * (W / iw))%Q) by (field; lra).
    rewrite E at 1. apply Qmult_le_l; [exact Hiw | apply Qmax_ge_l]. }
  assert (Hh : (H <= ih * s)%Q).
  { assert (E : (H == ih * (H / ih))%Q) by (field; lra).
    rewrite E at 1. apply Qmult_le_l; [exact Hih | apply Qmax_ge_r]. }
  assert (Ex : (W / 2 - iw / 2 * s == (W - iw * s) * (1 # 2))%Q) by field.
  assert (Ey : (H / 2 - ih / 2 * s == (H - ih * s) * (1 # 2))%Q) by field.
  repeat split.
  - rewrite Ex. lra.
  - rewrite Ey. lra.
  - rewrite Ex. lra.
  - rewrite Ey. lra.
  - field.
  - field.
  - ring.
Qed.

Lemma coverRect_covers_witness :
  let '(x, y, w, h) := coverRect (getCanvasDimensions R16_9) (640, 480)%Q in
  (x <= 0)%Q /\ (y <= 0)%Q /\
  (fst (getCanvasDimensions R16_9) <= x + w)%Q /\
  (snd (getCanvasDimensions R16_9) <= y + h)%Q.
Proof.
  pose proof (coverRect_covers (fst (getCanvasDimensions R16_9))
                (snd (getCanvasDimensions R16_9)) 640 480
                ltac:(reflexivity) ltac:(reflexivity)) as H.
  change (getCanvasDimensions R16_9)
    with (fst (getCanvasDimensions R16_9), snd (getCanvasDimensions R16_9)).
  destruct (coverRect _ _) as [[[x y] w] h].
  destruct H as [H1 [H2 [H3 [H4 _]]]]. repeat split; assumption.
Defined.

(** * Further properties of the adapter and its callers *)

(** ** The attempts of [generateImage] *)

(** [getClient] either fails, changing nothing, or leaves a client cached. *)
Lemma getClient_cases env w :
  getClient env w = (Thrown missingKey, w) /\ ~ client_available env w \/
  getClient env w = (Returned tt, mkWorld true (sent w)) /\ client_available env w.
Proof.
  unfold getClient, client_available, missingKey.
  destruct w as [a s]. simpl. destruct a.
  - right. split; [reflexivity | left; reflexivity].
  - destruct (apiKey env) as [key|] eqn:Hk.
    + destruct (nonempty key) eqn:Hn.
      * right. split; [reflexivity|]. right. exists key. split; [reflexivity | exact Hn].
      * left. split; [reflexivity|]. intros [H|[k [Hk' Hn']]]; [discriminate|].
        injection Hk' as <-. congruence.
    + left. split; [reflexivity|]. intros [H|[k [Hk' _]]]; discriminate.
Qed.

(** One run of [executeGen]: no request when there is no client, one
    request otherwise. *)
Lemma executeGen_cases env aspectRatio promptText w :
  executeGen env aspectRatio promptText w = (Thrown missingKey, w)
    /\ ~ client_available env w \/
  exists o,
    executeGen env aspectRatio promptText w =
      (o, mkWorld true (sent w ++ [imageRequest aspectRatio promptText])).
Proof.
  unfold executeGen, bind.
  destruct (getClient_cases env w) as [[E Hn]|[E Hc]]; rewrite E.
  - left. split; [reflexivity | exact Hn].
  - right. unfold generateContent. simpl.
    destruct (net env (length (sent w))) as [m|resp]; [eauto|]. simpl.
    destruct (response_parts resp) as [parts|]; [|eauto]. simpl.
    destruct (firstOf imageOf parts); [eauto|].
    destruct (firstOf truthyText parts); eauto.
Qed.

(** X18: whatever the service answers, [generateImage] issues no request,
    the primary request alone, or the primary request followed by the
    fallback request, and never a third; every request goes to the image
    model with an aspect ratio other than 4:5; and the call either returns
    or throws the one error "Model refused to generate image. Try a simpler
    prompt.". *)
Theorem generateImage_at_most_two_requests env prompt aspectRatio referenceImages w :
  exists o w' rs,
    generateImage env prompt aspectRatio referenceImages w = (o, w') /\
    sent w' = sent w ++ rs /\
    (rs = [] \/
     rs = [imageRequest aspectRatio (strictPrompt prompt)] \/
     rs = [imageRequest aspectRatio (strictPrompt prompt);
           imageRequest aspectRatio (fallbackPrompt prompt)]) /\
    Forall (fun r => req_model r = "gemini-2.5-flash-image" /\
                     req_aspectRatio r <> Some "4:5") rs /\
    ((exists url, o = Returned url) \/ o = Thrown refused).
Proof.
  assert (Hreq : forall p,
            req_model (imageRequest aspectRatio p) = "gemini-2.5-flash-image" /\
            req_aspectRatio (imageRequest aspectRatio p) <> Some "4:5").
  { intros p. split; [reflexivity|]. destruct aspectRatio; discriminate. }
  unfold generateImage.
  destruct (nonempty prompt); simpl.
  2: { exists (Returned ""), w, []. rewrite app_nil_r.
       repeat split; eauto. }
  destruct (str_includes "user provided background" (toLowerCase prompt)).
  { eexists. exists w, []. rewrite app_nil_r. split; [reflexivity|].
    repeat split; eauto. }
  unfold try_catch, throw.
  destruct (executeGen_cases env aspectRatio (strictPrompt prompt) w)
    as [[E1 Hn]|[o1 E1]]; rewrite E1.
  - destruct (executeGen_cases env aspectRatio (fallbackPrompt prompt) w)
      as [[E2 _]|[o2 E2]]; rewrite E2.
    + exists (Thrown refused), w, []. rewrite app_nil_r. repeat split; eauto.
    + exfalso. apply Hn.
      destruct (getClient_cases env w) as [[Eg _]|[_ Hc]]; [|exact Hc].
      unfold executeGen, bind in E2. rewrite Eg in E2.
      injection E2 as _ E2. destruct w as [a s]. simpl in E2.
      injection E2 as -> Hs. exfalso.
      apply (f_equal (@length _)) in Hs. rewrite length_app in Hs. simpl in Hs. lia.
  - destruct o1 as [url|m1].
    + eexists. eexists. exists [imageRequest aspectRatio (strictPrompt prompt)].
      split; [reflexivity|]. split; [reflexivity|].
      split; [right; left; reflexivity|]. split; [|eauto].
      constructor; [apply Hreq | constructor].
    + set (w1 := mkWorld true (sent w ++ [imageRequest aspectRatio (strictPrompt prompt)])).
      destruct (executeGen_cases env aspectRatio (fallbackPrompt prompt) w1)
        as [[E2 Hn]|[o2 E2]].
      * exfalso. apply Hn. left. reflexivity.
      * rewrite E2.
        exists (match o2 with Returned u => Returned u | Thrown _ => Thrown refused end).
        eexists.
        exists [imageRequest aspectRatio (strictPrompt prompt);
                imageRequest aspectRatio (fallbackPrompt prompt)].
        split; [destruct o2; reflexivity|].
        split; [simpl; rewrite <- app_assoc; reflexivity|].
        split; [right; right; reflexivity|].
        split; [repeat constructor; apply Hreq|].
        destruct o2; eauto.
Qed.

(** The reply carries an image: the data URL [executeGen] builds from it. *)
Lemma executeGen_succeeds env aspectRatio promptText w resp parts url :
  client_available env w ->
  net env (length (sent w)) = Replied resp ->
  response_parts resp = Some parts ->
  firstOf imageOf parts = Some url ->
  executeGen env aspectRatio promptText w =
    (Returned url, mkWorld true (sent w ++ [imageRequest aspectRatio promptText])).
Proof.
  intros Hc Hr Hp Hu. unfold executeGen, bind.
  rewrite (getClient_available _ _ Hc). unfold generateContent. simpl.
  rewrite Hr. simpl. rewrite Hp. simpl. rewrite Hu. reflexivity.
Qed.

(** X19: when the primary attempt is answered with an image,
    [generateImage] returns its data URL after that single request: the
    fallback is not tried. *)
Theorem generateImage_primary_success env prompt aspectRatio referenceImages w
    resp parts url :
  nonempty prompt = true ->
  str_includes "user provided background" (toLowerCase prompt) = false ->
  client_available env w ->
  net env (length (sent w)) = Replied resp ->
  response_parts resp = Some parts ->
  firstOf imageOf parts = Some url ->
  generateImage env prompt aspectRatio referenceImages w =
    (Returned url,
     mkWorld true (sent w ++ [imageRequest aspectRatio (strictPrompt prompt)])).
Proof.
  intros Hne Hup Hc Hr Hp Hu. unfold generateImage. rewrite Hne, Hup. simpl.
  unfold try_catch.
  rewrite (executeGen_succeeds env aspectRatio _ w resp parts url Hc Hr Hp Hu).
  reflexivity.
Qed.

(** X20: when the primary attempt fails and the fallback attempt is
    answered with an image, [generateImage] returns the data URL of the
    fallback after exactly the two requests, and no error reaches the
    caller. *)
Theorem generateImage_fallback_success env prompt aspectRatio referenceImages w
    resp parts url :
  nonempty prompt = true ->
  str_includes "user provided background" (toLowerCase prompt) = false ->
  client_available env w ->
  attempt_fails (net env (length (sent w))) ->
  net env (S (length (sent w))) = Replied resp ->
  response_parts resp = Some parts ->
  firstOf imageOf parts = Some url ->
  generateImage env prompt aspectRatio referenceImages w =
    (Returned url,
     mkWorld true (sent w ++ [imageRequest aspectRatio (strictPrompt prompt);
                              imageRequest aspectRatio (fallbackPrompt prompt)])).
Proof.
  intros Hne Hup Hc Hf Hr Hp Hu. unfold generateImage. rewrite Hne, Hup. simpl.
  destruct (executeGen_fails env aspectRatio (strictPrompt prompt) w Hc Hf) as [m1 E1].
  unfold try_catch. rewrite E1.
  rewrite (executeGen_succeeds env aspectRatio _ _ resp parts url).
  - simpl. rewrite <- app_assoc. reflexivity.
  - left. reflexivity.
  - simpl. rewrite length_app. simpl.
    replace (length (sent w) + 1)%nat with (S (length (sent w))) by lia. exact Hr.
  - exact Hp.
  - exact Hu.
Qed.

Lemma imageEnv_available : client_available imageEnv freshWorld.
Proof. right. exists "key". split; reflexivity. Qed.

Lemma secondTryEnv_available : client_available secondTryEnv freshWorld.
Proof. right. exists "key". split; reflexivity. Qed.

Lemma generateImage_primary_success_witness :
  client_available imageEnv freshWorld /\
  generateImage imageEnv "A red bicycle" R1_1 [] freshWorld =
    (Returned "data:image/png;base64,iVBORw0KGgo=",
     mkWorld true [imageRequest R1_1 (strictPrompt "A red bicycle")]).
Proof.
  split; [exact imageEnv_available|].
  exact (generateImage_primary_success imageEnv "A red bicycle" R1_1 [] freshWorld
           _ [pngPart] _ eq_refl eq_refl imageEnv_available eq_refl eq_refl eq_refl).
Defined.

Lemma generateImage_fallback_success_witness :
  client_available secondTryEnv freshWorld /\
  attempt_fails (net secondTryEnv 0) /\
  fst (generateImage secondTryEnv "A red bicycle" R1_1 [] freshWorld) =
    Returned "data:image/png;base64,iVBORw0KGgo=".
Proof.
  split; [exact secondTryEnv_available|]. split; [reflexivity|].
  rewrite (generateImage_fallback_success secondTryEnv "A red bicycle" R1_1 []
             freshWorld _ [pngPart] _ eq_refl eq_refl secondTryEnv_available
             eq_refl eq_refl eq_refl eq_refl).
  reflexivity.
Defined.

(** ** Without a key *)

(** X21: when no client is cached and no key can be resolved, no call
    reaches the service: [generateImage] throws its final error,
    [generateBannerPlan] and [editImageWithGemini] throw the missing-key
    error, and the record of requests is as it was. *)
Theorem no_key_no_request env w :
  ~ client_available env w ->
  (forall prompt aspectRatio referenceImages,
     nonempty prompt = true ->
     str_includes "user provided background" (toLowerCase prompt) = false ->
     generateImage env prompt aspectRatio referenceImages w = (Thrown refused, w)) /\
  (forall request, generateBannerPlan env request w = (Thrown missingKey, w)) /\
  (forall base64Image prompt,
     nonempty prompt = true ->
     editImageWithGemini env base64Image prompt w = (Thrown missingKey, w)).
Proof.
  intros Hn.
  assert (Eg : getClient env w = (Thrown missingKey, w)).
  { destruct (getClient_cases env w) as [[E _]|[_ Hc]]; [exact E | contradiction]. }
  split; [|split].
  - intros prompt aspectRatio referenceImages Hne Hup.
    assert (Ex : forall promptText,
               executeGen env aspectRatio promptText w = (Thrown missingKey, w)).
    { intros promptText. unfold executeGen, bind. rewrite Eg. reflexivity. }
    unfold generateImage. rewrite Hne, Hup. simpl.
    unfold try_catch. rewrite Ex. rewrite Ex. reflexivity.
  - intros request. unfold generateBannerPlan, bind. rewrite Eg. reflexivity.
  - intros base64Image prompt Hne. unfold editImageWithGemini. rewrite Hne. simpl.
    unfold try_catch, bind. rewrite Eg. reflexivity.
Qed.

Lemma no_key_no_request_witness :
  ~ client_available noKeyEnv freshWorld /\
  generateImage noKeyEnv "A red bicycle" R1_1 [] freshWorld = (Thrown refused, freshWorld).
Proof.
  assert (Hn : ~ client_available noKeyEnv freshWorld).
  { intros [H|[k [H _]]]; discriminate H. }
  split; [exact Hn|].
  exact (proj1 (no_key_no_request noKeyEnv freshWorld Hn)
           "A red bicycle" R1_1 [] eq_refl eq_refl).
Defined.

(** ** The plan request *)

(** X22: [generateBannerPlan] issues at most one request and never tries
    again: a rejected call surfaces with the message of the rejection. *)
Theorem generateBannerPlan_single_request env request w :
  exists o w',
    generateBannerPlan env request w = (o, w') /\
    (sent w' = sent w \/ sent w' = sent w ++ [planRequest request]) /\
    (client_available env w ->
     sent w' = sent w ++ [planRequest request] /\
     forall message, net env (length (sent w)) = Rejected message ->
                     o = Thrown message).
Proof.
  unfold generateBannerPlan, bind.
  destruct (getClient_cases env w) as [[E Hn]|[E Hc]]; rewrite E.
  - eexists. eexists. split; [reflexivity|]. split; [left; reflexivity|].
    intros Hc. contradiction.
  - unfold generateContent. simpl.
    destruct (net env (length (sent w))) as [m|resp] eqn:Hr; simpl.
    + eexists. eexists. split; [reflexivity|]. split; [right; reflexivity|].
      intros _. split; [reflexivity|]. intros message Hm. congruence.
    + destruct (response_text resp) as [text|]; simpl.
      * destruct (negb (nonempty text)); simpl;
          (eexists; eexists; split; [reflexivity|]; split; [right; reflexivity|];
           intros _; split; [reflexivity|]; intros message Hm; discriminate).
      * eexists. eexists. split; [reflexivity|]. split; [right; reflexivity|].
        intros _. split; [reflexivity|]. intros message Hm. discriminate.
Qed.

Lemma generateBannerPlan_single_request_witness :
  client_available partialPlanEnv freshWorld /\
  sent (snd (generateBannerPlan partialPlanEnv sampleRequest freshWorld))
  = [planRequest sampleRequest].
Proof.
  assert (Hc : client_available partialPlanEnv freshWorld).
  { right. exists "key". split; reflexivity. }
  split; [exact Hc|].
  destruct (generateBannerPlan_single_request partialPlanEnv sampleRequest freshWorld)
    as [o [w' [E [_ H]]]].
  rewrite E. simpl. exact (proj1 (H Hc)).
Defined.

(** ** Fenced plans *)

(** X23: a text without backticks passes [stripFences] unchanged, and
    wrapping it in a [json] code fence changes nothing: the fenced text is
    stripped back to the text and is parsed to the same outcome. *)
Theorem stripFences_unwraps_fence env body :
  backtickfree body = true ->
  stripFences 0 body = body /\
  stripFences 0 (fenced body) = body /\
  parsePlanText env (fenced body) = parsePlanText env body.
Proof.
  intros Hb.
  assert (H1 : stripFences 0 body = body).
  { pose proof (stripFences_body body EmptyString Hb (or_introl eq_refl)) as H.
    assert (He : (body ++ EmptyString)%string = body).
    { clear. induction body as [|c r IH]; [reflexivity|].
      change (String c r ++ EmptyString)%string with (String c (r ++ EmptyString)).
      rewrite IH. reflexivity. }
    rewrite He in H. exact H. }
  assert (H2 : stripFences 0 (fenced body) = body).
  { unfold fenced.
    change (stripFences 0 ("```json" ++ String nl (body ++ String nl "```")))
      with (stripFences 0 (body ++ String nl "```")).
    apply stripFences_body; [exact Hb | right; reflexivity]. }
  split; [exact H1|]. split; [exact H2|].
  unfold parsePlanText. rewrite H1, H2. reflexivity.
Qed.

Lemma stripFences_unwraps_fence_witness :
  backtickfree "[1,2]" = true /\
  parsePlanText imageEnv (fenced "[1,2]") = parsePlanText imageEnv "[1,2]".
Proof.
  split; [reflexivity|].
  exact (proj2 (proj2 (stripFences_unwraps_fence imageEnv "[1,2]" eq_refl))).
Defined.

(** ** Data URLs *)

Lemma prefix_app head rest : String.prefix head (head ++ rest) = true.
Proof.
  induction head as [|c r IH].
  - destruct rest; reflexivity.
  - change (String.prefix (String c r) (String c r ++ rest))
      with (if ascii_dec c c then String.prefix r (r ++ rest) else false).
    destruct (ascii_dec c c) as [_|Hc]; [exact IH | contradiction].
Qed.

Lemma matchDataUrl_head kind payload :
  In kind imageKinds -> matchDataUrl (dataUrlHead kind ++ payload) = Some kind.
Proof.
  intros Hk. simpl in Hk. unfold matchDataUrl, imageKinds.
  destruct Hk as [<-|[<-|[<-|[<-|[]]]]]; cbn [List.find].
  - rewrite prefix_app. reflexivity.
  - replace (String.prefix (dataUrlHead "png") (dataUrlHead "jpeg" ++ payload))
      with false by reflexivity.
    rewrite prefix_app. reflexivity.
  - replace (String.prefix (dataUrlHead "png") (dataUrlHead "jpg" ++ payload))
      with false by reflexivity.
    replace (String.prefix (dataUrlHead "jpeg") (dataUrlHead "jpg" ++ payload))
      with false by reflexivity.
    rewrite prefix_app. reflexivity.
  - replace (String.prefix (dataUrlHead "png") (dataUrlHead "webp" ++ payload))
      with false by reflexivity.
    replace (String.prefix (dataUrlHead "jpeg") (dataUrlHead "webp" ++ payload))
      with false by reflexivity.
    replace (String.prefix (dataUrlHead "jpg") (dataUrlHead "webp" ++ payload))
      with false by reflexivity.
    rewrite prefix_app. reflexivity.
Qed.

Lemma dataUrl_split kind payload :
  In kind imageKinds ->
  mimeKind (dataUrlHead kind ++ payload) = kind /\
  cleanBase64 (dataUrlHead kind ++ payload) = payload.
Proof.
  intros Hk. pose proof (matchDataUrl_head kind payload Hk) as Hm.
  unfold mimeKind, cleanBase64. rewrite Hm. split; [reflexivity|].
  simpl in Hk. destruct Hk as [<-|[<-|[<-|[<-|[]]]]]; reflexivity.
Qed.

(** X24: an image the service returned can be sent back for another edit
    unchanged: for each of the four image kinds of the pattern, the data URL
    built from a response part is split by [editImageWithGemini] into the
    same MIME type and the same data. *)
Theorem dataUrl_round_trip kind d :
  In kind imageKinds -> nonempty d = true ->
  exists url,
    imageOf (mkPart (Some (mkInline (Some ("image/" ++ kind)%string) (Some d))) None)
      = Some url /\
    editInlineData url = mkInline (Some ("image/" ++ kind)%string) (Some d).
Proof.
  intros Hk Hd. exists (dataUrlHead kind ++ d)%string. split.
  - unfold imageOf. cbn [inlineData data mimeType]. rewrite Hd.
    simpl in Hk. destruct Hk as [<-|[<-|[<-|[<-|[]]]]]; reflexivity.
  - unfold editInlineData.
    destruct (dataUrl_split kind d Hk) as [Hm Hc]. rewrite Hm, Hc. reflexivity.
Qed.

Lemma dataUrl_round_trip_witness :
  In "jpeg" imageKinds /\ nonempty "/9j/4AAQ" = true /\
  editInlineData "data:image/jpeg;base64,/9j/4AAQ"
  = mkInline (Some "image/jpeg") (Some "/9j/4AAQ").
Proof.
  assert (Hk : In "jpeg" imageKinds) by (right; left; reflexivity).
  split; [exact Hk|]. split; [reflexivity|].
  destruct (dataUrl_round_trip "jpeg" "/9j/4AAQ" Hk eq_refl) as [url [Hu He]].
  injection Hu as <-. exact He.
Defined.

(** ** [editImageWithGemini] *)

(** X25: [editImageWithGemini] refuses an empty prompt before any call;
    otherwise, with a client, it issues exactly one request and does not
    try again: it returns the first image of the response, and throws when
    the call is rejected (with the message of the rejection) or the
    response carries no image. *)
Theorem editImageWithGemini_single_attempt env base64Image prompt w :
  (prompt = EmptyString ->
   editImageWithGemini env base64Image prompt w = (Thrown "Prompt is required", w)) /\
  (nonempty prompt = true -> client_available env w ->
   exists o,
     editImageWithGemini env base64Image prompt w =
       (o, mkWorld true (sent w ++ [editRequest prompt])) /\
     (forall message, net env (length (sent w)) = Rejected message ->
                      o = Thrown message) /\
     (forall resp, net env (length (sent w)) = Replied resp ->
        match response_parts resp with
        | None => o = Thrown "No content generated"
        | Some parts =>
            match firstOf imageOf parts with
            | Some url => o = Returned url
            | None => o = Thrown "No image data found in response"
            end
        end)).
Proof.
  split.
  - intros ->. reflexivity.
  - intros Hne Hc. unfold editImageWithGemini. rewrite Hne. simpl.
    unfold try_catch, bind.
    destruct (getClient_cases env w) as [[_ Hn]|[E _]]; [contradiction|].
    rewrite E. unfold generateContent. simpl.
    destruct (net env (length (sent w))) as [m|resp] eqn:Hr; simpl.
    + eexists. split; [reflexivity|]. split.
      * intros message Hm. congruence.
      * intros resp Hm. discriminate.
    + destruct (response_parts resp) as [parts|] eqn:Hp; simpl.
      * destruct (firstOf imageOf parts) as [url|] eqn:Hf; simpl;
          (eexists; split; [reflexivity|]; split;
           [intros message Hm; discriminate
           |intros resp' Hm; injection Hm as <-; rewrite Hp, Hf; reflexivity]).
      * eexists. split; [reflexivity|]. split.
        -- intros message Hm. discriminate.
        -- intros resp' Hm. injection Hm as <-. rewrite Hp. reflexivity.
Qed.

Lemma editImageWithGemini_single_attempt_witness :
  nonempty "make it brighter" = true /\
  client_available imageEnv freshWorld /\
  sent (snd (editImageWithGemini imageEnv "data:image/png;base64,AAAA"
               "make it brighter" freshWorld))
  = [editRequest "make it brighter"].
Proof.
  split; [reflexivity|]. split; [exact imageEnv_available|].
  destruct (proj2 (editImageWithGemini_single_attempt imageEnv
                     "data:image/png;base64,AAAA" "make it brighter" freshWorld)
              eq_refl imageEnv_available) as [o [E _]].
  rewrite E. reflexivity.
Defined.

(** ** The image studio *)

Lemma last_lookup_pred {A} (l : list A) : l !! (length l - 1)%nat = last l.
Proof. rewrite last_lookup. f_equal. lia. Qed.


Lemma studioStep_ok env st w a :
  studio_ok st -> studio_ok (fst (studioStep env (st, w) a)).
Proof.
  intros [Hc Hp]. destruct a as [s|p| | |]; simpl.
  - split; [reflexivity | exact Hp].
  - split; [exact Hc | exact Hp].
  - unfold handleEdit. destruct (currentImage st) as [image|] eqn:Hi.
    + destruct (negb (nonempty image) || negb (nonempty (studio_prompt st))).
      * split; [simpl; rewrite Hi; exact Hc | exact Hp].
      * destruct (editImageWithGemini env image (studio_prompt st) w) as [[e|m] w'];
          simpl.
        -- split; [simpl; rewrite last_snoc; reflexivity | reflexivity].
        -- split; [exact Hc | reflexivity].
    + split; [simpl; rewrite Hi; exact Hc | exact Hp].
  - unfold studioUndo. destruct (1 <? length (studio_history st))%nat.
    + split; [simpl; apply last_lookup_pred | exact Hp].
    + split; [exact Hc | exact Hp].
  - split; [reflexivity | exact Hp].
Qed.

(** X26: whatever is uploaded, typed, edited, undone or cleared, and
    whatever the service answers, the studio shows the last image of its
    history (none when the history is empty), and no edit is left pending. *)
Theorem studio_shows_last_of_history env w acts :
  studio_ok (fst (studioRun env (initStudio, w) acts)).
Proof.
  unfold studioRun.
  assert (H0 : studio_ok (fst (initStudio, w))) by (split; reflexivity).
  revert H0. generalize (initStudio, w). intros sw H0. revert sw H0.
  induction acts as [|a acts IH]; intros sw H0; [exact H0|].
  simpl. apply IH. destruct sw as [st w0]. apply studioStep_ok. exact H0.
Qed.



(** ** The generation slots *)

(** X28: one image generation touches only its own slot: afterwards the
    slot is no longer marked as generating; on success it holds the image,
    as generated image and as raw background, with the error flag off; on
    failure its images are as before and the error flag is on; and the
    entries of every other slot are as before. *)
Theorem triggerImageGeneration_own_slot env id prompt ratio refImages sl w :
  let sl' := fst (triggerImageGeneration env id prompt ratio refImages sl w) in
  generatingStatus sl' !! id = Some false /\
  match fst (generateImage env prompt ratio refImages w) with
  | Returned imageUrl =>
      generatedImages sl' !! id = Some imageUrl /\
      rawBackgrounds sl' !! id = Some imageUrl /\
      generationErrors sl' !! id = Some false
  | Thrown _ =>
      generatedImages sl' = generatedImages sl /\
      rawBackgrounds sl' = rawBackgrounds sl /\
      generationErrors sl' !! id = Some true
  end /\
  forall other, other <> id ->
    generatedImages sl' !! other = generatedImages sl !! other /\
    rawBackgrounds sl' !! other = rawBackgrounds sl !! other /\
    generatingStatus sl' !! other = generatingStatus sl !! other /\
    generationErrors sl' !! other = generationErrors sl !! other.
Proof.
  unfold triggerImageGeneration.
  destruct (generateImage env prompt ratio refImages w) as [[url|m] w']; simpl.
  - split; [apply lookup_insert_eq|]. split.
    + split; [apply lookup_insert_eq|]. split; apply lookup_insert_eq.
    + intros other Hne.
      rewrite !lookup_insert_ne by (intros E; apply Hne; symmetry; exact E).
      repeat split.
  - split; [apply lookup_insert_eq|]. split.
    + split; [reflexivity|]. split; [reflexivity | apply lookup_insert_eq].
    + intros other Hne.
      rewrite !lookup_insert_ne by (intros E; apply Hne; symmetry; exact E).
      repeat split.
Qed.

Lemma triggerImageGeneration_own_slot_witness :
  "slide-0" <> "main" /\
  generatedImages (fst (triggerImageGeneration imageEnv "main" "A red bicycle" R1_1 []
                          emptySlots freshWorld)) !! "slide-0"
  = generatedImages emptySlots !! "slide-0".
Proof.
  assert (Hne : "slide-0" <> "main") by discriminate.
  split; [exact Hne|].
  pose proof (triggerImageGeneration_own_slot imageEnv "main" "A red bicycle" R1_1 []
                emptySlots freshWorld) as H.
  cbv zeta in H. destruct H as [_ [_ H]].
  exact (proj1 (H "slide-0" Hne)).
Defined.

(** ** The AI handlers of the editor *)

(** X29: in a state whose cursor is on a history entry, a generated
    background replaces the background at scale 1 and offset 0 and keeps
    the opacity shown, while the history entry it pushes records opacity 1:
    undo followed by redo brings the new background back fully opaque.  A
    generation that fails changes nothing. *)
Theorem handleGenerateBackground_resets_transform env genPrompt st w :
  cursor_ok st ->
  nonempty (trim genPrompt) = true ->
  let st' := fst (handleGenerateBackground env genPrompt st w) in
  match fst (generateImage env genPrompt (aspectRatio st) [] w) with
  | Returned newBg =>
      bg st' = mkBg BgImage newBg (bgOpacity (bg st)) 1 0 0 /\
      elements st' = elements st /\
      history st' !! historyIndex st'
        = Some (snapshot (elements st) (mkBg BgImage newBg 1 1 0 0)) /\
      bg (redo (undo st')) = mkBg BgImage newBg 1 1 0 0
  | Thrown _ => st' = st
  end.
Proof.
  intros [[_ Hlen] Hidx] Hp.
  destruct (lookup_lt_is_Some_2 _ _ Hidx) as [e He].
  unfold handleGenerateBackground. rewrite Hp. simpl.
  destruct (generateImage env genPrompt (aspectRatio st) [] w) as [[newBg|m] w'];
    [|reflexivity].
  cbn [fst].
  set (stm := set_bg st (mkBg BgImage newBg (bgOpacity (bg st)) 1 0 0)).
  set (b1 := mkBg BgImage newBg 1 1 0 0).
  assert (Hlen' : (length (history stm) <= 20)%nat) by exact Hlen.
  destruct (saveToHistory_shape stm (elements st) b1 Hlen')
    as [H1 [H2 [H3 [H4 [H5 _]]]]].
  split; [exact H5|]. split; [exact H4|]. split; [exact H3|].
  destruct (undo_saveToHistory stm (elements st) b1 e Hlen' He) as [U1 [U2 _]].
  set (st' := saveToHistory stm (elements st) b1) in *.
  unfold redo. rewrite U1.
  assert (Hlt : (historyIndex (undo st') <? length (history st') - 1)%nat = true).
  { apply Nat.ltb_lt. lia. }
  rewrite Hlt.
  replace (historyIndex (undo st') + 1)%nat with (historyIndex st') by lia.
  rewrite H3. reflexivity.
Qed.

Lemma handleGenerateBackground_resets_transform_witness :
  cursor_ok fadedScene /\ nonempty (trim "A red bicycle") = true /\
  bgOpacity (bg (fst (handleGenerateBackground imageEnv "A red bicycle"
                        fadedScene freshWorld))) = (1 # 2)%Q /\
  bgOpacity (bg (redo (undo (fst (handleGenerateBackground imageEnv "A red bicycle"
                                    fadedScene freshWorld))))) = 1%Q.
Proof.
  split; [apply initEditor_cursor|]. split; [reflexivity|].
  pose proof (handleGenerateBackground_resets_transform imageEnv "A red bicycle"
                fadedScene freshWorld (initEditor_cursor _ _ _) eq_refl) as H.
  cbv zeta in H.
  change (fst (generateImage imageEnv "A red bicycle" (aspectRatio fadedScene) []
                 freshWorld))
    with (@Returned string "data:image/png;base64,iVBORw0KGgo=") in H.
  cbv beta iota in H. destruct H as [H1 [_ [_ H3]]].
  rewrite H1, H3. split; reflexivity.
Defined.

Lemma handleGenerateBackground_cursor env genPrompt st w :
  cursor_ok st -> cursor_ok (fst (handleGenerateBackground env genPrompt st w)).
Proof.
  intros Hok. pose proof Hok as [[_ Hlen] _]. unfold handleGenerateBackground.
  destruct (negb (nonempty (trim genPrompt))); [exact Hok|].
  destruct (generateImage env genPrompt (aspectRatio st) [] w) as [[newBg|m] w'];
    [|exact Hok].
  apply saveToHistory_cursor. exact Hlen.
Qed.

Lemma handleMagicEdit_cursor env editPrompt st w :
  cursor_ok st -> cursor_ok (fst (handleMagicEdit env editPrompt st w)).
Proof.
  intros Hok. pose proof Hok as [[_ Hlen] _]. unfold handleMagicEdit.
  destruct (negb (nonempty (trim editPrompt))); [exact Hok|].
  cbv zeta. destruct (negb (nonempty (magicTarget st))); [exact Hok|].
  destruct (editImageWithGemini env (magicTarget st) editPrompt w) as [[img|m] w1];
    [|exact Hok].
  destruct (magicIsBg st).
  - apply saveToHistory_cursor. exact Hlen.
  - destruct (selectedIds st) as [|id [|id2 rest]]; [exact Hok| |exact Hok].
    apply saveToHistory_cursor. exact Hlen.
Qed.



(** ** The history in every state the editor reaches *)

Lemma react_cursor atan2deg env st w ev :
  cursor_ok st -> cursor_ok (fst (react atan2deg env (st, w) ev)).
Proof.
  intros Hok. destruct ev as [a|e id action|e rect|e type|deltaY|p|p]; simpl.
  - apply perform_cursor. exact Hok.
  - destruct (handleMouseDown_keeps st e id action) as [_ [_ [H1 H2]]].
    unfold cursor_ok. rewrite H1, H2. exact Hok.
  - destruct (handleMouseMove_keeps atan2deg st e rect) as [H1 [H2 _]].
    unfold cursor_ok. rewrite H1, H2. exact Hok.
  - unfold handleBgMouseDown. destruct (negb (is_image (bgType (bg st)))); exact Hok.
  - unfold handleCanvasWheel. destruct (selectedIds st); [|exact Hok].
    destruct (is_image (bgType (bg st))); exact Hok.
  - apply handleGenerateBackground_cursor. exact Hok.
  - apply handleMagicEdit_cursor. exact Hok.
Qed.

Lemma reached_cursor atan2deg env events : forall st w,
  cursor_ok st -> cursor_ok (fst (fold_left (react atan2deg env) events (st, w))).
Proof.
  induction events as [|ev events IH]; intros st w Hok; [exact Hok|].
  change (fold_left (react atan2deg env) (ev :: events) (st, w))
    with (fold_left (react atan2deg env) events (react atan2deg env (st, w) ev)).
  pose proof (react_cursor atan2deg env st w ev Hok) as H.
  destruct (react atan2deg env (st, w) ev) as [st1 w1].
  apply IH. exact H.
Qed.

(** X1: from the state the editor opens in, whatever sequence of toolbar
    and panel actions, pointer and wheel events and AI edits follows, and
    whatever the service answers, the history holds between one and twenty
    entries and the cursor points at one of them; and every action that
    pushes an entry leaves the cursor on an entry that records the scene
    then on screen. *)
Theorem editor_keeps_cursor_in_history atan2deg env ar initialElements b w events :
  let st := reached atan2deg env ar initialElements b w events in
  (1 <= length (history st) <= 20)%nat /\
  (exists e, history st !! historyIndex st = Some e) /\
  forall a, commits_entry st a ->
    history (perform st a) !! historyIndex (perform st a)
    = Some (snapshot (elements (perform st a)) (bg (perform st a))).
Proof.
  intros st.
  assert (Hok : cursor_ok st).
  { unfold st, reached. apply reached_cursor. apply initEditor_cursor. }
  destruct Hok as [Hlen Hidx].
  split; [exact Hlen|]. split; [apply lookup_lt_is_Some_2; exact Hidx|].
  intros a Hc.
  destruct (perform_saves st a Hc) as [stm [els [-> [Hh [Hi [Hel Hbg]]]]]].
  assert (Hlen' : (length (history stm) <= 20)%nat) by (rewrite Hh; lia).
  destruct (saveToHistory_shape stm els (bg st) Hlen') as [_ [_ [S3 [S4 [S5 _]]]]].
  rewrite S3, S4, S5, Hel, Hbg. reflexivity.
Qed.

Lemma editor_keeps_cursor_in_history_witness :
  let st := reached (fun _ _ => 0%Q) imageEnv R1_1 [plainText] whiteBg freshWorld
              [Press (mkMouse 100 100 false) "a" Drag; Act DoUndo; Wheel 120] in
  commits_entry st (DoFlip FlipH) /\
  history (perform st (DoFlip FlipH)) !! historyIndex (perform st (DoFlip FlipH))
  = Some (snapshot (elements (perform st (DoFlip FlipH)))
                   (bg (perform st (DoFlip FlipH)))).
Proof.
  intros st. split; [exact I|].
  exact (proj2 (proj2 (editor_keeps_cursor_in_history (fun _ _ => 0%Q) imageEnv
                R1_1 [plainText] whiteBg freshWorld
                [Press (mkMouse 100 100 false) "a" Drag; Act DoUndo; Wheel 120]))
           (DoFlip FlipH) I).
Defined.
